(** * The local reactive data store of EDGEMAKERS-Multisolutions

    A shallow embedding of [src/lib/database.ts] (and of the record types of
    [src/lib/data.ts] it stores), followed by theorems about the store, its
    quota handling, the backup codec, the activity log and the legacy-key
    migration.

    Conventions of the embedding.

    - The host (browser) is not part of the repository.  Its pieces are
      either modelled directly ([localStorage] as a finite map, a JS [Map]
      as an insertion-ordered association list, [Array.prototype.sort] as a
      stable sort) or taken as a parameter gathered in the record [Host]:
      whether [localStorage.setItem] accepts a write, the readings of the
      clock, the values of [Math.random], and the parsing and printing of
      dates.
    - [localStorage] holds text.  The model keeps, for a stored text, the
      JSON document it denotes ([Json d] is the text [JSON.stringify]
      produces for [d]), or the text itself when [JSON.parse] rejects it
      ([Raw s], which includes the empty string).  All writers of the store
      go through [JSON.stringify], so a write followed by a read is the
      identity on documents.
    - Strings are sequences of code units; numbers that the code only
      counts, compares or rounds are integers ([Z]), and the usage
      percentage, which the code rounds to two decimals, is kept in
      hundredths of a percent.
    - Methods of the [Database] class are computations in the monad [M]: a
      function of the world state that returns a value or a thrown
      exception, together with the new state.  [try ... catch] is
      [try_catch]. *)

From Stdlib Require Import ZArith List String Ascii Bool Lia.
From Stdlib Require Import DecimalString.
From stdpp Require Import base option list gmap strings.

Local Open Scope Z_scope.
Local Open Scope string_scope.

(* ================================================================= *)
(** ** Strings *)

Definition string_of_Z (z : Z) : string := NilZero.string_of_int (Z.to_int z).
Definition string_of_nat (n : nat) : string := string_of_Z (Z.of_nat n).

Definition strlen (s : string) : Z := Z.of_nat (String.length s).

(** [String.prototype.toLowerCase] on code units: the letters [A]-[Z]. *)
Definition lower_ascii (c : ascii) : ascii :=
  let n := nat_of_ascii c in
  if ((65 <=? n)%nat && (n <=? 90)%nat)%bool then ascii_of_nat (n + 32) else c.

Fixpoint toLowerCase (s : string) : string :=
  match s with
  | EmptyString => EmptyString
  | String c r => String (lower_ascii c) (toLowerCase r)
  end.

Fixpoint join (sep : string) (l : list string) : string :=
  match l with
  | [] => EmptyString
  | [x] => x
  | x :: r => x ++ sep ++ join sep r
  end.

(** A string is truthy when it is not empty. *)
Definition nonempty (s : string) : bool := negb (String.eqb s EmptyString).

(** [a || b] on strings. *)
Definition str_or (a b : string) : string := if nonempty a then a else b.

(* ================================================================= *)
(** ** JSON documents *)

#[warnings="-register-all"]
Inductive JSValue : Type :=
| JNull
| JBool (b : bool)
| JNum (n : Z)
| JStr (s : string)
| JArr (items : list JSValue)
| JObj (fields : list (string * JSValue)).

Definition hex_digit (n : nat) : ascii :=
  if (n <? 10)%nat then ascii_of_nat (48 + n) else ascii_of_nat (87 + n).

(** The escapes [JSON.stringify] writes inside a string literal. *)
Definition escape_char (c : ascii) : string :=
  let n := nat_of_ascii c in
  if (n =? 34)%nat then String "\" (String c EmptyString)
  else if (n =? 92)%nat then "\\"
  else if (n =? 8)%nat then "\b"
  else if (n =? 12)%nat then "\f"
  else if (n =? 10)%nat then "\n"
  else if (n =? 13)%nat then "\r"
  else if (n =? 9)%nat then "\t"
  else if (n <? 32)%nat then
    "\u00" ++ String (hex_digit (n / 16)) (String (hex_digit (n mod 16)) EmptyString)
  else String c EmptyString.

Fixpoint escape (s : string) : string :=
  match s with
  | EmptyString => EmptyString
  | String c r => escape_char c ++ escape r
  end.

Definition dquote : string := String (ascii_of_nat 34) EmptyString.
Definition quote (s : string) : string := dquote ++ escape s ++ dquote.

Fixpoint JSON_stringify (v : JSValue) : string :=
  match v with
  | JNull => "null"
  | JBool true => "true"
  | JBool false => "false"
  | JNum n => string_of_Z n
  | JStr s => quote s
  | JArr items => "[" ++ join "," (map JSON_stringify items) ++ "]"
  | JObj fields =>
      "{" ++ join "," (map (fun '(k, x) => quote k ++ ":" ++ JSON_stringify x) fields)
          ++ "}"
  end.

(** Truthiness of a value ([!!v]). *)
Definition truthy (v : JSValue) : bool :=
  match v with
  | JNull => false
  | JBool b => b
  | JNum n => negb (n =? 0)%Z
  | JStr s => nonempty s
  | JArr _ | JObj _ => true
  end.

Definition isArray (v : JSValue) : bool :=
  match v with JArr _ => true | _ => false end.

(** Own property of an object: [None] is [undefined]. *)
Fixpoint assoc {V : Type} (k : string) (l : list (string * V)) : option V :=
  match l with
  | [] => None
  | (k', x) :: r => if String.eqb k k' then Some x else assoc k r
  end.

(** [v.k] for a value that is neither [null] nor [undefined]: primitives
    and arrays have none of the property names this program reads. *)
Definition prop (k : string) (v : JSValue) : option JSValue :=
  match v with
  | JObj fields => assoc k fields
  | _ => None
  end.

(** Truthiness of a possibly undefined value. *)
Definition truthy_opt (o : option JSValue) : bool :=
  match o with Some v => truthy v | None => false end.

(* ================================================================= *)
(** ** Typed data and its JSON form

    [getItem<T>] reads a document at the type [T] its caller declares.  The
    class [JSONData] gives, for each such type, the document a value is
    written as ([toJSON], with the fields in the order of the interface and
    absent optional fields left out, as [JSON.stringify] does) and the
    reading of a document at that type ([ofJSON]). *)

Class JSONData (T : Type) := {
  toJSON : T -> JSValue;
  ofJSON : JSValue -> option T;
  ofJSON_toJSON : forall x, ofJSON (toJSON x) = Some x
}.

#[export] Instance JSONData_value : JSONData JSValue :=
  {| toJSON := fun v => v; ofJSON := fun v => Some v;
     ofJSON_toJSON := fun _ => eq_refl |}.

#[export] Instance JSONData_string : JSONData string :=
  {| toJSON := JStr;
     ofJSON := fun v => match v with JStr s => Some s | _ => None end;
     ofJSON_toJSON := fun _ => eq_refl |}.

#[export] Instance JSONData_bool : JSONData bool :=
  {| toJSON := JBool;
     ofJSON := fun v => match v with JBool b => Some b | _ => None end;
     ofJSON_toJSON := fun _ => eq_refl |}.

#[export] Instance JSONData_Z : JSONData Z :=
  {| toJSON := JNum;
     ofJSON := fun v => match v with JNum n => Some n | _ => None end;
     ofJSON_toJSON := fun _ => eq_refl |}.

Fixpoint ofJSON_items {T} `{JSONData T} (l : list JSValue) : option (list T) :=
  match l with
  | [] => Some []
  | v :: r =>
      match ofJSON v, ofJSON_items r with
      | Some x, Some xs => Some (x :: xs)
      | _, _ => None
      end
  end.

Lemma ofJSON_items_map {T} `{JSONData T} (l : list T) :
  ofJSON_items (map toJSON l) = Some l.
Proof.
  induction l as [|x l IH]; simpl; [reflexivity|].
  now rewrite ofJSON_toJSON, IH.
Qed.

#[export] Instance JSONData_list {T} `{JSONData T} : JSONData (list T) :=
  {| toJSON := fun l => JArr (map toJSON l);
     ofJSON := fun v => match v with JArr l => ofJSON_items l | _ => None end;
     ofJSON_toJSON := ofJSON_items_map |}.

(** A required and an optional property of an object. *)
Definition field {T} `{JSONData T} (k : string) (x : T) : list (string * JSValue) :=
  [(k, toJSON x)].

Definition field_opt {T} `{JSONData T} (k : string) (o : option T)
  : list (string * JSValue) :=
  match o with Some x => [(k, toJSON x)] | None => [] end.

Definition required {T} `{JSONData T} (k : string) (fs : list (string * JSValue))
  : option T :=
  match assoc k fs with Some v => ofJSON v | None => None end.

Definition optional {T} `{JSONData T} (k : string) (fs : list (string * JSValue))
  : option (option T) :=
  match assoc k fs with
  | Some v => match ofJSON v with Some x => Some (Some x) | None => None end
  | None => Some None
  end.

Record ImagePlaceholder := {
  image_id : string;
  image_description : string;
  image_imageUrl : string;
  image_imageHint : string
}.

Record Service := {
  service_id : string;
  service_title : string;
  service_description : string;
  service_image : ImagePlaceholder;
  service_icon : string;
  service_category : string;
  service_googleFormUrl : string;
  service_active : option bool
}.

Record TeamMember := {
  member_id : string;
  member_name : string;
  member_role : string;
  member_bio : string;
  member_image : ImagePlaceholder;
  member_order : option Z;
  member_active : option bool
}.

Record Testimonial := {
  testimonial_id : string;
  testimonial_quote : string;
  testimonial_author : string;
  testimonial_company : string;
  testimonial_active : option bool
}.

Record Job := {
  job_id : string;
  job_title : string;
  job_department : string;
  job_location : string;
  job_type : string;
  job_description : string;
  job_requirements : list string;
  job_experience : option string;
  job_salary : option string;
  job_active : option bool
}.

Record User := {
  user_id : string;
  user_email : string;
  user_name : string;
  user_password : string;
  user_createdAt : string;
  user_isAdmin : bool
}.

Record Contact := {
  contact_id : string;
  contact_name : string;
  contact_email : string;
  contact_phone : string;
  contact_service : string;
  contact_message : string;
  contact_submittedAt : string;
  contact_status : string
}.

Record NewsletterSubscriber := {
  subscriber_id : string;
  subscriber_email : option string;
  subscriber_whatsapp : option string;
  subscriber_subscribedAt : string;
  subscriber_status : string
}.

Record JobApplication := {
  application_id : string;
  application_name : string;
  application_email : string;
  application_phone : string;
  application_position : string;
  application_experience : string;
  application_message : string;
  application_submittedAt : string;
  application_status : string
}.

Inductive ActivityAction :=
| action_create | action_update | action_delete | action_activate
| action_deactivate | action_restore | action_export | action_import.

Inductive EntityType :=
| entity_service | entity_team | entity_testimonial | entity_job | entity_user
| entity_contact | entity_newsletter | entity_application | entity_backup.

Record ActivityLog := {
  log_id : string;
  log_action : ActivityAction;
  log_entityType : EntityType;
  log_entityId : string;
  log_entityName : string;
  log_user : string;
  log_timestamp : string;
  log_details : option string;
  log_metadata : option JSValue
}.

Definition ActivityAction_name (a : ActivityAction) : string :=
  match a with
  | action_create => "create" | action_update => "update"
  | action_delete => "delete" | action_activate => "activate"
  | action_deactivate => "deactivate" | action_restore => "restore"
  | action_export => "export" | action_import => "import"
  end.

Definition ActivityAction_of_name (s : string) : option ActivityAction :=
  if String.eqb s "create" then Some action_create
  else if String.eqb s "update" then Some action_update
  else if String.eqb s "delete" then Some action_delete
  else if String.eqb s "activate" then Some action_activate
  else if String.eqb s "deactivate" then Some action_deactivate
  else if String.eqb s "restore" then Some action_restore
  else if String.eqb s "export" then Some action_export
  else if String.eqb s "import" then Some action_import
  else None.

Definition EntityType_name (e : EntityType) : string :=
  match e with
  | entity_service => "service" | entity_team => "team"
  | entity_testimonial => "testimonial" | entity_job => "job"
  | entity_user => "user" | entity_contact => "contact"
  | entity_newsletter => "newsletter" | entity_application => "application"
  | entity_backup => "backup"
  end.

Definition EntityType_of_name (s : string) : option EntityType :=
  if String.eqb s "service" then Some entity_service
  else if String.eqb s "team" then Some entity_team
  else if String.eqb s "testimonial" then Some entity_testimonial
  else if String.eqb s "job" then Some entity_job
  else if String.eqb s "user" then Some entity_user
  else if String.eqb s "contact" then Some entity_contact
  else if String.eqb s "newsletter" then Some entity_newsletter
  else if String.eqb s "application" then Some entity_application
  else if String.eqb s "backup" then Some entity_backup
  else None.

#[export] Instance JSONData_ActivityAction : JSONData ActivityAction.
Proof.
  refine {| toJSON := fun a => JStr (ActivityAction_name a);
            ofJSON := fun v => match v with
                               | JStr s => ActivityAction_of_name s
                               | _ => None
                               end |}.
  intros []; reflexivity.
Defined.

#[export] Instance JSONData_EntityType : JSONData EntityType.
Proof.
  refine {| toJSON := fun a => JStr (EntityType_name a);
            ofJSON := fun v => match v with
                               | JStr s => EntityType_of_name s
                               | _ => None
                               end |}.
  intros []; reflexivity.
Defined.

(** Reading an object back field by field: every [ofJSON] below is the
    composition of [required] and [optional] lookups. *)
Definition with_object {T} (v : JSValue) (k : list (string * JSValue) -> option T)
  : option T :=
  match v with JObj fs => k fs | _ => None end.

Ltac json_roundtrip :=
  let x := fresh "x" in
  intros x; destruct x; simpl;
  repeat match goal with
         | o : option _ |- _ => destruct o
         | i : ImagePlaceholder |- _ => destruct i
         end;
  try reflexivity.

#[export] Instance JSONData_ImagePlaceholder : JSONData ImagePlaceholder.
Proof.
  refine {| toJSON := fun i =>
              JObj (field "id" (image_id i) ++ field "description" (image_description i)
                    ++ field "imageUrl" (image_imageUrl i)
                    ++ field "imageHint" (image_imageHint i));
            ofJSON := fun v => with_object v (fun fs =>
              a ← required "id" fs; b ← required "description" fs;
              c ← required "imageUrl" fs; d ← required "imageHint" fs;
              Some {| image_id := a; image_description := b;
                      image_imageUrl := c; image_imageHint := d |}) |}.
  json_roundtrip.
Defined.

#[export] Instance JSONData_Service : JSONData Service.
Proof.
  refine {| toJSON := fun s =>
              JObj (field "id" (service_id s) ++ field "title" (service_title s)
                    ++ field "description" (service_description s)
                    ++ field "image" (service_image s)
                    ++ field "icon" (service_icon s)
                    ++ field "category" (service_category s)
                    ++ field "googleFormUrl" (service_googleFormUrl s)
                    ++ field_opt "active" (service_active s));
            ofJSON := fun v => with_object v (fun fs =>
              a ← required "id" fs; b ← required "title" fs;
              c ← required "description" fs; d ← required "image" fs;
              e ← required "icon" fs; f ← required "category" fs;
              g ← required "googleFormUrl" fs; h ← optional "active" fs;
              Some {| service_id := a; service_title := b; service_description := c;
                      service_image := d; service_icon := e; service_category := f;
                      service_googleFormUrl := g; service_active := h |}) |}.
  json_roundtrip.
Defined.

#[export] Instance JSONData_TeamMember : JSONData TeamMember.
Proof.
  refine {| toJSON := fun m =>
              JObj (field "id" (member_id m) ++ field "name" (member_name m)
                    ++ field "role" (member_role m) ++ field "bio" (member_bio m)
                    ++ field "image" (member_image m)
                    ++ field_opt "order" (member_order m)
                    ++ field_opt "active" (member_active m));
            ofJSON := fun v => with_object v (fun fs =>
              a ← required "id" fs; b ← required "name" fs;
              c ← required "role" fs; d ← required "bio" fs;
              e ← required "image" fs; f ← optional "order" fs;
              g ← optional "active" fs;
              Some {| member_id := a; member_name := b; member_role := c;
                      member_bio := d; member_image := e; member_order := f;
                      member_active := g |}) |}.
  json_roundtrip.
Defined.

#[export] Instance JSONData_Testimonial : JSONData Testimonial.
Proof.
  refine {| toJSON := fun t =>
              JObj (field "id" (testimonial_id t) ++ field "quote" (testimonial_quote t)
                    ++ field "author" (testimonial_author t)
                    ++ field "company" (testimonial_company t)
                    ++ field_opt "active" (testimonial_active t));
            ofJSON := fun v => with_object v (fun fs =>
              a ← required "id" fs; b ← required "quote" fs;
              c ← required "author" fs; d ← required "company" fs;
              e ← optional "active" fs;
              Some {| testimonial_id := a; testimonial_quote := b;
                      testimonial_author := c; testimonial_company := d;
                      testimonial_active := e |}) |}.
  json_roundtrip.
Defined.

Lemma ofJSON_items_strings (l : list string) :
  ofJSON_items (map JStr l) = Some l.
Proof. exact (ofJSON_items_map l). Qed.

#[export] Instance JSONData_Job : JSONData Job.
Proof.
  refine {| toJSON := fun j =>
              JObj (field "id" (job_id j) ++ field "title" (job_title j)
                    ++ field "department" (job_department j)
                    ++ field "location" (job_location j)
                    ++ field "type" (job_type j)
                    ++ field "description" (job_description j)
                    ++ field "requirements" (job_requirements j)
                    ++ field_opt "experience" (job_experience j)
                    ++ field_opt "salary" (job_salary j)
                    ++ field_opt "active" (job_active j));
            ofJSON := fun v => with_object v (fun fs =>
              a ← required "id" fs; b ← required "title" fs;
              c ← required "department" fs; d ← required "location" fs;
              e ← required "type" fs; f ← required "description" fs;
              g ← required "requirements" fs; h ← optional "experience" fs;
              i ← optional "salary" fs; k ← optional "active" fs;
              Some {| job_id := a; job_title := b; job_department := c;
                      job_location := d; job_type := e; job_description := f;
                      job_requirements := g; job_experience := h;
                      job_salary := i; job_active := k |}) |}.
  json_roundtrip;
    unfold required, optional; cbn;
    rewrite ofJSON_items_strings; reflexivity.
Defined.

#[export] Instance JSONData_User : JSONData User.
Proof.
  refine {| toJSON := fun u =>
              JObj (field "id" (user_id u) ++ field "email" (user_email u)
                    ++ field "name" (user_name u)
                    ++ field "password" (user_password u)
                    ++ field "createdAt" (user_createdAt u)
                    ++ field "isAdmin" (user_isAdmin u));
            ofJSON := fun v => with_object v (fun fs =>
              a ← required "id" fs; b ← required "email" fs;
              c ← required "name" fs; d ← required "password" fs;
              e ← required "createdAt" fs; f ← required "isAdmin" fs;
              Some {| user_id := a; user_email := b; user_name := c;
                      user_password := d; user_createdAt := e;
                      user_isAdmin := f |}) |}.
  json_roundtrip.
Defined.

#[export] Instance JSONData_Contact : JSONData Contact.
Proof.
  refine {| toJSON := fun c =>
              JObj (field "id" (contact_id c) ++ field "name" (contact_name c)
                    ++ field "email" (contact_email c)
                    ++ field "phone" (contact_phone c)
                    ++ field "service" (contact_service c)
                    ++ field "message" (contact_message c)
                    ++ field "submittedAt" (contact_submittedAt c)
                    ++ field "status" (contact_status c));
            ofJSON := fun v => with_object v (fun fs =>
              a ← required "id" fs; b ← required "name" fs;
              c ← required "email" fs; d ← required "phone" fs;
              e ← required "service" fs; f ← required "message" fs;
              g ← required "submittedAt" fs; h ← required "status" fs;
              Some {| contact_id := a; contact_name := b; contact_email := c;
                      contact_phone := d; contact_service := e;
                      contact_message := f; contact_submittedAt := g;
                      contact_status := h |}) |}.
  json_roundtrip.
Defined.

#[export] Instance JSONData_NewsletterSubscriber : JSONData NewsletterSubscriber.
Proof.
  refine {| toJSON := fun s =>
              JObj (field "id" (subscriber_id s)
                    ++ field_opt "email" (subscriber_email s)
                    ++ field_opt "whatsapp" (subscriber_whatsapp s)
                    ++ field "subscribedAt" (subscriber_subscribedAt s)
                    ++ field "status" (subscriber_status s));
            ofJSON := fun v => with_object v (fun fs =>
              a ← required "id" fs; b ← optional "email" fs;
              c ← optional "whatsapp" fs; d ← required "subscribedAt" fs;
              e ← required "status" fs;
              Some {| subscriber_id := a; subscriber_email := b;
                      subscriber_whatsapp := c; subscriber_subscribedAt := d;
                      subscriber_status := e |}) |}.
  json_roundtrip.
Defined.

#[export] Instance JSONData_JobApplication : JSONData JobApplication.
Proof.
  refine {| toJSON := fun a =>
              JObj (field "id" (application_id a) ++ field "name" (application_name a)
                    ++ field "email" (application_email a)
                    ++ field "phone" (application_phone a)
                    ++ field "position" (application_position a)
                    ++ field "experience" (application_experience a)
                    ++ field "message" (application_message a)
                    ++ field "submittedAt" (application_submittedAt a)
                    ++ field "status" (application_status a));
            ofJSON := fun v => with_object v (fun fs =>
              a ← required "id" fs; b ← required "name" fs;
              c ← required "email" fs; d ← required "phone" fs;
              e ← required "position" fs; f ← required "experience" fs;
              g ← required "message" fs; h ← required "submittedAt" fs;
              i ← required "status" fs;
              Some {| application_id := a; application_name := b;
                      application_email := c; application_phone := d;
                      application_position := e; application_experience := f;
                      application_message := g; application_submittedAt := h;
                      application_status := i |}) |}.
  json_roundtrip.
Defined.

#[export] Instance JSONData_ActivityLog : JSONData ActivityLog.
Proof.
  refine {| toJSON := fun l =>
              JObj (field "id" (log_id l) ++ field "action" (log_action l)
                    ++ field "entityType" (log_entityType l)
                    ++ field "entityId" (log_entityId l)
                    ++ field "entityName" (log_entityName l)
                    ++ field "user" (log_user l)
                    ++ field "timestamp" (log_timestamp l)
                    ++ field_opt "details" (log_details l)
                    ++ field_opt "metadata" (log_metadata l));
            ofJSON := fun v => with_object v (fun fs =>
              a ← required "id" fs; b ← required "action" fs;
              c ← required "entityType" fs; d ← required "entityId" fs;
              e ← required "entityName" fs; f ← required "user" fs;
              g ← required "timestamp" fs; h ← optional "details" fs;
              i ← optional "metadata" fs;
              Some {| log_id := a; log_action := b; log_entityType := c;
                      log_entityId := d; log_entityName := e; log_user := f;
                      log_timestamp := g; log_details := h;
                      log_metadata := i |}) |}.
  json_roundtrip; destruct log_action0, log_entityType0; reflexivity.
Defined.

(* ================================================================= *)
(** ** The host and the state of the process *)

(** Database keys ([DB_KEYS]). *)
Module DB_KEYS.
Definition SERVICES := "edgemakers_db_services".
Definition TEAM := "edgemakers_db_team".
Definition TESTIMONIALS := "edgemakers_db_testimonials".
Definition JOBS := "edgemakers_db_jobs".
Definition USERS := "edgemakers_db_users".
Definition CONTACTS := "edgemakers_db_contacts".
Definition NEWSLETTER := "edgemakers_db_newsletter".
Definition APPLICATIONS := "edgemakers_db_applications".
Definition ACTIVITY_LOGS := "edgemakers_db_activity_logs".
Definition SETTINGS := "edgemakers_db_settings".
Definition values : list string :=
  [SERVICES; TEAM; TESTIMONIALS; JOBS; USERS; CONTACTS; NEWSLETTER;
   APPLICATIONS; ACTIVITY_LOGS; SETTINGS].
End DB_KEYS.

Definition BACKUP_FORMAT_VERSION := "1.0.0".

(** Legacy key mappings for the one-time migration: (legacy, new). *)
Definition LEGACY_KEY_MAPPINGS : list (string * string) :=
  [("edgemakers_contacts", DB_KEYS.CONTACTS);
   ("edgemakers_newsletter", DB_KEYS.NEWSLETTER);
   ("edgemakers_job_applications", DB_KEYS.APPLICATIONS);
   ("edgemakers_user", DB_KEYS.USERS)].

Inductive DatabaseEventType :=
| topic_services | topic_team | topic_testimonials | topic_jobs | topic_users
| topic_contacts | topic_newsletter | topic_applications | topic_activityLogs
| topic_settings | topic_storageWarning.

#[export] Instance DatabaseEventType_eq_dec : EqDecision DatabaseEventType.
Proof. solve_decision. Defined.

(** A text held by [localStorage]. *)
Inductive StoredText :=
| Json (d : JSValue)   (* the text [JSON.stringify d] *)
| Raw (s : string).    (* a text [JSON.parse] rejects; [Raw EmptyString] is falsy *)

Definition text_of (t : StoredText) : string :=
  match t with
  | Json d => JSON_stringify d
  | Raw s => s
  end.

Definition text_length (t : StoredText) : Z := strlen (text_of t).

(** Truthiness of a possibly missing text ([null] when the key is absent). *)
Definition text_truthy (o : option StoredText) : bool :=
  match o with
  | Some t => nonempty (text_of t)
  | None => false
  end.

(** What [localStorage.setItem] throws. *)
Record DOMException := { error_name : string; error_code : option Z }.

(** Payload of a [StorageQuotaError] and of the [storage:quotaError] window
    event; [usagePercentage] is in hundredths of a percent. *)
Record StorageInfo := {
  usagePercentage : Z;
  usageBytes : Z;
  quotaBytes : Z
}.

Inductive Exn :=
| HostError (e : DOMException)
| StorageQuotaError (message : string) (storageInfo : StorageInfo)
| SyntaxError
| TypeError
| ReferenceError.

Record Host := {
  (** [typeof window !== "undefined"] *)
  window_defined : bool;
  (** [localStorage.setItem(key, text)] in a given store: [None] when the
      write is accepted, the exception otherwise *)
  host_setItem : gmap string StoredText -> string -> StoredText -> option DOMException;
  (** the successive readings of [Date.now()] and [new Date()] *)
  timeAt : nat -> Z;
  (** the successive values of [Math.random().toString(36).slice(2, 11)] *)
  randomAt : nat -> string;
  (** [new Date(s).getTime()]; [None] is [NaN] *)
  Date_parse : string -> option Z;
  (** [new Date(ms).toISOString()] *)
  toISOString : Z -> string;
  (** [process.env.NEXT_PUBLIC_APP_VERSION], [process.env.npm_package_version] *)
  env_NEXT_PUBLIC_APP_VERSION : string;
  env_npm_package_version : string
}.

Record World := {
  localStorage : gmap string StoredText;
  (** number of clock and random readings taken so far *)
  reads : nat;
  (** fields of the [Database] instance *)
  lastStorageCheckTime : Z;
  cachedStorageSize : Z;
  lastWarningTime : Z;
  (** topics emitted on [dbEvents], oldest first *)
  emitted : list DatabaseEventType;
  (** [storage:quotaError] events dispatched on [window], oldest first *)
  dispatched : list StorageInfo
}.

Definition with_localStorage (ls : gmap string StoredText) (w : World) : World :=
  {| localStorage := ls; reads := reads w;
     lastStorageCheckTime := lastStorageCheckTime w;
     cachedStorageSize := cachedStorageSize w;
     lastWarningTime := lastWarningTime w;
     emitted := emitted w; dispatched := dispatched w |}.

Definition with_reads (n : nat) (w : World) : World :=
  {| localStorage := localStorage w; reads := n;
     lastStorageCheckTime := lastStorageCheckTime w;
     cachedStorageSize := cachedStorageSize w;
     lastWarningTime := lastWarningTime w;
     emitted := emitted w; dispatched := dispatched w |}.

Definition with_storageCache (size time : Z) (w : World) : World :=
  {| localStorage := localStorage w; reads := reads w;
     lastStorageCheckTime := time;
     cachedStorageSize := size;
     lastWarningTime := lastWarningTime w;
     emitted := emitted w; dispatched := dispatched w |}.

Definition with_lastWarningTime (time : Z) (w : World) : World :=
  {| localStorage := localStorage w; reads := reads w;
     lastStorageCheckTime := lastStorageCheckTime w;
     cachedStorageSize := cachedStorageSize w;
     lastWarningTime := time;
     emitted := emitted w; dispatched := dispatched w |}.

Definition with_emitted (l : list DatabaseEventType) (w : World) : World :=
  {| localStorage := localStorage w; reads := reads w;
     lastStorageCheckTime := lastStorageCheckTime w;
     cachedStorageSize := cachedStorageSize w;
     lastWarningTime := lastWarningTime w;
     emitted := l; dispatched := dispatched w |}.

Definition with_dispatched (l : list StorageInfo) (w : World) : World :=
  {| localStorage := localStorage w; reads := reads w;
     lastStorageCheckTime := lastStorageCheckTime w;
     cachedStorageSize := cachedStorageSize w;
     lastWarningTime := lastWarningTime w;
     emitted := emitted w; dispatched := l |}.

(** A freshly loaded module over a given store. *)
Definition initial_world (ls : gmap string StoredText) : World :=
  {| localStorage := ls; reads := 0%nat;
     lastStorageCheckTime := 0; cachedStorageSize := 0; lastWarningTime := 0;
     emitted := []; dispatched := [] |}.

(* ================================================================= *)
(** ** Computations: state and exceptions *)

Inductive Result (A : Type) :=
| Ok (a : A)
| Throw (e : Exn).
Arguments Ok {A} a.
Arguments Throw {A} e.

Definition M (A : Type) : Type := World -> Result A * World.

#[export] Instance M_ret : MRet M := fun A a w => (Ok a, w).

#[export] Instance M_bind : MBind M := fun A B f m w =>
  match m w with
  | (Ok a, w') => f a w'
  | (Throw e, w') => (Throw e, w')
  end.

Definition throw {A} (e : Exn) : M A := fun w => (Throw e, w).

(** [try { m } catch (e) { h e }]: what [m] did to the state before it
    threw stays done. *)
Definition try_catch {A} (m : M A) (h : Exn -> M A) : M A := fun w =>
  match m w with
  | (Ok a, w') => (Ok a, w')
  | (Throw e, w') => h e w'
  end.

Definition gets {A} (f : World -> A) : M A := fun w => (Ok (f w), w).
Definition modify (f : World -> World) : M unit := fun w => (Ok tt, f w).

(** The state a computation leaves, and the value it returns. *)
Definition exec {A} (m : M A) (w : World) : World := snd (m w).
Definition result {A} (m : M A) (w : World) : Result A := fst (m w).

(** [dbEvents.emit]: the listeners belong to the rendering layer; the
    model records the topic. *)
Definition emit (t : DatabaseEventType) : M unit :=
  modify (fun w => with_emitted (emitted w ++ [t]) w).

(** [window.dispatchEvent(new CustomEvent("storage:quotaError", {detail}))] *)
Definition dispatchQuotaError (detail : StorageInfo) : M unit :=
  modify (fun w => with_dispatched (dispatched w ++ [detail]) w).

(* ================================================================= *)
(** ** Host library functions used by the store *)

(** [Array.prototype.sort(compare)], a stable sort; a comparison that is
    [NaN] ([None]) counts as [+0], as the language prescribes. *)
Definition is_negative (o : option Z) : bool :=
  match o with Some z => (z <? 0)%Z | None => false end.

Fixpoint sort_insert {A} (compare : A -> A -> option Z) (x : A) (l : list A) : list A :=
  match l with
  | [] => [x]
  | y :: r =>
      if is_negative (compare y x) then y :: sort_insert compare x r
      else x :: y :: r
  end.

Definition sort {A} (compare : A -> A -> option Z) (l : list A) : list A :=
  foldr (sort_insert compare) [] l.

(** [a.getTime() - b.getTime()] *)
Definition time_diff (a b : option Z) : option Z :=
  match a, b with
  | Some x, Some y => Some (x - y)
  | _, _ => None
  end.

(** [Math.ceil(n * 0.2)]: for a length [n] the double [n * 0.2] is [n / 5]
    up to a relative error below [2^-53], and rounds to the integer [n / 5]
    when [5] divides [n]; its ceiling is the integer ceiling of [n / 5]. *)
Definition ceil_fifth (n : nat) : nat := ((n + 4) / 5)%nat.

(** [Array.prototype.slice(k)] *)
Definition slice {A} (k : nat) (l : list A) : list A := drop k l.

(** A JS [Map] with string keys: entries in insertion order; [set] on a
    present key replaces its value in place. *)
Fixpoint Map_set {V} (k : string) (v : V) (m : list (string * V)) : list (string * V) :=
  match m with
  | [] => [(k, v)]
  | (k', v') :: r =>
      if String.eqb k k' then (k, v) :: r else (k', v') :: Map_set k v r
  end.

Definition Map_get {V} (k : string) (m : list (string * V)) : option V := assoc k m.

Definition Map_has {V} (k : string) (m : list (string * V)) : bool :=
  match assoc k m with Some _ => true | None => false end.

Definition Map_values {V} (m : list (string * V)) : list V := map snd m.

(** [xs.some(x => x === k)] on strings, the membership test of a [Set]. *)
Definition Set_has (k : string) (s : list string) : bool :=
  existsb (String.eqb k) s.

(* ================================================================= *)
(** ** The [Database] class *)

Definition STORAGE_CHECK_COOLDOWN : Z := 10000.
Definition WARNING_COOLDOWN : Z := 60000.

(** The sum [getStorageSize] computes over the keys of the store. *)
Definition storage_total (ls : gmap string StoredText) : Z :=
  map_fold
    (fun key value totalSize =>
       if (nonempty key && (0 <? text_length value)%Z)%bool
       then totalSize + (strlen key + text_length value) * 2
       else totalSize)
    0 ls.

(** [Math.round((usageBytes / quotaBytes) * 100 * 100) / 100], in
    hundredths of a percent. *)
Definition usage_hundredths (usageBytes quotaBytes : Z) : Z :=
  (2 * (usageBytes * 10000) + quotaBytes) / (2 * quotaBytes).

Definition isQuotaError (error : Exn) : bool :=
  match error with
  | HostError e =>
      String.eqb (error_name e) "QuotaExceededError"
      || String.eqb (error_name e) "NS_ERROR_DOM_QUOTA_REACHED"
      || bool_decide (error_code e = Some 22)
      || bool_decide (error_code e = Some 1014)
  | _ => false
  end.

(** The argument of [addActivityLog]: [Omit<ActivityLog, "id" | "timestamp">]. *)
Record ActivityLogInput := {
  input_action : ActivityAction;
  input_entityType : EntityType;
  input_entityId : string;
  input_entityName : string;
  input_user : string;
  input_details : option string;
  input_metadata : option JSValue
}.

(** A value used where the types promise a string: a string is itself; any
    other value is shown as its JSON text. *)
Definition display (o : option JSValue) : string :=
  match o with
  | Some (JStr s) => s
  | Some v => JSON_stringify v
  | None => "undefined"
  end.

(** [JSON.parse] of a text read from the store. *)
Definition JSON_parse (item : option StoredText) : M JSValue :=
  match item with
  | Some (Json d) => mret d
  | _ => throw SyntaxError
  end.

Section Database.
Context (host : Host).

Definition Date_now : M Z := fun w =>
  (Ok (timeAt host (reads w)), with_reads (S (reads w)) w).

Definition Math_random : M string := fun w =>
  (Ok (randomAt host (reads w)), with_reads (S (reads w)) w).

Definition localStorage_getItem (key : string) : M (option StoredText) :=
  gets (fun w => localStorage w !! key).

Definition localStorage_setItem (key : string) (text : StoredText) : M unit :=
  fun w =>
    match host_setItem host (localStorage w) key text with
    | None => (Ok tt, with_localStorage (<[key := text]> (localStorage w)) w)
    | Some e => (Throw (HostError e), w)
    end.

Definition localStorage_removeItem (key : string) : M unit :=
  modify (fun w => with_localStorage (delete key (localStorage w)) w).

(** [JSON.parse(item)] at the type the caller declares.  A document that
    is not of that type lies outside the typed model and reads as the
    default. *)
Definition getItem {T} `{JSONData T} (key : string) (defaultValue : T) : M T :=
  if negb (window_defined host) then mret defaultValue
  else
    try_catch
      (item ← localStorage_getItem key;
       match item with
       | Some (Json d) =>
           match ofJSON d with
           | Some x => mret x
           | None => mret defaultValue
           end
       | Some (Raw s) => if nonempty s then throw SyntaxError else mret defaultValue
       | None => mret defaultValue
       end)
      (fun _ => mret defaultValue).

Definition getStorageSize : M Z :=
  if negb (window_defined host) then mret 0
  else
    now ← Date_now;
    cached ← gets cachedStorageSize;
    lastCheck ← gets lastStorageCheckTime;
    if ((0 <? cached)%Z && (now - lastCheck <? STORAGE_CHECK_COOLDOWN)%Z)%bool
    then mret cached
    else
      try_catch
        (ls ← gets localStorage;
         let totalSize := storage_total ls in
         modify (with_storageCache totalSize now);;
         mret totalSize)
        (fun _ => mret 0).

Definition getStorageUsagePercentage : M Z :=
  try_catch
    (let quotaBytes := 5 * 1024 * 1024 in
     usageBytes ← getStorageSize;
     mret (usage_hundredths usageBytes quotaBytes))
    (fun _ => mret 0).

Definition isStorageNearCapacity : M bool :=
  try_catch
    (percentage ← getStorageUsagePercentage;
     mret (8000 <? percentage)%Z)
    (fun _ => mret false).

Definition getContacts : M (list Contact) := getItem DB_KEYS.CONTACTS [].
Definition getNewsletterSubscribers : M (list NewsletterSubscriber) :=
  getItem DB_KEYS.NEWSLETTER [].
Definition getApplications : M (list JobApplication) :=
  getItem DB_KEYS.APPLICATIONS [].

Definition by_date {A} (stamp : A -> string) (a b : A) : option Z :=
  time_diff (Date_parse host (stamp a)) (Date_parse host (stamp b)).

Definition cleanupOldData (bytesNeeded : Z) : M bool :=
  try_catch
    (sizeBefore ← getStorageSize;
     contacts ← getContacts;
     subscribers ← getNewsletterSubscribers;
     applications ← getApplications;
     let sortedContacts := sort (by_date contact_submittedAt) contacts in
     let sortedSubscribers := sort (by_date subscriber_subscribedAt) subscribers in
     let sortedApplications := sort (by_date application_submittedAt) applications in
     let contactsToRemove := ceil_fifth (length sortedContacts) in
     let subscribersToRemove := ceil_fifth (length sortedSubscribers) in
     let applicationsToRemove := ceil_fifth (length sortedApplications) in
     let newContacts := slice contactsToRemove sortedContacts in
     let newSubscribers := slice subscribersToRemove sortedSubscribers in
     let newApplications := slice applicationsToRemove sortedApplications in
     (if window_defined host then
        try_catch
          (localStorage_setItem DB_KEYS.CONTACTS (Json (toJSON newContacts));;
           emit topic_contacts)
          (fun _ => mret tt);;
        try_catch
          (localStorage_setItem DB_KEYS.NEWSLETTER (Json (toJSON newSubscribers));;
           emit topic_newsletter)
          (fun _ => mret tt);;
        try_catch
          (localStorage_setItem DB_KEYS.APPLICATIONS (Json (toJSON newApplications));;
           emit topic_applications)
          (fun _ => mret tt)
      else mret tt);;
     sizeAfter ← getStorageSize;
     let freedBytes := sizeBefore - sizeAfter in
     mret (bytesNeeded <=? 2 * freedBytes)%Z)
    (fun _ => mret false).

Definition setItem {T} `{JSONData T} (key : string) (value : T) : M unit :=
  if negb (window_defined host) then mret tt
  else
    now ← Date_now;
    nearCapacity ← isStorageNearCapacity;
    lastWarning ← gets lastWarningTime;
    (if (nearCapacity && (WARNING_COOLDOWN <? now - lastWarning)%Z)%bool
     then emit topic_storageWarning;; modify (with_lastWarningTime now)
     else mret tt);;
    try_catch
      (localStorage_setItem key (Json (toJSON value)))
      (fun error =>
         if isQuotaError error then
           let bytesNeeded := strlen (JSON_stringify (toJSON value)) * 2 in
           cleanupSuccessful ← cleanupOldData bytesNeeded;
           saved ←
             (if cleanupSuccessful : bool then
                try_catch
                  (localStorage_setItem key (Json (toJSON value));; mret true)
                  (fun _ => mret false)
              else mret false);
           if saved : bool then mret tt
           else
             storageSize ← getStorageSize;
             storagePercentage ← getStorageUsagePercentage;
             let quotaBytes := 5 * 1024 * 1024 in
             (if window_defined host then
                dispatchQuotaError
                  {| usagePercentage := storagePercentage;
                     usageBytes := storageSize;
                     quotaBytes := quotaBytes |}
              else mret tt);;
             throw
               (StorageQuotaError
                  "Failed to save data even after cleanup. Please export your data and clear old entries."
                  {| usagePercentage := storagePercentage;
                     usageBytes := storageSize;
                     quotaBytes := quotaBytes |})
         else throw error).

(** *** Collections *)

Definition getServices : M (list Service) := getItem DB_KEYS.SERVICES [].

Definition setServices (services : list Service) : M unit :=
  setItem DB_KEYS.SERVICES services;; emit topic_services.

Definition getTeam : M (list TeamMember) := getItem DB_KEYS.TEAM [].

Definition setTeam (team : list TeamMember) : M unit :=
  setItem DB_KEYS.TEAM team;; emit topic_team.

Definition getTestimonials : M (list Testimonial) := getItem DB_KEYS.TESTIMONIALS [].

Definition setTestimonials (testimonials : list Testimonial) : M unit :=
  setItem DB_KEYS.TESTIMONIALS testimonials;; emit topic_testimonials.

Definition getJobs : M (list Job) := getItem DB_KEYS.JOBS [].

Definition setJobs (jobs : list Job) : M unit :=
  setItem DB_KEYS.JOBS jobs;; emit topic_jobs.

Definition getUsers : M (list User) := getItem DB_KEYS.USERS [].

Definition setUsers (users : list User) : M unit :=
  setItem DB_KEYS.USERS users;; emit topic_users.

(** *** Activity log *)

Definition getActivityLogs : M (list ActivityLog) :=
  getItem DB_KEYS.ACTIVITY_LOGS [].

(** [new Date(log.timestamp) >= cutoffDate]; false for an invalid date. *)
Definition not_before (cutoffDate : Z) (log : ActivityLog) : bool :=
  match Date_parse host (log_timestamp log) with
  | Some t => (cutoffDate <=? t)%Z
  | None => false
  end.

Definition cleanupOldActivityLogs (daysToKeep : Z) : M Z :=
  try_catch
    (logs ← getActivityLogs;
     now ← Date_now;
     let cutoffDate := now - daysToKeep * 24 * 60 * 60 * 1000 in
     let filteredLogs := List.filter (not_before cutoffDate) logs in
     if (length filteredLogs <? length logs)%nat then
       setItem DB_KEYS.ACTIVITY_LOGS filteredLogs;;
       emit topic_activityLogs;;
       mret (Z.of_nat (length logs - length filteredLogs))
     else mret 0)
    (fun _ => mret 0).

Definition addActivityLog (log : ActivityLogInput) : M unit :=
  try_catch
    (logs ← getActivityLogs;
     now ← Date_now;
     suffix ← Math_random;
     stamp ← Date_now;
     let newLog :=
       {| log_id := "log-" ++ string_of_Z now ++ "-" ++ suffix;
          log_action := input_action log;
          log_entityType := input_entityType log;
          log_entityId := input_entityId log;
          log_entityName := input_entityName log;
          log_user := input_user log;
          log_timestamp := toISOString host stamp;
          log_details := input_details log;
          log_metadata := input_metadata log |} in
     setItem DB_KEYS.ACTIVITY_LOGS (logs ++ [newLog])%list;;
     emit topic_activityLogs;;
     cleanupOldActivityLogs 30;;
     mret tt)
    (fun _ => mret tt).

Definition getCurrentUser : M string :=
  try_catch
    ((if window_defined host then mret tt else throw ReferenceError);;
     userStr ← localStorage_getItem "edgemakers_user";
     if text_truthy userStr then
       user ← JSON_parse userStr;
       match user with
       | JNull => throw TypeError
       | _ =>
           if truthy_opt (prop "email" user) then mret (display (prop "email" user))
           else if truthy_opt (prop "name" user) then mret (display (prop "name" user))
           else mret "Admin"
       end
     else mret "System")
    (fun _ => mret "System").

Definition logActivity (action : ActivityAction) (entityType : EntityType)
    (entityId entityName : string) (details : option string) : M unit :=
  try_catch
    (user ← getCurrentUser;
     addActivityLog
       {| input_action := action; input_entityType := entityType;
          input_entityId := entityId; input_entityName := entityName;
          input_user := user; input_details := details;
          input_metadata := None |})
    (fun _ => mret tt).

(** *** Deleting a record *)

Definition deleteService (id : string) : M unit :=
  services ← getServices;
  let service := List.find (fun s => String.eqb (service_id s) id) services in
  let serviceName :=
    match service with
    | Some s => str_or (service_title s) "Unknown Service"
    | None => "Unknown Service"
    end in
  let filtered := List.filter (fun s => negb (String.eqb (service_id s) id)) services in
  setServices filtered;;
  logActivity action_delete entity_service id serviceName None.

Definition deleteTeamMember (id : string) : M unit :=
  team ← getTeam;
  let member := List.find (fun m => String.eqb (member_id m) id) team in
  let memberName :=
    match member with
    | Some m => str_or (member_name m) "Unknown Member"
    | None => "Unknown Member"
    end in
  let filtered := List.filter (fun m => negb (String.eqb (member_id m) id)) team in
  setTeam filtered;;
  logActivity action_delete entity_team id memberName None.

Definition deleteTestimonial (id : string) : M unit :=
  testimonials ← getTestimonials;
  let testimonial :=
    List.find (fun t => String.eqb (testimonial_id t) id) testimonials in
  let testimonialAuthor :=
    match testimonial with
    | Some t => str_or (testimonial_author t) "Unknown Author"
    | None => "Unknown Author"
    end in
  let filtered :=
    List.filter (fun t => negb (String.eqb (testimonial_id t) id)) testimonials in
  setTestimonials filtered;;
  logActivity action_delete entity_testimonial id testimonialAuthor None.

Definition deleteJob (id : string) : M unit :=
  jobs ← getJobs;
  let job := List.find (fun j => String.eqb (job_id j) id) jobs in
  let jobTitle :=
    match job with
    | Some j => str_or (job_title j) "Unknown Job"
    | None => "Unknown Job"
    end in
  let filtered := List.filter (fun j => negb (String.eqb (job_id j) id)) jobs in
  setJobs filtered;;
  logActivity action_delete entity_job id jobTitle None.

End Database.

(* ================================================================= *)
(** ** Backup: export, validation, the two imports *)

Record ExportData := {
  export_version : string;
  export_appVersion : string;
  export_backupId : string;
  export_description : option string;
  export_services : list Service;
  export_team : list TeamMember;
  export_testimonials : list Testimonial;
  export_jobs : list Job;
  export_users : list User;
  export_contacts : list Contact;
  export_newsletter : list NewsletterSubscriber;
  export_applications : list JobApplication;
  export_activityLogs : list ActivityLog;
  export_exportedAt : string
}.

(** [Partial<ExportData>]: every property may be absent. *)
Record PartialExportData := {
  data_version : option string;
  data_appVersion : option string;
  data_backupId : option string;
  data_description : option string;
  data_services : option (list Service);
  data_team : option (list TeamMember);
  data_testimonials : option (list Testimonial);
  data_jobs : option (list Job);
  data_users : option (list User);
  data_contacts : option (list Contact);
  data_newsletter : option (list NewsletterSubscriber);
  data_applications : option (list JobApplication);
  data_activityLogs : option (list ActivityLog);
  data_exportedAt : option string
}.

(** An [ExportData] passed where a [Partial<ExportData>] is expected. *)
Definition as_partial (e : ExportData) : PartialExportData :=
  {| data_version := Some (export_version e);
     data_appVersion := Some (export_appVersion e);
     data_backupId := Some (export_backupId e);
     data_description := export_description e;
     data_services := Some (export_services e);
     data_team := Some (export_team e);
     data_testimonials := Some (export_testimonials e);
     data_jobs := Some (export_jobs e);
     data_users := Some (export_users e);
     data_contacts := Some (export_contacts e);
     data_newsletter := Some (export_newsletter e);
     data_applications := Some (export_applications e);
     data_activityLogs := Some (export_activityLogs e);
     data_exportedAt := Some (export_exportedAt e) |}.


(** Records that carry an [id] ([T extends { id: string }]). *)
Class Identified (T : Type) := id_of : T -> string.

#[export] Instance Identified_Service : Identified Service := service_id.
#[export] Instance Identified_TeamMember : Identified TeamMember := member_id.
#[export] Instance Identified_Testimonial : Identified Testimonial := testimonial_id.
#[export] Instance Identified_Job : Identified Job := job_id.
#[export] Instance Identified_User : Identified User := user_id.
#[export] Instance Identified_Contact : Identified Contact := contact_id.
#[export] Instance Identified_JobApplication : Identified JobApplication :=
  application_id.
#[export] Instance Identified_ActivityLog : Identified ActivityLog := log_id.

(** The helper [mergeById] of [importAllMerge]. *)
Definition mergeById {T} `{Identified T} (existing backup : list T) : list T :=
  let map0 := foldl (fun m item => Map_set (id_of item) item m) [] backup in
  let map1 :=
    foldl (fun m item => if Map_has (id_of item) m then m
                         else Map_set (id_of item) item m)
          map0 existing in
  let backupIds := map id_of backup in
  (map (fun item => default item (Map_get (id_of item) map1)) backup
   ++ List.filter (fun item => negb (Set_has (id_of item) backupIds)) existing)%list.

(** The users step of [importAllMerge]: [mergeById], then the password of
    the existing user with the same id is put back when it is not empty. *)
Definition mergeUsers (existing backup : list User) : list User :=
  let existingMap := foldl (fun m u => Map_set (user_id u) u m) [] existing in
  map (fun user =>
         match Map_get (user_id user) existingMap with
         | Some existingUser =>
             if nonempty (user_password existingUser)
             then {| user_id := user_id user; user_email := user_email user;
                     user_name := user_name user;
                     user_password := user_password existingUser;
                     user_createdAt := user_createdAt user;
                     user_isAdmin := user_isAdmin user |}
             else user
         | None => user
         end)
      (mergeById existing backup).

(** Contacts and applications: one [Map] by id, existing entries first. *)
Definition mergeOverride {T} `{Identified T} (existing backup : list T) : list T :=
  let map0 := foldl (fun m item => Map_set (id_of item) item m) [] existing in
  let map1 := foldl (fun m item => Map_set (id_of item) item m) map0 backup in
  Map_values map1.

(** [(sub.email || sub.whatsapp || sub.id).toLowerCase()] *)
Definition subscriber_key (sub : NewsletterSubscriber) : string :=
  toLowerCase
    (str_or (default EmptyString (subscriber_email sub))
       (str_or (default EmptyString (subscriber_whatsapp sub)) (subscriber_id sub))).

(** [new Date(a) > new Date(b)]; false when either date is invalid. *)
Definition later_than (parse : string -> option Z) (a b : string) : bool :=
  match parse a, parse b with
  | Some x, Some y => (y <? x)%Z
  | _, _ => false
  end.

Definition mergeNewsletter (parse : string -> option Z)
    (existing backup : list NewsletterSubscriber) : list NewsletterSubscriber :=
  let map0 := foldl (fun m sub => Map_set (subscriber_key sub) sub m) [] existing in
  let map1 :=
    foldl (fun m sub =>
             match Map_get (subscriber_key sub) m with
             | Some existingSub =>
                 if later_than parse (subscriber_subscribedAt sub)
                      (subscriber_subscribedAt existingSub)
                 then Map_set (subscriber_key sub) sub m
                 else m
             | None => Map_set (subscriber_key sub) sub m
             end)
          map0 backup in
  Map_values map1.

Definition mergeActivityLogs (parse : string -> option Z)
    (existing backup : list ActivityLog) : list ActivityLog :=
  let map0 := foldl (fun m log => Map_set (log_id log) log m) [] existing in
  let map1 :=
    foldl (fun m log =>
             match Map_get (log_id log) m with
             | Some existingLog =>
                 if later_than parse (log_timestamp log) (log_timestamp existingLog)
                 then Map_set (log_id log) log m
                 else m
             | None => Map_set (log_id log) log m
             end)
          map0 backup in
  Map_values map1.

Section Backup.
Context (host : Host).

Definition APP_VERSION : string :=
  str_or (env_NEXT_PUBLIC_APP_VERSION host)
    (str_or (env_npm_package_version host) "0.1.0").

Definition exportAll : M ExportData :=
  now ← Date_now host;
  suffix ← Math_random host;
  services ← getServices host;
  team ← getTeam host;
  testimonials ← getTestimonials host;
  jobs ← getJobs host;
  users ← getUsers host;
  contacts ← getContacts host;
  newsletter ← getNewsletterSubscribers host;
  applications ← getApplications host;
  activityLogs ← getActivityLogs host;
  stamp ← Date_now host;
  mret {| export_version := BACKUP_FORMAT_VERSION;
          export_appVersion := APP_VERSION;
          export_backupId := "backup-" ++ string_of_Z now ++ "-" ++ suffix;
          export_description := None;
          export_services := services;
          export_team := team;
          export_testimonials := testimonials;
          export_jobs := jobs;
          export_users := users;
          export_contacts := contacts;
          export_newsletter := newsletter;
          export_applications := applications;
          export_activityLogs := activityLogs;
          export_exportedAt := toISOString host stamp |}.

(** An array is always truthy, so [if (data.x)] tests presence. *)
Definition importAll (data : PartialExportData) : M unit :=
  match data_services data with
  | Some services => setServices host services
  | None => setServices host []
  end;;
  match data_team data with
  | Some team => setTeam host team
  | None => setTeam host []
  end;;
  match data_testimonials data with
  | Some testimonials => setTestimonials host testimonials
  | None => setTestimonials host []
  end;;
  match data_jobs data with
  | Some jobs => setJobs host jobs
  | None => setJobs host []
  end;;
  match data_users data with
  | Some users => setUsers host users
  | None => setUsers host []
  end;;
  match data_contacts data with
  | Some contacts =>
      setItem host DB_KEYS.CONTACTS contacts;; emit topic_contacts
  | None =>
      setItem host DB_KEYS.CONTACTS ([] : list Contact);; emit topic_contacts
  end;;
  match data_newsletter data with
  | Some newsletter =>
      setItem host DB_KEYS.NEWSLETTER newsletter;; emit topic_newsletter
  | None =>
      setItem host DB_KEYS.NEWSLETTER ([] : list NewsletterSubscriber);;
      emit topic_newsletter
  end;;
  match data_applications data with
  | Some applications =>
      setItem host DB_KEYS.APPLICATIONS applications;; emit topic_applications
  | None =>
      setItem host DB_KEYS.APPLICATIONS ([] : list JobApplication);;
      emit topic_applications
  end;;
  match data_activityLogs data with
  | Some activityLogs =>
      setItem host DB_KEYS.ACTIVITY_LOGS activityLogs;; emit topic_activityLogs
  | None =>
      setItem host DB_KEYS.ACTIVITY_LOGS ([] : list ActivityLog);;
      emit topic_activityLogs
  end;;
  logActivity host action_import entity_backup "restore" "Full Restore" None.

(** [if (data.x) { ... }] *)
Definition when_present {A} (o : option A) (k : A -> M unit) : M unit :=
  match o with
  | Some x => k x
  | None => mret tt
  end.

Definition importAllMerge (data : PartialExportData) : M unit :=
  when_present (data_services data) (fun backup =>
    existing ← getServices host;
    setServices host (mergeById existing backup));;
  when_present (data_team data) (fun backup =>
    existing ← getTeam host;
    setTeam host (mergeById existing backup));;
  when_present (data_testimonials data) (fun backup =>
    existing ← getTestimonials host;
    setTestimonials host (mergeById existing backup));;
  when_present (data_jobs data) (fun backup =>
    existing ← getJobs host;
    setJobs host (mergeById existing backup));;
  when_present (data_users data) (fun backup =>
    existing ← getUsers host;
    setUsers host (mergeUsers existing backup));;
  when_present (data_contacts data) (fun backup =>
    existing ← getContacts host;
    setItem host DB_KEYS.CONTACTS (mergeOverride existing backup);;
    emit topic_contacts);;
  when_present (data_newsletter data) (fun backup =>
    existing ← getNewsletterSubscribers host;
    setItem host DB_KEYS.NEWSLETTER
      (mergeNewsletter (Date_parse host) existing backup);;
    emit topic_newsletter);;
  when_present (data_applications data) (fun backup =>
    existing ← getApplications host;
    setItem host DB_KEYS.APPLICATIONS (mergeOverride existing backup);;
    emit topic_applications);;
  when_present (data_activityLogs data) (fun backup =>
    existing ← getActivityLogs host;
    setItem host DB_KEYS.ACTIVITY_LOGS
      (mergeActivityLogs (Date_parse host) existing backup);;
    emit topic_activityLogs);;
  logActivity host action_import entity_backup "merge" "Merge Restore" None.

(** *** One-time migration from the legacy keys *)

Fixpoint forEach {A} (l : list A) (f : A -> M unit) : M unit :=
  match l with
  | [] => mret tt
  | x :: r => f x;; forEach r f
  end.

(** [newData && newData !== "[]" && newData !== "{}"] *)
Definition holds_data (newData : option StoredText) : bool :=
  match newData with
  | Some t =>
      nonempty (text_of t) && negb (String.eqb (text_of t) "[]")
      && negb (String.eqb (text_of t) "{}")
  | None => false
  end.

Definition migrate_pair (pair : string * string) : M unit :=
  let '(legacy, newKey) := pair in
  try_catch
    (legacyData ← localStorage_getItem legacy;
     if negb (text_truthy legacyData) then mret tt
     else
       newData ← localStorage_getItem newKey;
       if holds_data newData then mret tt
       else
         parsedData ← JSON_parse legacyData;
         localStorage_setItem host newKey (Json parsedData);;
         localStorage_removeItem legacy)
    (fun _ => mret tt).

Definition migrateLegacyKeys : M unit :=
  if negb (window_defined host) then mret tt
  else try_catch (forEach LEGACY_KEY_MAPPINGS migrate_pair) (fun _ => mret tt).

End Backup.

(* ================================================================= *)
(** ** Backup validation *)

Record RecordCounts := {
  count_services : nat;
  count_team : nat;
  count_testimonials : nat;
  count_jobs : nat;
  count_users : nat;
  count_contacts : nat;
  count_newsletter : nat;
  count_applications : nat
}.

Record BackupMetadata := {
  metadata_version : JSValue;
  metadata_appVersion : JSValue;
  metadata_exportedAt : option JSValue;
  metadata_recordCounts : RecordCounts
}.

Record BackupValidationResult := {
  isValid : bool;
  errors : list string;
  warnings : list string;
  metadata : option BackupMetadata
}.

Definition is_digit (c : ascii) : bool :=
  let n := nat_of_ascii c in ((48 <=? n)%nat && (n <=? 57)%nat)%bool.

(** The longest prefix of digits ([\d+], greedy) and what follows it. *)
Fixpoint take_digits (s : string) : string * string :=
  match s with
  | String c r =>
      if is_digit c then
        let '(digits, rest) := take_digits r in (String c digits, rest)
      else (EmptyString, s)
  | EmptyString => (EmptyString, EmptyString)
  end.

(** [parseInt(digits, 10)] on a string of digits.  The code compares the
    result with the components of [1.0.0] only, and a double equals [0] or
    [1] exactly when the integer does. *)
Fixpoint parseInt_from (acc : Z) (digits : string) : Z :=
  match digits with
  | String c r => parseInt_from (acc * 10 + Z.of_nat (nat_of_ascii c - 48)) r
  | EmptyString => acc
  end.

Definition parseInt (digits : string) : Z := parseInt_from 0 digits.

Record Version := { major : Z; minor : Z; patch : Z }.

(** [version.match(/^(\d+)\.(\d+)\.(\d+)/)] and the three [parseInt]s. *)
Definition parseVersion (version : string) : option Version :=
  let '(a, r1) := take_digits version in
  if negb (nonempty a) then None
  else match r1 with
       | String "." r2 =>
           let '(b, r3) := take_digits r2 in
           if negb (nonempty b) then None
           else match r3 with
                | String "." r4 =>
                    let '(c, _) := take_digits r4 in
                    if negb (nonempty c) then None
                    else Some {| major := parseInt a; minor := parseInt b;
                                 patch := parseInt c |}
                | _ => None
                end
       | _ => None
       end.

Definition requiredFields : list string :=
  ["services"; "team"; "testimonials"; "jobs"; "users"; "contacts";
   "newsletter"; "applications"; "exportedAt"].

Definition arrayFields : list string :=
  ["services"; "team"; "testimonials"; "jobs"; "users"; "contacts";
   "newsletter"; "applications"].

(** [field in data] *)
Definition has_key (k : string) (fields : list (string * JSValue)) : bool :=
  match assoc k fields with Some _ => true | None => false end.

Definition missing_errors (fields : list (string * JSValue)) : list string :=
  flat_map (fun field =>
              if has_key field fields then []
              else ["Missing required field: " ++ field])
           requiredFields.

Definition major_mismatch_error (version : string) : string :=
  "Incompatible backup format version: " ++ version ++ " (current: "
    ++ BACKUP_FORMAT_VERSION ++ "). Major version mismatch.".

Definition version_differs_warning (version : string) : string :=
  "Backup version (" ++ version ++ ") differs from current version ("
    ++ BACKUP_FORMAT_VERSION ++ ")".

Definition unparsable_warning (version : string) : string :=
  "Unable to parse version information: " ++ version.

Definition no_version_warning : string :=
  "Backup does not include version information (limited compatibility)".

(** The version check: the errors and the warnings it adds, or [None] when
    [data.version] is truthy and not a string, so that [version.match] is
    not a function and a [TypeError] is thrown. *)
Definition check_version (fields : list (string * JSValue))
  : option (list string * list string) :=
  match assoc "version" fields with
  | Some v =>
      if truthy v then
        match v with
        | JStr version =>
            match parseVersion version, parseVersion BACKUP_FORMAT_VERSION with
            | Some backupVersion, Some currentVersion =>
                if negb (major backupVersion =? major currentVersion)%Z then
                  Some ([major_mismatch_error version], [])
                else if (negb (minor backupVersion =? minor currentVersion)%Z
                         || negb (patch backupVersion =? patch currentVersion)%Z)%bool
                then Some ([], [version_differs_warning version])
                else Some ([], [])
            | _, _ => Some ([], [unparsable_warning version])
            end
        | _ => None
        end
      else Some ([], [no_version_warning])
  | None => Some ([], [no_version_warning])
  end.

Definition type_error (field : string) : string :=
  "Invalid data type for " ++ field ++ ": expected array".

Definition type_errors (fields : list (string * JSValue)) : list string :=
  flat_map (fun field =>
              match assoc field fields with
              | Some v => if (truthy v && negb (isArray v))%bool
                          then [type_error field] else []
              | None => []
              end)
           arrayFields.

Definition structure_error (index : nat) : string :=
  "Invalid service structure at index " ++ string_of_nat index.

(** [data.services.forEach((item, index) => ...)]: [None] when an item is
    [null], whose property access throws a [TypeError]. *)
Fixpoint check_services (index : nat) (items : list JSValue) : option (list string) :=
  match items with
  | [] => Some []
  | item :: rest =>
      match item with
      | JNull => None
      | _ =>
          let here :=
            if (negb (truthy_opt (prop "id" item))
                || negb (truthy_opt (prop "title" item)))%bool
            then [structure_error index] else [] in
          match check_services (S index) rest with
          | Some more => Some (here ++ more)%list
          | None => None
          end
      end
  end.

Definition structure_errors (fields : list (string * JSValue)) : option (list string) :=
  match assoc "services" fields with
  | Some (JArr items) => check_services 0 items
  | _ => Some []
  end.

(** [Array.isArray(data.k) ? data.k.length : 0] *)
Definition array_length (k : string) (fields : list (string * JSValue)) : nat :=
  match assoc k fields with
  | Some (JArr items) => length items
  | _ => 0%nat
  end.

(** [data.k || "unknown"] *)
Definition or_unknown (k : string) (fields : list (string * JSValue)) : JSValue :=
  match assoc k fields with
  | Some v => if truthy v then v else JStr "unknown"
  | None => JStr "unknown"
  end.

Definition invalid_format : BackupValidationResult :=
  {| isValid := false; errors := ["Invalid backup file format"];
     warnings := []; metadata := None |}.

(** The body of the [try] block for an object; [None] when it throws. *)
Definition validate_object (fields : list (string * JSValue))
  : option BackupValidationResult :=
  let missing := missing_errors fields in
  match check_version fields with
  | None => None
  | Some (versionErrors, warnings) =>
      let typeErrors := type_errors fields in
      match structure_errors fields with
      | None => None
      | Some structureErrors =>
          let errors :=
            (missing ++ versionErrors ++ typeErrors ++ structureErrors)%list in
          let recordCounts :=
            {| count_services := array_length "services" fields;
               count_team := array_length "team" fields;
               count_testimonials := array_length "testimonials" fields;
               count_jobs := array_length "jobs" fields;
               count_users := array_length "users" fields;
               count_contacts := array_length "contacts" fields;
               count_newsletter := array_length "newsletter" fields;
               count_applications := array_length "applications" fields |} in
          if (0 <? length errors)%nat then
            Some {| isValid := false; errors := errors; warnings := warnings;
                    metadata := None |}
          else
            Some {| isValid := true; errors := []; warnings := warnings;
                    metadata :=
                      Some {| metadata_version := or_unknown "version" fields;
                              metadata_appVersion := or_unknown "appVersion" fields;
                              metadata_exportedAt := assoc "exportedAt" fields;
                              metadata_recordCounts := recordCounts |} |}
      end
  end.

Definition validateBackupFile (data : JSValue) : BackupValidationResult :=
  match data with
  | JObj fields =>
      match validate_object fields with
      | Some r => r
      | None => invalid_format
      end
  | _ => invalid_format
  end.

(* ================================================================= *)
(** ** A concrete host

    The theorems below hold for every [Host].  The examples run the store
    on this one: dates in the format [toISOString] writes, a clock that
    stands still, and a [localStorage] that is either unlimited or refuses,
    with a [QuotaExceededError], a write that would bring the stored
    characters above a capacity. *)

Module ISO.

(** Days since 1970-01-01 of a date of the proleptic Gregorian calendar. *)
Definition days_from_civil (y m d : Z) : Z :=
  let y' := if (m <=? 2)%Z then y - 1 else y in
  let era := y' / 400 in
  let yoe := y' - era * 400 in
  let doy := (153 * (if (2 <? m)%Z then m - 3 else m + 9) + 2) / 5 + d - 1 in
  let doe := yoe * 365 + yoe / 4 - yoe / 100 + doy in
  era * 146097 + doe - 719468.

Definition civil_from_days (z : Z) : Z * Z * Z :=
  let z := z + 719468 in
  let era := z / 146097 in
  let doe := z - era * 146097 in
  let yoe := (doe - doe / 1460 + doe / 36524 - doe / 146096) / 365 in
  let doy := doe - (365 * yoe + yoe / 4 - yoe / 100) in
  let mp := (5 * doy + 2) / 153 in
  let d := doy - (153 * mp + 2) / 5 + 1 in
  let m := if (mp <? 10)%Z then mp + 3 else mp - 9 in
  let y := yoe + era * 400 in
  ((if (m <=? 2)%Z then y + 1 else y), m, d).

Fixpoint pad (fuel width : nat) (s : string) : string :=
  match fuel with
  | O => s
  | S k => if (String.length s <? width)%nat then pad k width ("0" ++ s) else s
  end.

Definition digits (width : nat) (z : Z) : string :=
  pad width width (string_of_Z z).

Definition toISOString (ms : Z) : string :=
  let day := ms / 86400000 in
  let rest := ms mod 86400000 in
  let '(y, m, d) := civil_from_days day in
  digits 4 y ++ "-" ++ digits 2 m ++ "-" ++ digits 2 d ++ "T"
    ++ digits 2 (rest / 3600000) ++ ":" ++ digits 2 (rest / 60000 mod 60) ++ ":"
    ++ digits 2 (rest / 1000 mod 60) ++ "." ++ digits 3 (rest mod 1000) ++ "Z".

Fixpoint number (width : nat) (acc : Z) (s : string) : option (Z * string) :=
  match width with
  | O => Some (acc, s)
  | S k =>
      match s with
      | String c r =>
          if is_digit c
          then number k (acc * 10 + Z.of_nat (nat_of_ascii c - 48)) r
          else None
      | EmptyString => None
      end
  end.

Definition expect (c : ascii) (s : string) : option string :=
  match s with
  | String c' r => if Ascii.eqb c c' then Some r else None
  | EmptyString => None
  end.

(** The format [toISOString] writes: [YYYY-MM-DDTHH:mm:ss.sssZ]. *)
Definition parse (s : string) : option Z :=
  '(y, s) ← number 4 0 s; s ← expect "-" s;
  '(m, s) ← number 2 0 s; s ← expect "-" s;
  '(d, s) ← number 2 0 s; s ← expect "T" s;
  '(h, s) ← number 2 0 s; s ← expect ":" s;
  '(mi, s) ← number 2 0 s; s ← expect ":" s;
  '(sec, s) ← number 2 0 s; s ← expect "." s;
  '(ms, s) ← number 3 0 s; s ← expect "Z" s;
  if (String.eqb s EmptyString
      && (1 <=? m)%Z && (m <=? 12)%Z && (1 <=? d)%Z && (d <=? 31)%Z
      && (h <? 24)%Z && (mi <? 60)%Z && (sec <? 60)%Z)%bool
  then Some (days_from_civil y m d * 86400000 + h * 3600000 + mi * 60000
             + sec * 1000 + ms)
  else None.

End ISO.

Definition quotaExceeded : DOMException :=
  {| error_name := "QuotaExceededError"; error_code := Some 22 |}.

(** The characters a store holds, keys and values. *)
Definition stored_characters (ls : gmap string StoredText) : Z :=
  map_fold (fun key value total => total + strlen key + text_length value) 0 ls.

Definition unlimited (ls : gmap string StoredText) (key : string) (text : StoredText)
  : option DOMException := None.

Definition limited (capacity : Z) (ls : gmap string StoredText) (key : string)
    (text : StoredText) : option DOMException :=
  if (capacity <? stored_characters (<[key := text]> ls))%Z then Some quotaExceeded
  else None.

(** 2026-01-01T00:00:00.000Z *)
Definition new_year_2026 : Z := 1767225600000.

Definition day_ms : Z := 24 * 60 * 60 * 1000.

Definition browser (accept : gmap string StoredText -> string -> StoredText ->
                             option DOMException) (now : Z) : Host :=
  {| window_defined := true;
     host_setItem := accept;
     timeAt := fun _ => now;
     randomAt := fun _ => "k3v9x2m1q";
     Date_parse := ISO.parse;
     toISOString := ISO.toISOString;
     env_NEXT_PUBLIC_APP_VERSION := EmptyString;
     env_npm_package_version := EmptyString |}.

(* ================================================================= *)
(** ** Reasoning about computations *)

#[global] Arguments toJSON : simpl never.
#[global] Arguments ofJSON : simpl never.

(** [wp m w Q]: running [m] from [w] ends, with a value or an exception,
    in a state that satisfies [Q]. *)
Definition wp {A} (m : M A) (w : World) (Q : Result A -> World -> Prop) : Prop :=
  Q (fst (m w)) (snd (m w)).

Lemma wp_run {A} (m : M A) w Q r w' : m w = (r, w') -> Q r w' -> wp m w Q.
Proof. unfold wp. now intros ->. Qed.

Lemma wp_ret {A} (a : A) w Q : Q (Ok a) w -> wp (mret a) w Q.
Proof. exact (fun H => H). Qed.

Lemma wp_throw {A} (e : Exn) w (Q : Result A -> World -> Prop) :
  Q (Throw e) w -> wp (throw e) w Q.
Proof. exact (fun H => H). Qed.

Lemma wp_bind {A B} (m : M A) (f : A -> M B) w Q :
  wp m w (fun r w' => match r with
                      | Ok a => wp (f a) w' Q
                      | Throw e => Q (Throw e) w'
                      end) ->
  wp (m ≫= f) w Q.
Proof.
  unfold wp, mbind, M_bind. destruct (m w) as [[a|e] w']; simpl; auto.
Qed.

Lemma wp_try_catch {A} (m : M A) (h : Exn -> M A) w Q :
  wp m w (fun r w' => match r with
                      | Ok a => Q (Ok a) w'
                      | Throw e => wp (h e) w' Q
                      end) ->
  wp (try_catch m h) w Q.
Proof.
  unfold wp, try_catch. destruct (m w) as [[a|e] w']; simpl; auto.
Qed.

Lemma wp_gets {A} (f : World -> A) w Q : Q (Ok (f w)) w -> wp (gets f) w Q.
Proof. exact (fun H => H). Qed.

Lemma wp_modify (f : World -> World) w Q : Q (Ok tt) (f w) -> wp (modify f) w Q.
Proof. exact (fun H => H). Qed.

Lemma wp_mono {A} (m : M A) w (P Q : Result A -> World -> Prop) :
  wp m w P -> (forall r w', P r w' -> Q r w') -> wp m w Q.
Proof. unfold wp. auto. Qed.

Lemma wp_elim {A} (m : M A) w Q : wp m w Q -> Q (result m w) (exec m w).
Proof. exact (fun H => H). Qed.

(** The topics other than the capacity warning, which [setItem] may emit
    before any write. *)
Definition is_warning (t : DatabaseEventType) : bool :=
  match t with topic_storageWarning => true | _ => false end.

Definition visible (l : list DatabaseEventType) : list DatabaseEventType :=
  List.filter (fun t => negb (is_warning t)) l.

Lemma visible_app l1 l2 : visible (l1 ++ l2) = (visible l1 ++ visible l2)%list.
Proof. apply List.filter_app. Qed.

(** Nothing observable happened between [w] and [w']: the clock was read
    and the size cache refreshed at most. *)
Definition unchanged (w w' : World) : Prop :=
  localStorage w' = localStorage w /\ emitted w' = emitted w
  /\ dispatched w' = dispatched w.

Lemma unchanged_refl w : unchanged w w.
Proof. now repeat split. Qed.

Lemma unchanged_trans w1 w2 w3 : unchanged w1 w2 -> unchanged w2 w3 -> unchanged w1 w3.
Proof. unfold unchanged. intros (?&?&?) (?&?&?). repeat split; congruence. Qed.

(** The keys outside [keys] hold what they held. *)
Definition touches_only (keys : list string) (w w' : World) : Prop :=
  forall k, ~ In k keys -> localStorage w' !! k = localStorage w !! k.

Lemma touches_only_refl keys w : touches_only keys w w.
Proof. now intros k _. Qed.

Lemma touches_only_trans keys w1 w2 w3 :
  touches_only keys w1 w2 -> touches_only keys w2 w3 -> touches_only keys w1 w3.
Proof. intros H12 H23 k Hk. now rewrite H23, H12. Qed.

Lemma touches_only_incl keys keys' w w' :
  incl keys keys' -> touches_only keys w w' -> touches_only keys' w w'.
Proof. intros Hi H k Hk. apply H. intros Hin. apply Hk, Hi, Hin. Qed.

Lemma unchanged_touches keys w w' : unchanged w w' -> touches_only keys w w'.
Proof. intros (H&_) k _. now rewrite H. Qed.

Ltac wp_step :=
  cbv beta iota;
  lazymatch goal with
  | |- wp (mret _) _ _ => apply wp_ret
  | |- wp (throw _) _ _ => apply wp_throw
  | |- wp (_ ≫= _) _ _ => apply wp_bind
  | |- wp (try_catch _ _) _ _ => apply wp_try_catch
  | |- wp (gets _) _ _ => apply wp_gets
  | |- wp (modify _) _ _ => apply wp_modify
  end.

Section DatabaseFacts.
Context (host : Host).

Lemma wp_Date_now w Q :
  Q (Ok (timeAt host (reads w))) (with_reads (S (reads w)) w) ->
  wp (Date_now host) w Q.
Proof. exact (fun H => H). Qed.

Lemma wp_Math_random w Q :
  Q (Ok (randomAt host (reads w))) (with_reads (S (reads w)) w) ->
  wp (Math_random host) w Q.
Proof. exact (fun H => H). Qed.

Lemma wp_emit t w Q :
  Q (Ok tt) (with_emitted (emitted w ++ [t]) w) -> wp (emit t) w Q.
Proof. exact (fun H => H). Qed.

(** What a read of [key] at type [T] returns in a browser. *)
Definition stored {T} `{JSONData T} (key : string) (defaultValue : T)
    (ls : gmap string StoredText) : T :=
  match ls !! key with
  | Some (Json d) => default defaultValue (ofJSON d)
  | _ => defaultValue
  end.

Lemma getItem_browser {T} `{JSONData T} key (defaultValue : T) w :
  window_defined host = true ->
  getItem host key defaultValue w = (Ok (stored key defaultValue (localStorage w)), w).
Proof.
  intros Hw. unfold getItem, stored. rewrite Hw. simpl.
  unfold try_catch, mbind, M_bind, localStorage_getItem, gets.
  destruct (localStorage w !! key) as [[d|s]|]; simpl; try reflexivity.
  - destruct (ofJSON d); reflexivity.
  - destruct (nonempty s); reflexivity.
Qed.

Lemma wp_getItem {T} `{JSONData T} key (defaultValue : T) w Q :
  window_defined host = true ->
  Q (Ok (stored key defaultValue (localStorage w))) w ->
  wp (getItem host key defaultValue) w Q.
Proof. intros Hw HQ. eapply wp_run; [now apply getItem_browser|exact HQ]. Qed.

Lemma stored_insert {T} `{JSONData T} key (defaultValue x : T) ls :
  stored key defaultValue (<[key := Json (toJSON x)]> ls) = x.
Proof. unfold stored. now rewrite lookup_insert_eq, ofJSON_toJSON. Qed.

Lemma stored_insert_ne {T} `{JSONData T} key key' (defaultValue : T) t ls :
  key' <> key ->
  stored key defaultValue (<[key' := t]> ls) = stored key defaultValue ls.
Proof. intros Hne. unfold stored. now rewrite lookup_insert_ne. Qed.

Lemma stored_ext {T} `{JSONData T} key (defaultValue : T) ls ls' :
  ls' !! key = ls !! key -> stored key defaultValue ls' = stored key defaultValue ls.
Proof. unfold stored. now intros ->. Qed.

Lemma wp_getStorageSize w Q :
  (forall n w', unchanged w w' -> Q (Ok n) w') -> wp (getStorageSize host) w Q.
Proof.
  intros HQ. unfold getStorageSize.
  destruct (window_defined host); simpl.
  2:{ wp_step. apply HQ, unchanged_refl. }
  wp_step. apply wp_Date_now. do 2 (wp_step; wp_step).
  simpl. destruct (_ && _)%bool.
  - wp_step. apply HQ. now repeat split.
  - do 2 wp_step. wp_step. wp_step. wp_step. simpl. wp_step.
    apply HQ. now repeat split.
Qed.

Lemma wp_getStorageUsagePercentage w Q :
  (forall n w', unchanged w w' -> Q (Ok n) w') ->
  wp (getStorageUsagePercentage host) w Q.
Proof.
  intros HQ. unfold getStorageUsagePercentage.
  do 2 wp_step. apply wp_getStorageSize. intros n w' Hu.
  wp_step. now apply HQ.
Qed.

Lemma wp_isStorageNearCapacity w Q :
  (forall b w', unchanged w w' -> Q (Ok b) w') ->
  wp (isStorageNearCapacity host) w Q.
Proof.
  intros HQ. unfold isStorageNearCapacity.
  do 2 wp_step. apply wp_getStorageUsagePercentage. intros n w' Hu.
  wp_step. now apply HQ.
Qed.

Lemma wp_getItem_any {T} `{JSONData T} key (defaultValue : T) w Q :
  (forall x, Q (Ok x) w) -> wp (getItem host key defaultValue) w Q.
Proof.
  intros HQ. destruct (window_defined host) eqn:Hw.
  - now apply wp_getItem.
  - unfold getItem. rewrite Hw. simpl. wp_step. apply HQ.
Qed.

Lemma wp_localStorage_setItem key text w Q :
  (host_setItem host (localStorage w) key text = None ->
   Q (Ok tt) (with_localStorage (<[key := text]> (localStorage w)) w)) ->
  (forall e, host_setItem host (localStorage w) key text = Some e ->
             Q (Throw (HostError e)) w) ->
  wp (localStorage_setItem host key text) w Q.
Proof.
  intros Hok Herr. unfold wp, localStorage_setItem.
  destruct (host_setItem host (localStorage w) key text); simpl; auto.
Qed.

(** The collections the eviction policy may truncate. *)
Definition evictable : list string :=
  [DB_KEYS.CONTACTS; DB_KEYS.NEWSLETTER; DB_KEYS.APPLICATIONS].

Lemma touches_only_insert keys key text w w' :
  In key keys ->
  touches_only keys w w' ->
  touches_only keys w (with_localStorage (<[key := text]> (localStorage w')) w').
Proof.
  intros Hin Ht k Hk. simpl. rewrite lookup_insert_ne; [now apply Ht|].
  intros ->. now apply Hk.
Qed.

(** One guarded write of the eviction: it never throws and touches its
    own key at most. *)
Lemma wp_evict_write keys key text topic w0 w Q :
  In key keys ->
  touches_only keys w0 w ->
  dispatched w = dispatched w0 ->
  (forall w', touches_only keys w0 w' -> dispatched w' = dispatched w0 ->
              Q (Ok tt) w') ->
  wp (try_catch (localStorage_setItem host key text;; emit topic)
                (fun _ => mret tt)) w Q.
Proof.
  intros Hin Ht Hd HQ. wp_step. wp_step. apply wp_localStorage_setItem.
  - intros _. apply wp_emit. apply HQ; [|exact Hd].
    intros k Hk. simpl. rewrite lookup_insert_ne; [now apply Ht|].
    intros ->. now apply Hk.
  - intros e _. wp_step. now apply HQ.
Qed.

(** [cleanupOldData] never throws, whatever the host does; it touches
    the three submission collections at most and dispatches nothing. *)
Lemma wp_cleanupOldData bytesNeeded w Q :
  (forall b w', touches_only evictable w w' -> dispatched w' = dispatched w ->
                Q (Ok b) w') ->
  wp (cleanupOldData host bytesNeeded) w Q.
Proof.
  intros HQ. unfold cleanupOldData.
  do 2 wp_step. apply wp_getStorageSize. intros sizeBefore w1 (Hl1&He1&Hd1).
  assert (Ht1 : touches_only evictable w w1) by (intros k _; now rewrite Hl1).
  wp_step. apply wp_getItem_any. intros contacts.
  wp_step. apply wp_getItem_any. intros subscribers.
  wp_step. apply wp_getItem_any. intros applications.
  cbv zeta. wp_step.
  destruct (window_defined host).
  - wp_step. eapply wp_evict_write; [| exact Ht1 | exact Hd1 |].
    { simpl; auto. }
    intros w2 Ht2 Hd2. wp_step.
    eapply wp_evict_write; [| exact Ht2 | exact Hd2 |].
    { simpl; auto. }
    intros w3 Ht3 Hd3.
    eapply wp_evict_write; [| exact Ht3 | exact Hd3 |].
    { simpl; auto. }
    intros w4 Ht4 Hd4. wp_step.
    apply wp_getStorageSize. intros sizeAfter w5 (Hl5&_&Hd5).
    wp_step. apply HQ; [|congruence].
    intros k Hk. rewrite Hl5. now apply Ht4.
  - wp_step. wp_step.
    apply wp_getStorageSize. intros sizeAfter w5 (Hl5&_&Hd5).
    wp_step. apply HQ; [|congruence].
    intros k Hk. rewrite Hl5. now apply Ht1.
Qed.

(** The check [setItem] makes before it writes: a warning at most. *)
Lemma wp_setItem_warning (now lastWarning : Z) (nearCapacity : bool) w Q :
  (forall w', localStorage w' = localStorage w ->
              visible (emitted w') = visible (emitted w) ->
              dispatched w' = dispatched w -> Q (Ok tt) w') ->
  wp (if (nearCapacity && (WARNING_COOLDOWN <? now - lastWarning)%Z)%bool
      then emit topic_storageWarning;; modify (with_lastWarningTime now)
      else mret tt) w Q.
Proof.
  intros HQ. destruct (_ && _)%bool.
  - wp_step. apply wp_emit. wp_step. apply HQ; simpl; try reflexivity.
    rewrite visible_app. simpl. now rewrite app_nil_r.
  - wp_step. now apply HQ.
Qed.

(** A write the host accepts. *)
Lemma wp_setItem_accepted {T} `{JSONData T} key (value : T) w Q :
  window_defined host = true ->
  host_setItem host (localStorage w) key (Json (toJSON value)) = None ->
  (forall w', localStorage w' = <[key := Json (toJSON value)]> (localStorage w) ->
              visible (emitted w') = visible (emitted w) ->
              dispatched w' = dispatched w -> Q (Ok tt) w') ->
  wp (setItem host key value) w Q.
Proof.
  intros Hw Hacc HQ. unfold setItem. rewrite Hw. simpl.
  wp_step. apply wp_Date_now.
  wp_step. apply wp_isStorageNearCapacity. intros b w1 (Hl1&He1&Hd1).
  simpl in Hl1, He1, Hd1.
  wp_step. wp_step. wp_step.
  apply wp_setItem_warning. intros w2 Hl2 He2 Hd2.
  wp_step. apply wp_localStorage_setItem.
  - intros _. apply HQ; simpl; congruence.
  - intros e He. rewrite Hl2, Hl1 in He. congruence.
Qed.

(** Any write: whatever the host answers, [setItem] touches its own key
    and the evictable collections at most. *)
Lemma wp_setItem_any {T} `{JSONData T} key (value : T) w Q :
  (forall r w', touches_only (key :: evictable) w w' -> Q r w') ->
  wp (setItem host key value) w Q.
Proof.
  intros HQ. unfold setItem. destruct (window_defined host) eqn:Hw; simpl.
  2:{ wp_step. apply HQ, touches_only_refl. }
  wp_step. apply wp_Date_now.
  wp_step. apply wp_isStorageNearCapacity. intros b w1 (Hl1&He1&Hd1).
  simpl in Hl1, He1, Hd1.
  wp_step. wp_step. wp_step.
  apply wp_setItem_warning. intros w2 Hl2 He2 Hd2.
  assert (Ht2 : touches_only (key :: evictable) w w2).
  { intros k _. now rewrite Hl2, Hl1. }
  wp_step. apply wp_localStorage_setItem.
  - intros _. apply HQ. apply touches_only_insert; [now left|exact Ht2].
  - intros e He. destruct (isQuotaError (HostError e)).
    2:{ wp_step. now apply HQ. }
    cbv zeta. wp_step. apply wp_cleanupOldData. intros ok w3 Ht3 Hd3.
    assert (Ht3' : touches_only (key :: evictable) w w3).
    { eapply touches_only_trans; [exact Ht2|].
      eapply touches_only_incl; [|exact Ht3]. intros k Hk. now right. }
    wp_step.
    assert (Hfail : wp (storageSize ← getStorageSize host;
                        storagePercentage ← getStorageUsagePercentage host;
                        (if true then
                           dispatchQuotaError
                             {| usagePercentage := storagePercentage;
                                usageBytes := storageSize;
                                quotaBytes := 5 * 1024 * 1024 |}
                         else mret tt);;
                        throw
                          (StorageQuotaError
                             "Failed to save data even after cleanup. Please export your data and clear old entries."
                             {| usagePercentage := storagePercentage;
                                usageBytes := storageSize;
                                quotaBytes := 5 * 1024 * 1024 |}))
                       w3 Q).
    { wp_step. apply wp_getStorageSize. intros n w4 (Hl4&_&_).
      wp_step. apply wp_getStorageUsagePercentage. intros p w5 (Hl5&_&_).
      wp_step. unfold dispatchQuotaError. wp_step. wp_step.
      apply HQ. intros k Hk. simpl. rewrite Hl5, Hl4. now apply Ht3'. }
    destruct ok.
    + wp_step. wp_step. apply wp_localStorage_setItem.
      * intros _. wp_step. wp_step.
        apply HQ. apply touches_only_insert; [now left|exact Ht3'].
      * intros e' _. wp_step. exact Hfail.
    + wp_step. exact Hfail.
Qed.

(** *** The activity log under any host *)

Definition log_keys : list string := DB_KEYS.ACTIVITY_LOGS :: evictable.

Lemma wp_cleanupOldActivityLogs_any daysToKeep w Q :
  (forall n w', touches_only log_keys w w' -> Q (Ok n) w') ->
  wp (cleanupOldActivityLogs host daysToKeep) w Q.
Proof.
  intros HQ. unfold cleanupOldActivityLogs.
  do 2 wp_step. apply wp_getItem_any. intros logs.
  wp_step. apply wp_Date_now. cbv zeta.
  destruct (_ <? _)%nat.
  - wp_step. apply wp_setItem_any. intros [[]|e] w1 Ht1.
    + wp_step. apply wp_emit. wp_step.
      apply HQ. intros k Hk. simpl. now apply Ht1.
    + wp_step. apply HQ. intros k Hk. now apply Ht1.
  - wp_step. apply HQ. now intros k _.
Qed.

Lemma wp_addActivityLog_any log w Q :
  (forall w', touches_only log_keys w w' -> Q (Ok tt) w') ->
  wp (addActivityLog host log) w Q.
Proof.
  intros HQ. unfold addActivityLog.
  do 2 wp_step. apply wp_getItem_any. intros logs.
  wp_step. apply wp_Date_now. wp_step. apply wp_Math_random.
  wp_step. apply wp_Date_now. cbv zeta.
  wp_step. apply wp_setItem_any. intros [[]|e] w1 Ht1.
  - wp_step. apply wp_emit. wp_step.
    apply wp_cleanupOldActivityLogs_any. intros n w2 Ht2.
    wp_step. apply HQ. intros k Hk. rewrite Ht2 by exact Hk. simpl.
    now apply Ht1.
  - wp_step. apply HQ. intros k Hk. now apply Ht1.
Qed.

(** [getCurrentUser] reads the store and changes nothing. *)
Lemma wp_getCurrentUser w Q :
  (forall user, Q (Ok user) w) -> wp (getCurrentUser host) w Q.
Proof.
  intros HQ. unfold getCurrentUser. do 2 wp_step.
  destruct (window_defined host).
  2:{ wp_step. wp_step. apply HQ. }
  wp_step. wp_step. unfold localStorage_getItem. wp_step.
  destruct (text_truthy _).
  2:{ wp_step. apply HQ. }
  wp_step. unfold JSON_parse.
  destruct (localStorage w !! "edgemakers_user") as [[d|s]|].
  2,3: wp_step; wp_step; apply HQ.
  wp_step.
  destruct d; try (wp_step; wp_step; apply HQ);
    repeat (match goal with
            | |- wp (if ?c then _ else _) _ _ => destruct c
            end); wp_step; apply HQ.
Qed.

(** [logActivity] never throws, whatever the host does, and touches the
    activity log and the evictable collections at most. *)
Lemma wp_logActivity_any action entityType entityId entityName details w Q :
  (forall w', touches_only log_keys w w' -> Q (Ok tt) w') ->
  wp (logActivity host action entityType entityId entityName details) w Q.
Proof.
  intros HQ. unfold logActivity.
  do 2 wp_step. apply wp_getCurrentUser. intros user.
  apply wp_addActivityLog_any. exact HQ.
Qed.

(** *** The activity log when the host accepts the writes *)

Definition accepts_all : Prop :=
  forall ls key text, host_setItem host ls key text = None.

(** The stored activity log. *)
Definition activity_logs (w : World) : list ActivityLog :=
  stored DB_KEYS.ACTIVITY_LOGS [] (localStorage w).

(** What the retention sweep keeps. *)
Definition swept (cutoffDate : Z) (logs : list ActivityLog) : list ActivityLog :=
  List.filter (not_before host cutoffDate) logs.

Lemma filter_all {A} (f : A -> bool) (l : list A) :
  (length l <= length (List.filter f l))%nat -> List.filter f l = l.
Proof.
  induction l as [|x l IH]; simpl; [reflexivity|].
  destruct (f x); simpl; intros Hlen.
  - f_equal. apply IH. lia.
  - pose proof (List.filter_length_le f l). lia.
Qed.

Lemma wp_cleanupOldActivityLogs_accepted daysToKeep w Q :
  window_defined host = true ->
  let logs := activity_logs w in
  let filteredLogs :=
    swept (timeAt host (reads w) - daysToKeep * 24 * 60 * 60 * 1000) logs in
  host_setItem host (localStorage w) DB_KEYS.ACTIVITY_LOGS
    (Json (toJSON filteredLogs)) = None ->
  ((length filteredLogs < length logs)%nat ->
   forall w',
     localStorage w'
     = <[DB_KEYS.ACTIVITY_LOGS := Json (toJSON filteredLogs)]> (localStorage w) ->
     visible (emitted w') = (visible (emitted w) ++ [topic_activityLogs])%list ->
     dispatched w' = dispatched w ->
     Q (Ok (Z.of_nat (length logs - length filteredLogs))) w') ->
  (filteredLogs = logs -> Q (Ok 0) (with_reads (S (reads w)) w)) ->
  wp (cleanupOldActivityLogs host daysToKeep) w Q.
Proof.
  intros Hw logs filteredLogs Hacc Hless Hsame. unfold cleanupOldActivityLogs.
  do 2 wp_step. apply wp_getItem; [exact Hw|].
  wp_step. apply wp_Date_now. cbv zeta.
  fold (activity_logs w). fold logs.
  change (List.filter _ logs) with filteredLogs.
  destruct (Nat.ltb_spec (length filteredLogs) (length logs)) as [Hlt|Hge].
  - wp_step. apply wp_setItem_accepted; [exact Hw|exact Hacc|].
    intros w1 Hl1 He1 Hd1. wp_step. apply wp_emit. wp_step.
    apply Hless; simpl; try assumption.
    rewrite visible_app, He1. reflexivity.
  - wp_step. apply Hsame. now apply filter_all.
Qed.

(** The entry [addActivityLog] writes for [log]. *)
Definition logged (log : ActivityLogInput) (entry : ActivityLog) : Prop :=
  log_action entry = input_action log
  /\ log_entityType entry = input_entityType log
  /\ log_entityId entry = input_entityId log
  /\ log_entityName entry = input_entityName log
  /\ log_user entry = input_user log
  /\ log_details entry = input_details log
  /\ log_metadata entry = input_metadata log
  /\ exists a, log_timestamp entry = toISOString host (timeAt host a).

(** The cutoff of a default sweep: thirty days before a reading of the
    clock. *)
Definition default_cutoff (cutoffDate : Z) : Prop :=
  exists b, cutoffDate = timeAt host b - 30 * 24 * 60 * 60 * 1000.

Lemma wp_addActivityLog_accepted log w Q :
  window_defined host = true ->
  accepts_all ->
  (forall w' entry cutoffDate topics,
     logged log entry ->
     default_cutoff cutoffDate ->
     localStorage w'
     = <[DB_KEYS.ACTIVITY_LOGS :=
           Json (toJSON (swept cutoffDate (activity_logs w ++ [entry])))]>
         (localStorage w) ->
     visible (emitted w')
     = (visible (emitted w) ++ topic_activityLogs :: topics)%list ->
     Forall (eq topic_activityLogs) topics ->
     dispatched w' = dispatched w ->
     Q (Ok tt) w') ->
  wp (addActivityLog host log) w Q.
Proof.
  intros Hw Hacc HQ. unfold addActivityLog.
  do 2 wp_step. apply wp_getItem; [exact Hw|]. fold (activity_logs w).
  wp_step. apply wp_Date_now. wp_step. apply wp_Math_random.
  wp_step. apply wp_Date_now. cbv zeta.
  set (entry := {| log_id := _ |}).
  assert (Hentry : logged log entry).
  { repeat split; try reflexivity. now eexists. }
  wp_step. apply wp_setItem_accepted; [exact Hw|apply Hacc|].
  intros w1 Hl1 He1 Hd1. simpl in Hl1, He1, Hd1.
  wp_step. apply wp_emit. wp_step.
  set (w2 := with_emitted _ w1).
  assert (Hlogs2 : activity_logs w2 = (activity_logs w ++ [entry])%list).
  { unfold activity_logs, w2. simpl. rewrite Hl1. apply stored_insert. }
  apply wp_cleanupOldActivityLogs_accepted; [exact Hw|apply Hacc| |].
  - rewrite Hlogs2. intros _ w3 Hl3 He3 Hd3. wp_step.
    eapply (HQ w3 entry _ [topic_activityLogs]); [exact Hentry|now eexists| | | |].
    + rewrite Hl3. unfold w2. simpl. rewrite Hl1.
      now rewrite insert_insert_eq.
    + rewrite He3. unfold w2. simpl. rewrite visible_app, He1. simpl.
      now rewrite <- app_assoc.
    + now repeat constructor.
    + rewrite Hd3. unfold w2. simpl. exact Hd1.
  - rewrite Hlogs2. intros Hsame. wp_step.
    eapply (HQ _ entry _ []); [exact Hentry|now eexists| | | |].
    + simpl. rewrite Hl1. rewrite Hsame. reflexivity.
    + simpl. rewrite visible_app, He1. reflexivity.
    + constructor.
    + simpl. exact Hd1.
Qed.

Lemma wp_logActivity_accepted action entityType entityId entityName details w Q :
  window_defined host = true ->
  accepts_all ->
  (forall w' entry cutoffDate topics user,
     logged {| input_action := action; input_entityType := entityType;
               input_entityId := entityId; input_entityName := entityName;
               input_user := user; input_details := details;
               input_metadata := None |} entry ->
     default_cutoff cutoffDate ->
     localStorage w'
     = <[DB_KEYS.ACTIVITY_LOGS :=
           Json (toJSON (swept cutoffDate (activity_logs w ++ [entry])))]>
         (localStorage w) ->
     visible (emitted w')
     = (visible (emitted w) ++ topic_activityLogs :: topics)%list ->
     Forall (eq topic_activityLogs) topics ->
     dispatched w' = dispatched w ->
     Q (Ok tt) w') ->
  wp (logActivity host action entityType entityId entityName details) w Q.
Proof.
  intros Hw Hacc HQ. unfold logActivity.
  do 2 wp_step. apply wp_getCurrentUser. intros user.
  apply wp_addActivityLog_accepted; [exact Hw|exact Hacc|].
  intros w' entry cutoffDate topics. apply HQ.
Qed.

End DatabaseFacts.

(* ================================================================= *)
(** ** Deleting a record that is not there *)

Lemma filter_id_absent {A} (key : A -> string) (id : string) (l : list A) :
  ~ In id (map key l) ->
  List.filter (fun x => negb (String.eqb (key x) id)) l = l.
Proof.
  induction l as [|x l IH]; simpl; [reflexivity|]. intros Hnot.
  destruct (String.eqb_spec (key x) id) as [Heq|Hne]; simpl.
  - exfalso. apply Hnot. now left.
  - f_equal. apply IH. intros Hin. apply Hnot. now right.
Qed.

Lemma find_id_absent {A} (key : A -> string) (id : string) (l : list A) :
  ~ In id (map key l) ->
  List.find (fun x => String.eqb (key x) id) l = None.
Proof.
  induction l as [|x l IH]; simpl; [reflexivity|]. intros Hnot.
  destruct (String.eqb_spec (key x) id) as [Heq|Hne].
  - exfalso. apply Hnot. now left.
  - apply IH. intros Hin. apply Hnot. now right.
Qed.

Section Deleting.
Context (host : Host).
Hypothesis browser_runtime : window_defined host = true.






(** *** What a delete of an absent id still does *)

(** A timestamp written at any reading of the clock reads back as a time
    that is not thirty days older than any reading: the clock does not
    jump, and [toISOString] and the date parser agree. *)
Definition keeps_new_entries : Prop :=
  forall a b, exists t,
    Date_parse host (toISOString host (timeAt host a)) = Some t
    /\ timeAt host b - 30 * 24 * 60 * 60 * 1000 <= t.

Lemma swept_new_entry cutoffDate logs log entry :
  keeps_new_entries ->
  default_cutoff host cutoffDate ->
  logged host log entry ->
  swept host cutoffDate (logs ++ [entry]) = (swept host cutoffDate logs ++ [entry])%list.
Proof.
  intros Hk [b ->] Hentry. unfold swept. rewrite List.filter_app. f_equal.
  simpl. destruct Hentry as (_&_&_&_&_&_&_&a&Hstamp).
  unfold not_before. rewrite Hstamp.
  destruct (Hk a b) as (t&->&Hle).
  destruct (Z.leb_spec (timeAt host b - 30 * 24 * 60 * 60 * 1000) t); [reflexivity|lia].
Qed.

Lemma wp_write_emit {T} `{JSONData T} key (l : T) topic w Q :
  accepts_all host ->
  is_warning topic = false ->
  (forall w', localStorage w' = <[key := Json (toJSON l)]> (localStorage w) ->
              visible (emitted w') = (visible (emitted w) ++ [topic])%list ->
              dispatched w' = dispatched w -> Q (Ok tt) w') ->
  wp (setItem host key l;; emit topic) w Q.
Proof.
  intros Hacc Htopic HQ.
  wp_step. apply wp_setItem_accepted; [exact browser_runtime|apply Hacc|].
  intros w1 Hl1 He1 Hd1. apply wp_emit. apply HQ; simpl; try assumption.
  rewrite visible_app, He1. simpl. now rewrite Htopic.
Qed.

Definition occurrences (t : DatabaseEventType) (l : list DatabaseEventType) : nat :=
  count_occ DatabaseEventType_eq_dec l t.

Lemma occurrences_visible t l :
  is_warning t = false -> occurrences t (visible l) = occurrences t l.
Proof.
  intros Ht. unfold occurrences, visible.
  induction l as [|x l IH]; simpl; [reflexivity|].
  destruct (is_warning x) eqn:Hx; simpl.
  - destruct (DatabaseEventType_eq_dec x t) as [->|]; [congruence|exact IH].
  - destruct (DatabaseEventType_eq_dec x t); now rewrite IH.
Qed.

Lemma occurrences_app t l1 l2 :
  occurrences t (l1 ++ l2) = (occurrences t l1 + occurrences t l2)%nat.
Proof. apply count_occ_app. Qed.

Lemma occurrences_other t t' l :
  t <> t' -> Forall (eq t') l -> occurrences t l = 0%nat.
Proof.
  intros Hne Hall. unfold occurrences. apply count_occ_not_In.
  intros Hin. rewrite Forall_forall in Hall. apply Hne.
  symmetry. apply Hall. now apply list_elem_of_In.
Qed.

Lemma deleteService_absent_observable (w : World) (id : string)
    (services : list Service) :
  accepts_all host ->
  keeps_new_entries ->
  result (getServices host) w = Ok services ->
  ~ In id (map service_id services) ->
  let w' := exec (deleteService host id) w in
  localStorage w' !! DB_KEYS.SERVICES = Some (Json (toJSON services))
  /\ occurrences topic_services (emitted w')
     = S (occurrences topic_services (emitted w))
  /\ exists entry cutoffDate,
       default_cutoff host cutoffDate
       /\ result (getActivityLogs host) w'
          = Ok (swept host cutoffDate (activity_logs w) ++ [entry])%list
       /\ log_action entry = action_delete
       /\ log_entityType entry = entity_service
       /\ log_entityId entry = id
       /\ log_entityName entry = "Unknown Service".
Proof.
  intros Hacc Hkeep Hget Habsent w'.
  unfold result, getServices in Hget.
  rewrite getItem_browser in Hget by exact browser_runtime.
  simpl in Hget. injection Hget as Hs.
  assert (Hwp : wp (deleteService host id) w (fun r w1 =>
            localStorage w1 !! DB_KEYS.SERVICES = Some (Json (toJSON services))
            /\ occurrences topic_services (emitted w1)
               = S (occurrences topic_services (emitted w))
            /\ exists entry cutoffDate,
                 default_cutoff host cutoffDate
                 /\ activity_logs w1
                    = (swept host cutoffDate (activity_logs w) ++ [entry])%list
                 /\ log_action entry = action_delete
                 /\ log_entityType entry = entity_service
                 /\ log_entityId entry = id
                 /\ log_entityName entry = "Unknown Service")).
  { unfold deleteService. wp_step. apply wp_getItem; [exact browser_runtime|].
    rewrite Hs. cbv zeta. rewrite filter_id_absent by exact Habsent.
    rewrite find_id_absent by exact Habsent.
    wp_step. apply wp_write_emit; [exact Hacc|reflexivity|].
    intros w1 Hl1 He1 Hd1.
    apply wp_logActivity_accepted; [exact browser_runtime|exact Hacc|].
    intros w2 entry cutoffDate topics user Hentry Hcut Hl2 He2 Hall Hd2.
    assert (Hlogs1 : activity_logs w1 = activity_logs w).
    { unfold activity_logs. rewrite Hl1. now apply stored_insert_ne. }
    split; [|split].
    - rewrite Hl2, lookup_insert_ne by discriminate.
      rewrite Hl1. apply lookup_insert_eq.
    - rewrite <- (occurrences_visible topic_services (emitted w2)) by reflexivity.
      rewrite He2, He1, !occurrences_app.
      rewrite occurrences_visible by reflexivity.
      rewrite (occurrences_other topic_services topic_activityLogs
                 (topic_activityLogs :: topics)); [simpl; lia|discriminate|].
      now constructor.
    - exists entry, cutoffDate. split; [exact Hcut|].
      split.
      + unfold activity_logs at 1. rewrite Hl2, stored_insert, Hlogs1.
        eapply swept_new_entry; eassumption.
      + destruct Hentry as (Ha&Ht&Hi&Hn&_). simpl in *. auto. }
  apply wp_elim in Hwp. fold w' in Hwp.
  destruct Hwp as (H1&H2&entry&cutoffDate&Hcut&Hlogs&Hrest).
  split; [exact H1|]. split; [exact H2|].
  exists entry, cutoffDate. split; [exact Hcut|]. split; [|exact Hrest].
  unfold result, getActivityLogs. rewrite getItem_browser by exact browser_runtime.
  simpl. f_equal. exact Hlogs.
Qed.

End Deleting.

(* ================================================================= *)
(** ** Sample data *)

Module Sample.

Definition image : ImagePlaceholder :=
  {| image_id := "hero"; image_description := "Lobby";
     image_imageUrl := "https://picsum.photos/seed/lobby/600/400";
     image_imageHint := "lobby" |}.

Definition service (id title : string) : Service :=
  {| service_id := id; service_title := title;
     service_description := "Daily cleaning of offices";
     service_image := image; service_icon := "Sparkles";
     service_category := "Facility Management";
     service_googleFormUrl := "https://forms.gle/abc";
     service_active := Some true |}.

Definition member (id name : string) : TeamMember :=
  {| member_id := id; member_name := name; member_role := "Manager";
     member_bio := "Ten years in operations"; member_image := image;
     member_order := Some 1; member_active := Some true |}.

Definition testimonial (id author : string) : Testimonial :=
  {| testimonial_id := id; testimonial_quote := "Reliable staff";
     testimonial_author := author; testimonial_company := "Acme";
     testimonial_active := None |}.

Definition job (id title : string) : Job :=
  {| job_id := id; job_title := title; job_department := "Operations";
     job_location := "Pune"; job_type := "Full-time";
     job_description := "Supervise site teams";
     job_requirements := ["Two years of experience"];
     job_experience := None; job_salary := None; job_active := Some true |}.

Definition user (id password : string) : User :=
  {| user_id := id; user_email := "admin@edgemakers.in"; user_name := "Admin";
     user_password := password; user_createdAt := "2025-11-01T09:00:00.000Z";
     user_isAdmin := true |}.

Definition contact (id submittedAt : string) : Contact :=
  {| contact_id := id; contact_name := "Asha"; contact_email := "asha@example.com";
     contact_phone := "9000000000"; contact_service := "House Keeping";
     contact_message := "Please call back about a quotation for our office";
     contact_submittedAt := submittedAt; contact_status := "new" |}.

Definition subscriber (id email subscribedAt : string) : NewsletterSubscriber :=
  {| subscriber_id := id; subscriber_email := Some email;
     subscriber_whatsapp := None; subscriber_subscribedAt := subscribedAt;
     subscriber_status := "active" |}.

Definition application (id submittedAt : string) : JobApplication :=
  {| application_id := id; application_name := "Ravi";
     application_email := "ravi@example.com"; application_phone := "9111111111";
     application_position := "Supervisor"; application_experience := "3 years";
     application_message := "Available immediately";
     application_submittedAt := submittedAt; application_status := "pending" |}.

Definition log (id timestamp : string) : ActivityLog :=
  {| log_id := id; log_action := action_create; log_entityType := entity_service;
     log_entityId := "s1"; log_entityName := "House Keeping"; log_user := "Admin";
     log_timestamp := timestamp; log_details := None; log_metadata := None |}.

(** A browser whose store never fills up, on 2026-01-01. *)
Definition host : Host := browser unlimited new_year_2026.

(** A store with two services. *)
Definition world : World :=
  initial_world
    {[ DB_KEYS.SERVICES :=
         Json (toJSON [service "s1" "House Keeping"; service "s2" "Security"]) ]}.

End Sample.



Lemma Sample_accepts_all : accepts_all Sample.host.
Proof. intros ls key text. reflexivity. Qed.

Lemma Sample_keeps_new_entries : keeps_new_entries Sample.host.
Proof.
  intros a b. exists new_year_2026. split.
  - vm_compute. reflexivity.
  - simpl. unfold new_year_2026. lia.
Qed.

(** C10. Deleting a service id that no stored service carries is still
    observable: the services key is written with the (same) collection,
    the [services] topic is emitted exactly once more, and the activity log
    (after its retention sweep) ends with one new entry of action [delete],
    entity type [service], the given id, and the fallback entity name
    [Unknown Service].  This holds in a browser that accepts the writes and
    whose clock and date functions keep a freshly written entry. *)
Theorem delete_of_absent_id_is_observable (host : Host) (w : World) (id : string)
    (services : list Service) :
  window_defined host = true ->
  accepts_all host ->
  keeps_new_entries host ->
  result (getServices host) w = Ok services ->
  ~ In id (map service_id services) ->
  let w' := exec (deleteService host id) w in
  localStorage w' !! DB_KEYS.SERVICES = Some (Json (toJSON services))
  /\ result (getServices host) w' = Ok services
  /\ occurrences topic_services (emitted w')
     = S (occurrences topic_services (emitted w))
  /\ exists entry cutoffDate,
       default_cutoff host cutoffDate
       /\ result (getActivityLogs host) w'
          = Ok (swept host cutoffDate (activity_logs w) ++ [entry])%list
       /\ log_action entry = action_delete
       /\ log_entityType entry = entity_service
       /\ log_entityId entry = id
       /\ log_entityName entry = "Unknown Service".
Proof.
  intros Hw Hacc Hkeep Hget Habsent w'.
  destruct (deleteService_absent_observable host Hw w id services Hacc Hkeep Hget Habsent)
    as (H1&H2&H3).
  fold w' in H1, H2, H3.
  split; [exact H1|]. split; [|split; [exact H2|exact H3]].
  unfold result, getServices. rewrite getItem_browser by exact Hw. simpl.
  unfold stored. now rewrite H1, ofJSON_toJSON.
Qed.

Lemma delete_of_absent_id_is_observable_witness :
  let services := [Sample.service "s1" "House Keeping"; Sample.service "s2" "Security"] in
  let w' := exec (deleteService Sample.host "s9") Sample.world in
  window_defined Sample.host = true
  /\ accepts_all Sample.host
  /\ keeps_new_entries Sample.host
  /\ result (getServices Sample.host) Sample.world = Ok services
  /\ ~ In "s9" (map service_id services)
  /\ occurrences topic_services (emitted w')
     = S (occurrences topic_services (emitted Sample.world)).
Proof.
  intros services w'.
  assert (Hw : window_defined Sample.host = true) by reflexivity.
  assert (Hget : result (getServices Sample.host) Sample.world = Ok services)
    by (vm_compute; reflexivity).
  assert (Habsent : ~ In "s9" (map service_id services)).
  { simpl. intros [H|[H|[]]]; discriminate H. }
  split; [exact Hw|]. split; [exact Sample_accepts_all|].
  split; [exact Sample_keeps_new_entries|]. split; [exact Hget|].
  split; [exact Habsent|].
  exact (proj1 (proj2 (proj2
    (delete_of_absent_id_is_observable Sample.host Sample.world "s9" services
       Hw Sample_accepts_all Sample_keeps_new_entries Hget Habsent)))).
Defined.

(* ================================================================= *)
(** ** The retention sweep of the activity log *)

(** C6. The default sweep ([daysToKeep = 30]) in a browser whose store
    accepts the write of the filtered log: the log read back afterwards is
    the old log without the entries the sweep drops; an entry whose
    timestamp lies more than thirty days before the clock reading of the
    sweep is dropped and one that lies at most thirty days before it (29
    days, say) stays; when no entry is dropped the store and the emitted
    topics are left exactly as they were, and when one is dropped the
    filtered log is written and the [activityLogs] topic emitted once. *)
Theorem retention_sweep (host : Host) (w : World) :
  let logs := activity_logs w in
  let now := timeAt host (reads w) in
  let kept := swept host (now - 30 * 24 * 60 * 60 * 1000) logs in
  let w' := exec (cleanupOldActivityLogs host 30) w in
  window_defined host = true ->
  host_setItem host (localStorage w) DB_KEYS.ACTIVITY_LOGS (Json (toJSON kept)) = None ->
  result (getActivityLogs host) w' = Ok kept
  /\ (forall entry t,
        In entry logs -> Date_parse host (log_timestamp entry) = Some t ->
        30 * day_ms < now - t -> ~ In entry kept)
  /\ (forall entry t,
        In entry logs -> Date_parse host (log_timestamp entry) = Some t ->
        now - t <= 30 * day_ms -> In entry kept)
  /\ (kept = logs -> localStorage w' = localStorage w /\ emitted w' = emitted w)
  /\ (kept <> logs ->
      localStorage w' = <[DB_KEYS.ACTIVITY_LOGS := Json (toJSON kept)]> (localStorage w)
      /\ occurrences topic_activityLogs (emitted w')
         = S (occurrences topic_activityLogs (emitted w)))
  /\ result (cleanupOldActivityLogs host 30) w
     = Ok (Z.of_nat (length logs - length kept)).
Proof.
  intros logs now kept w' Hw Hacc.
  assert (Hwp : wp (cleanupOldActivityLogs host 30) w (fun r w1 =>
            activity_logs w1 = kept
            /\ (kept = logs -> localStorage w1 = localStorage w /\ emitted w1 = emitted w)
            /\ (kept <> logs ->
                localStorage w1
                = <[DB_KEYS.ACTIVITY_LOGS := Json (toJSON kept)]> (localStorage w)
                /\ occurrences topic_activityLogs (emitted w1)
                   = S (occurrences topic_activityLogs (emitted w)))
            /\ r = Ok (Z.of_nat (length logs - length kept)))).
  { apply wp_cleanupOldActivityLogs_accepted; [exact Hw|exact Hacc| |].
    - fold logs now kept. intros Hlt w1 Hl1 He1 Hd1. split; [|split; [|split]].
      + unfold activity_logs. rewrite Hl1. apply stored_insert.
      + intros Heq. rewrite Heq in Hlt. lia.
      + intros _. split; [exact Hl1|].
        rewrite <- (occurrences_visible topic_activityLogs (emitted w1)) by reflexivity.
        rewrite He1, occurrences_app, occurrences_visible by reflexivity.
        simpl. lia.
      + reflexivity.
    - fold logs now kept. intros Heq. split; [|split; [|split]].
      + simpl. fold (activity_logs w). fold logs. now symmetry.
      + intros _. split; reflexivity.
      + intros Hne. contradiction.
      + rewrite Heq, Nat.sub_diag. reflexivity. }
  apply wp_elim in Hwp. fold w' in Hwp. destruct Hwp as (Hlogs&Hsame&Hless&Hr).
  split; [|split; [|split; [|split; [exact Hsame|split; [exact Hless|exact Hr]]]]].
  - unfold result, getActivityLogs. rewrite getItem_browser by exact Hw. simpl.
    f_equal. exact Hlogs.
  - intros entry t Hin Ht Hold Hkept. unfold kept, swept in Hkept.
    apply List.filter_In in Hkept. destruct Hkept as [_ Hnb].
    unfold not_before in Hnb. rewrite Ht in Hnb.
    apply Z.leb_le in Hnb. unfold day_ms in Hold. lia.
  - intros entry t Hin Ht Hnew. unfold kept, swept. apply List.filter_In.
    split; [exact Hin|]. unfold not_before. rewrite Ht.
    apply Z.leb_le. unfold day_ms in Hnew. lia.
Qed.

Module SweepExample.

(** A log with one entry written 31 days before 2026-01-01 and one written
    29 days before it. *)
Definition old_entry : ActivityLog := Sample.log "log-old" "2025-12-01T00:00:00.000Z".
Definition recent_entry : ActivityLog := Sample.log "log-recent" "2025-12-03T00:00:00.000Z".

Definition world : World :=
  initial_world {[ DB_KEYS.ACTIVITY_LOGS := Json (toJSON [old_entry; recent_entry]) ]}.

End SweepExample.

Lemma retention_sweep_witness :
  window_defined Sample.host = true
  /\ host_setItem Sample.host (localStorage SweepExample.world) DB_KEYS.ACTIVITY_LOGS
       (Json (toJSON (swept Sample.host (new_year_2026 - 30 * 24 * 60 * 60 * 1000)
                        (activity_logs SweepExample.world)))) = None
  /\ result (getActivityLogs Sample.host)
       (exec (cleanupOldActivityLogs Sample.host 30) SweepExample.world)
     = Ok [SweepExample.recent_entry].
Proof.
  assert (Hw : window_defined Sample.host = true) by reflexivity.
  split; [exact Hw|]. split; [reflexivity|].
  exact (proj1 (retention_sweep Sample.host SweepExample.world Hw eq_refl)).
Defined.

(* ================================================================= *)
(** ** Replace import *)

Lemma match_default {A B} (o : option (list A)) (f : list A -> B) :
  match o with Some x => f x | None => f [] end = f (default [] o).
Proof. destruct o; reflexivity. Qed.

Ltac stored_after :=
  repeat (rewrite stored_insert_ne by discriminate);
  try rewrite stored_insert; try reflexivity.

Section Importing.
Context (host : Host).
Hypothesis browser_runtime : window_defined host = true.
Hypothesis accepted : accepts_all host.

(** The entry the final [logActivity] of an import writes. *)
Definition import_entry (entityId entityName : string) (entry : ActivityLog) : Prop :=
  log_action entry = action_import /\ log_entityType entry = entity_backup
  /\ log_entityId entry = entityId /\ log_entityName entry = entityName.

Lemma importAll_accepted (data : PartialExportData) (w : World) :
  wp (importAll host data) w (fun r w' =>
    r = Ok tt
    /\ stored DB_KEYS.SERVICES [] (localStorage w') = default [] (data_services data)
    /\ stored DB_KEYS.TEAM [] (localStorage w') = default [] (data_team data)
    /\ stored DB_KEYS.TESTIMONIALS [] (localStorage w')
       = default [] (data_testimonials data)
    /\ stored DB_KEYS.JOBS [] (localStorage w') = default [] (data_jobs data)
    /\ stored DB_KEYS.USERS [] (localStorage w') = default [] (data_users data)
    /\ stored DB_KEYS.CONTACTS [] (localStorage w') = default [] (data_contacts data)
    /\ stored DB_KEYS.NEWSLETTER [] (localStorage w')
       = default [] (data_newsletter data)
    /\ stored DB_KEYS.APPLICATIONS [] (localStorage w')
       = default [] (data_applications data)
    /\ exists entry cutoffDate,
         import_entry "restore" "Full Restore" entry
         /\ default_cutoff host cutoffDate
         /\ activity_logs w'
            = swept host cutoffDate (default [] (data_activityLogs data) ++ [entry])).
Proof.
  unfold importAll.
  rewrite (match_default (data_services data) (setServices host)).
  rewrite (match_default (data_team data) (setTeam host)).
  rewrite (match_default (data_testimonials data) (setTestimonials host)).
  rewrite (match_default (data_jobs data) (setJobs host)).
  rewrite (match_default (data_users data) (setUsers host)).
  rewrite (match_default (data_contacts data)
             (fun l => setItem host DB_KEYS.CONTACTS l;; emit topic_contacts)).
  rewrite (match_default (data_newsletter data)
             (fun l => setItem host DB_KEYS.NEWSLETTER l;; emit topic_newsletter)).
  rewrite (match_default (data_applications data)
             (fun l => setItem host DB_KEYS.APPLICATIONS l;; emit topic_applications)).
  rewrite (match_default (data_activityLogs data)
             (fun l => setItem host DB_KEYS.ACTIVITY_LOGS l;; emit topic_activityLogs)).
  unfold setServices, setTeam, setTestimonials, setJobs, setUsers.
  wp_step. apply wp_write_emit; [assumption|assumption|reflexivity|]. intros w1 Hl1 _ _.
  wp_step. apply wp_write_emit; [assumption|assumption|reflexivity|]. intros w2 Hl2 _ _.
  wp_step. apply wp_write_emit; [assumption|assumption|reflexivity|]. intros w3 Hl3 _ _.
  wp_step. apply wp_write_emit; [assumption|assumption|reflexivity|]. intros w4 Hl4 _ _.
  wp_step. apply wp_write_emit; [assumption|assumption|reflexivity|]. intros w5 Hl5 _ _.
  wp_step. apply wp_write_emit; [assumption|assumption|reflexivity|]. intros w6 Hl6 _ _.
  wp_step. apply wp_write_emit; [assumption|assumption|reflexivity|]. intros w7 Hl7 _ _.
  wp_step. apply wp_write_emit; [assumption|assumption|reflexivity|]. intros w8 Hl8 _ _.
  wp_step. apply wp_write_emit; [assumption|assumption|reflexivity|]. intros w9 Hl9 _ _.
  apply wp_logActivity_accepted; [assumption..|].
  intros w10 entry cutoffDate topics user Hentry Hcut Hl10 _ _ _.
  assert (Hlogs9 : activity_logs w9 = default [] (data_activityLogs data)).
  { unfold activity_logs. rewrite Hl9. apply stored_insert. }
  rewrite Hlogs9 in Hl10.
  rewrite Hl10, Hl9, Hl8, Hl7, Hl6, Hl5, Hl4, Hl3, Hl2, Hl1.
  split; [reflexivity|].
  repeat (split; [stored_after|]).
  exists entry, cutoffDate. split; [|split; [exact Hcut|]].
  - destruct Hentry as (Ha&Ht&Hi&Hn&_). repeat split; assumption.
  - unfold activity_logs. rewrite Hl10. apply stored_insert.
Qed.

End Importing.






(* ================================================================= *)
(** ** Facts about the merge helpers *)

Section Maps.
Context {V : Type}.


Lemma assoc_Map_set_ne (k k' : string) (v : V) m :
  k <> k' -> assoc k' (Map_set k v m) = assoc k' m.
Proof.
  intros Hne. induction m as [|[k0 v0] m IH]; simpl.
  - destruct (String.eqb_spec k' k); [congruence|reflexivity].
  - destruct (String.eqb_spec k k0) as [Heq|Hne0]; simpl.
    + subst k0. destruct (String.eqb_spec k' k); [congruence|reflexivity].
    + destruct (String.eqb_spec k' k0); [reflexivity|exact IH].
Qed.

Lemma Map_set_fresh (k : string) (v : V) m :
  assoc k m = None -> Map_set k v m = (m ++ [(k, v)])%list.
Proof.
  induction m as [|[k0 v0] m IH]; simpl; [reflexivity|].
  destruct (String.eqb_spec k k0); [discriminate|].
  intros Hnone. now rewrite IH.
Qed.


Lemma assoc_app (k : string) (m1 m2 : list (string * V)) :
  assoc k (m1 ++ m2) = match assoc k m1 with
                       | Some v => Some v
                       | None => assoc k m2
                       end.
Proof.
  induction m1 as [|[k0 v0] m1 IH]; simpl; [reflexivity|].
  destruct (String.eqb k k0); [reflexivity|exact IH].
Qed.

Context (key : V -> string).

(** The entries of a map that holds each record under its key. *)
Definition entries (l : list V) : list (string * V) := map (fun x => (key x, x)) l.


Lemma assoc_entries_absent k l : ~ In k (map key l) -> assoc k (entries l) = None.
Proof.
  induction l as [|x l IH]; simpl; [reflexivity|]. intros Hnot.
  destruct (String.eqb_spec k (key x)) as [Heq|Hne].
  - exfalso. apply Hnot. now left.
  - apply IH. intros Hin. apply Hnot. now right.
Qed.

Lemma assoc_entries_present l e :
  NoDup (map key l) -> In e l -> assoc (key e) (entries l) = Some e.
Proof.
  induction l as [|x l IH]; simpl; [contradiction|].
  intros Hnd [->|Hin].
  - now rewrite String.eqb_refl.
  - apply NoDup_cons in Hnd. destruct Hnd as [Hx Hnd].
    destruct (String.eqb_spec (key e) (key x)) as [Heq|Hne].
    + exfalso. apply Hx. rewrite <- Heq. apply list_elem_of_In. now apply in_map.
    + now apply IH.
Qed.

(** Filling an empty [Map] with records of distinct keys keeps them in
    order. *)
Lemma build_entries_from l0 l :
  NoDup (map key (l0 ++ l)) ->
  foldl (fun m x => Map_set (key x) x m) (entries l0) l = entries (l0 ++ l).
Proof.
  revert l0. induction l as [|x l IH]; intros l0 Hnd; simpl.
  - now rewrite app_nil_r.
  - rewrite Map_set_fresh.
    + change (entries l0 ++ [(key x, x)])%list with (entries l0 ++ entries [x])%list.
      unfold entries at 1 2. rewrite <- map_app. fold (entries (l0 ++ [x])).
      rewrite IH; rewrite <- app_assoc; [reflexivity|exact Hnd].
    + apply assoc_entries_absent. rewrite map_app in Hnd.
      apply NoDup_app in Hnd. destruct Hnd as (_&Hdisj&_).
      intros Hin. apply (Hdisj (key x)); [now apply list_elem_of_In|].
      simpl. left.
Qed.

Lemma build_entries l :
  NoDup (map key l) -> foldl (fun m x => Map_set (key x) x m) [] l = entries l.
Proof. intros Hnd. now apply (build_entries_from [] l). Qed.





End Maps.


Lemma map_fixed {A} (f : A -> A) (l : list A) :
  (forall x, In x l -> f x = x) -> map f l = l.
Proof.
  induction l as [|x l IH]; simpl; [reflexivity|]. intros Hf.
  rewrite Hf by now left. f_equal. apply IH. intros y Hy. apply Hf. now right.
Qed.



Section MergeSelf.
Context {T : Type} `{Identified T}.





End MergeSelf.









(* ================================================================= *)
(** ** Merge import *)

(** What a merge step leaves in a collection. *)
Definition merged_with {T} (merge : list T -> list T -> list T) (existing : list T)
    (o : option (list T)) : list T :=
  match o with
  | Some backup => merge existing backup
  | None => existing
  end.

Lemma stored_untouched {T} `{JSONData T} key (d : T) keys w w' :
  touches_only keys w w' -> ~ In key keys ->
  stored key d (localStorage w') = stored key d (localStorage w).
Proof. intros Ht Hk. apply stored_ext. now apply Ht. Qed.

Ltac not_in_keys := simpl; intuition discriminate.

(** Read a stored collection in the state [w] an import started from, by
    walking back over the steps that did not touch its key. *)
Ltac walk_back :=
  repeat match goal with
         | H : stored ?k _ (localStorage ?wb) = _
           |- context [stored ?k _ (localStorage ?wb)] => rewrite H
         | H : touches_only ?ks ?wa ?wb
           |- context [stored ?k ?d (localStorage ?wb)] =>
             rewrite (stored_untouched k d ks wa wb H) by not_in_keys
         end.

Section Merging.
Context (host : Host).
Hypothesis browser_runtime : window_defined host = true.
Hypothesis accepted : accepts_all host.

Lemma wp_merge_step {T} `{JSONData T} key topic (merge : list T -> list T -> list T)
    (o : option (list T)) w Q :
  is_warning topic = false ->
  (forall w',
     stored key [] (localStorage w')
     = merged_with merge (stored key [] (localStorage w)) o ->
     touches_only [key] w w' -> Q (Ok tt) w') ->
  wp (when_present o (fun backup =>
        existing ← getItem host key [];
        setItem host key (merge existing backup);; emit topic)) w Q.
Proof.
  intros Htopic HQ. destruct o as [backup|]; simpl.
  - wp_step. apply wp_getItem; [exact browser_runtime|].
    apply wp_write_emit; [assumption|assumption|exact Htopic|].
    intros w1 Hl1 _ _. apply HQ.
    + rewrite Hl1. apply stored_insert.
    + intros k Hk. rewrite Hl1. apply lookup_insert_ne. intros ->. apply Hk. now left.
  - wp_step. apply HQ; [reflexivity|apply touches_only_refl].
Qed.

Lemma importAllMerge_accepted (data : PartialExportData) (w : World) :
  let ls := localStorage w in
  wp (importAllMerge host data) w (fun r w' =>
    let ls' := localStorage w' in
    r = Ok tt
    /\ stored DB_KEYS.SERVICES [] ls'
       = merged_with mergeById (stored DB_KEYS.SERVICES [] ls) (data_services data)
    /\ stored DB_KEYS.TEAM [] ls'
       = merged_with mergeById (stored DB_KEYS.TEAM [] ls) (data_team data)
    /\ stored DB_KEYS.TESTIMONIALS [] ls'
       = merged_with mergeById (stored DB_KEYS.TESTIMONIALS [] ls)
           (data_testimonials data)
    /\ stored DB_KEYS.JOBS [] ls'
       = merged_with mergeById (stored DB_KEYS.JOBS [] ls) (data_jobs data)
    /\ stored DB_KEYS.USERS [] ls'
       = merged_with mergeUsers (stored DB_KEYS.USERS [] ls) (data_users data)
    /\ stored DB_KEYS.CONTACTS [] ls'
       = merged_with mergeOverride (stored DB_KEYS.CONTACTS [] ls) (data_contacts data)
    /\ stored DB_KEYS.NEWSLETTER [] ls'
       = merged_with (mergeNewsletter (Date_parse host))
           (stored DB_KEYS.NEWSLETTER [] ls) (data_newsletter data)
    /\ stored DB_KEYS.APPLICATIONS [] ls'
       = merged_with mergeOverride (stored DB_KEYS.APPLICATIONS [] ls)
           (data_applications data)
    /\ exists entry cutoffDate,
         import_entry "merge" "Merge Restore" entry
         /\ default_cutoff host cutoffDate
         /\ activity_logs w'
            = swept host cutoffDate
                (merged_with (mergeActivityLogs (Date_parse host)) (activity_logs w)
                   (data_activityLogs data) ++ [entry])).
Proof.
  intros ls. unfold importAllMerge.
  unfold getServices, setServices, getTeam, setTeam, getTestimonials,
    setTestimonials, getJobs, setJobs, getUsers, setUsers, getContacts,
    getNewsletterSubscribers, getApplications, getActivityLogs.
  wp_step. apply (wp_merge_step DB_KEYS.SERVICES topic_services mergeById);
    [reflexivity|]. intros w1 Hs1 Ht1.
  wp_step. apply (wp_merge_step DB_KEYS.TEAM topic_team mergeById);
    [reflexivity|]. intros w2 Hs2 Ht2.
  wp_step. apply (wp_merge_step DB_KEYS.TESTIMONIALS topic_testimonials mergeById);
    [reflexivity|]. intros w3 Hs3 Ht3.
  wp_step. apply (wp_merge_step DB_KEYS.JOBS topic_jobs mergeById);
    [reflexivity|]. intros w4 Hs4 Ht4.
  wp_step. apply (wp_merge_step DB_KEYS.USERS topic_users mergeUsers);
    [reflexivity|]. intros w5 Hs5 Ht5.
  wp_step. apply (wp_merge_step DB_KEYS.CONTACTS topic_contacts mergeOverride);
    [reflexivity|]. intros w6 Hs6 Ht6.
  wp_step. apply (wp_merge_step DB_KEYS.NEWSLETTER topic_newsletter
                    (mergeNewsletter (Date_parse host)));
    [reflexivity|]. intros w7 Hs7 Ht7.
  wp_step. apply (wp_merge_step DB_KEYS.APPLICATIONS topic_applications mergeOverride);
    [reflexivity|]. intros w8 Hs8 Ht8.
  wp_step. apply (wp_merge_step DB_KEYS.ACTIVITY_LOGS topic_activityLogs
                    (mergeActivityLogs (Date_parse host)));
    [reflexivity|]. intros w9 Hs9 Ht9.
  apply wp_logActivity_accepted; [assumption..|].
  intros w10 entry cutoffDate topics user Hentry Hcut Hl10 _ _ _.
  assert (Ht10 : touches_only [DB_KEYS.ACTIVITY_LOGS] w9 w10).
  { intros k Hk. rewrite Hl10. apply lookup_insert_ne. intros Heq. apply Hk. now left. }
  cbv zeta. split; [reflexivity|].
  repeat (split; [walk_back; reflexivity|]).
  exists entry, cutoffDate. split; [|split; [exact Hcut|]].
  - destruct Hentry as (Ha&Ht&Hi&Hn&_). repeat split; assumption.
  - unfold activity_logs at 1. rewrite Hl10, stored_insert. f_equal. f_equal.
    unfold activity_logs. walk_back. reflexivity.
Qed.

End Merging.






Module MergeExample.

(** One stored user with a password hash; a backup that carries the same
    user with the password blanked. *)
Definition stored_user : User := Sample.user "user-1" "$2a$10$abcdefghijklmnopqrstuv".
Definition backup_user : User := Sample.user "user-1" EmptyString.

Definition world : World :=
  initial_world {[ DB_KEYS.USERS := Json (toJSON [stored_user]) ]}.

Definition payload : PartialExportData :=
  {| data_version := Some "1.0.0"; data_appVersion := None; data_backupId := None;
     data_description := None; data_services := None; data_team := None;
     data_testimonials := None; data_jobs := None;
     data_users := Some [backup_user];
     data_contacts := None; data_newsletter := None; data_applications := None;
     data_activityLogs := None; data_exportedAt := None |}.

End MergeExample.


(** [exportAll] reads the nine collections and changes nothing that can be
    observed. *)
Lemma exportAll_browser (host : Host) (w : World) :
  window_defined host = true ->
  exists data w1,
    exportAll host w = (Ok data, w1)
    /\ unchanged w w1
    /\ export_version data = BACKUP_FORMAT_VERSION
    /\ export_services data = stored DB_KEYS.SERVICES [] (localStorage w)
    /\ export_team data = stored DB_KEYS.TEAM [] (localStorage w)
    /\ export_testimonials data = stored DB_KEYS.TESTIMONIALS [] (localStorage w)
    /\ export_jobs data = stored DB_KEYS.JOBS [] (localStorage w)
    /\ export_users data = stored DB_KEYS.USERS [] (localStorage w)
    /\ export_contacts data = stored DB_KEYS.CONTACTS [] (localStorage w)
    /\ export_newsletter data = stored DB_KEYS.NEWSLETTER [] (localStorage w)
    /\ export_applications data = stored DB_KEYS.APPLICATIONS [] (localStorage w)
    /\ export_activityLogs data = activity_logs w.
Proof.
  intros Hw. unfold exportAll, mbind, M_bind, Date_now, Math_random.
  unfold getServices, getTeam, getTestimonials, getJobs, getUsers, getContacts,
    getNewsletterSubscribers, getApplications, getActivityLogs.
  rewrite !getItem_browser by exact Hw. simpl.
  eexists _, _. split; [reflexivity|]. simpl.
  repeat split; reflexivity.
Qed.


(** The eight data collections read the same in [w'] as in [w]. *)
Definition same_collections (host : Host) (w w' : World) : Prop :=
  result (getServices host) w' = result (getServices host) w
  /\ result (getTeam host) w' = result (getTeam host) w
  /\ result (getTestimonials host) w' = result (getTestimonials host) w
  /\ result (getJobs host) w' = result (getJobs host) w
  /\ result (getUsers host) w' = result (getUsers host) w
  /\ result (getContacts host) w' = result (getContacts host) w
  /\ result (getNewsletterSubscribers host) w'
     = result (getNewsletterSubscribers host) w
  /\ result (getApplications host) w' = result (getApplications host) w.


Module NewsletterExample.

(** Two subscribers, added one after the other, whose email addresses
    differ in case only. *)
Definition first : NewsletterSubscriber :=
  Sample.subscriber "sub-1" "asha@example.com" "2025-12-01T10:00:00.000Z".
Definition second : NewsletterSubscriber :=
  Sample.subscriber "sub-2" "Asha@Example.com" "2025-12-02T10:00:00.000Z".

Definition world : World :=
  initial_world {[ DB_KEYS.NEWSLETTER := Json (toJSON [first; second]) ]}.

End NewsletterExample.





(* ================================================================= *)
(** ** Backup validation *)

Module BackupExample.

Definition collections (services : JSValue) : list (string * JSValue) :=
  [("services", services); ("team", JArr []); ("testimonials", JArr []);
   ("jobs", JArr []); ("users", JArr []); ("contacts", JArr []);
   ("newsletter", JArr []); ("applications", JArr []);
   ("exportedAt", JStr "2026-01-01T00:00:00.000Z")].

(** Every required field, [services: null], current version. *)
Definition null_services : JSValue :=
  JObj (("version", JStr "1.0.0") :: collections JNull).

(** Every required field, no version, [services] a string. *)
Definition text_services : JSValue := JObj (collections (JStr "none")).

(** Every required field, version 2.0.0, a [null] among the services. *)
Definition null_service_item : JSValue :=
  JObj (("version", JStr "2.0.0") :: collections (JArr [JNull])).

(** Every required field, no version, no record. *)
Definition unversioned : JSValue := JObj (collections (JArr [])).

(** Version 2.1.0. *)
Definition next_major : JSValue :=
  JObj (("version", JStr "2.1.0") :: collections (JArr [])).

End BackupExample.

(** C5, as stated, fails: a [services] field that is present and is not an
    array ([null]) passes validation; with the version missing and every
    required field present the result is invalid when [services] is a
    string; and with a major version mismatch the mismatch error is not
    reported when a services item is [null]. *)
Lemma validation_counterexamples :
  (prop "services" BackupExample.null_services = Some JNull
   /\ isValid (validateBackupFile BackupExample.null_services) = true)
  /\ (prop "version" BackupExample.text_services = None
      /\ isValid (validateBackupFile BackupExample.text_services) = false)
  /\ errors (validateBackupFile BackupExample.null_service_item)
     = ["Invalid backup file format"].
Proof. repeat split; reflexivity. Qed.

Lemma flat_map_nil {A B} (f : A -> list B) (l : list A) :
  (forall x, In x l -> f x = []) -> flat_map f l = [].
Proof.
  induction l as [|x l IH]; simpl; [reflexivity|]. intros Hf.
  rewrite Hf by now left. apply IH. intros y Hy. apply Hf. now right.
Qed.

(** Conditions on the input, in its own terms. *)
Definition has_required_fields (fields : list (string * JSValue)) : Prop :=
  forall field, In field requiredFields -> has_key field fields = true.

(** [data.version] is absent, falsy or a string. *)
Definition version_is_text (fields : list (string * JSValue)) : Prop :=
  forall v, assoc "version" fields = Some v -> truthy v = true ->
            exists version, v = JStr version.

(** No item of a [services] array is [null]. *)
Definition no_null_service (fields : list (string * JSValue)) : Prop :=
  forall items, assoc "services" fields = Some (JArr items) -> ~ In JNull items.

(** Every collection field that is present and truthy is an array. *)
Definition collections_are_arrays (fields : list (string * JSValue)) : Prop :=
  forall field v, In field arrayFields -> assoc field fields = Some v ->
                  truthy v = true -> isArray v = true.

(** Every item of a [services] array is not [null] and has a truthy [id]
    and [title]. *)
Definition services_well_formed (fields : list (string * JSValue)) : Prop :=
  forall items, assoc "services" fields = Some (JArr items) ->
    Forall (fun item => item <> JNull /\ truthy_opt (prop "id" item) = true
                        /\ truthy_opt (prop "title" item) = true) items.

Lemma missing_errors_none fields : has_required_fields fields -> missing_errors fields = [].
Proof.
  intros Hreq. unfold missing_errors. apply flat_map_nil.
  intros field Hin. now rewrite Hreq.
Qed.

Lemma type_errors_none fields : collections_are_arrays fields -> type_errors fields = [].
Proof.
  intros Harr. unfold type_errors. apply flat_map_nil. intros field Hin.
  destruct (assoc field fields) as [v|] eqn:Hv; [|reflexivity].
  destruct (truthy v) eqn:Ht; [|reflexivity].
  now rewrite (Harr field v Hin Hv Ht).
Qed.

Lemma type_errors_found fields field v :
  In field arrayFields -> assoc field fields = Some v ->
  truthy v = true -> isArray v = false ->
  In (type_error field) (type_errors fields).
Proof.
  intros Hin Hv Ht Ha. unfold type_errors. apply in_flat_map.
  exists field. split; [exact Hin|]. rewrite Hv, Ht, Ha. now left.
Qed.

Lemma check_services_total index items :
  ~ In JNull items -> exists found, check_services index items = Some found.
Proof.
  revert index. induction items as [|item items IH]; intros index Hnull; simpl.
  - now eexists.
  - destruct (IH (S index)) as (more&Hmore).
    { intros Hin. apply Hnull. now right. }
    rewrite Hmore.
    destruct item; try (now eexists). exfalso. apply Hnull. now left.
Qed.

Lemma check_services_none index items :
  Forall (fun item => item <> JNull /\ truthy_opt (prop "id" item) = true
                      /\ truthy_opt (prop "title" item) = true) items ->
  check_services index items = Some [].
Proof.
  revert index. induction items as [|item items IH]; intros index Hall; simpl.
  - reflexivity.
  - apply Forall_cons in Hall. destruct Hall as ((Hnn&Hid&Htitle)&Hall).
    rewrite (IH (S index) Hall), Hid, Htitle. simpl.
    destruct item; try reflexivity. contradiction.
Qed.

Lemma structure_errors_total fields :
  no_null_service fields -> exists found, structure_errors fields = Some found.
Proof.
  intros Hnull. unfold structure_errors.
  destruct (assoc "services" fields) as [[| | | |items|]|] eqn:Hs; try (now eexists).
  apply check_services_total. now apply Hnull.
Qed.

Lemma structure_errors_none fields :
  services_well_formed fields -> structure_errors fields = Some [].
Proof.
  intros Hwf. unfold structure_errors.
  destruct (assoc "services" fields) as [[| | | |items|]|] eqn:Hs; try reflexivity.
  apply check_services_none. now apply Hwf.
Qed.

(** When nothing throws, the result lists the errors of the four checks in
    order and is valid exactly when there is none. *)
Lemma validate_object_result fields versionErrors versionWarnings structureErrors :
  check_version fields = Some (versionErrors, versionWarnings) ->
  structure_errors fields = Some structureErrors ->
  let r := validateBackupFile (JObj fields) in
  errors r = (missing_errors fields ++ versionErrors ++ type_errors fields
              ++ structureErrors)%list
  /\ warnings r = versionWarnings
  /\ isValid r = (length (errors r) =? 0)%nat.
Proof.
  intros Hv Hs. simpl. unfold validate_object. rewrite Hv, Hs.
  destruct (missing_errors fields ++ versionErrors ++ type_errors fields
            ++ structureErrors)%list as [|e l] eqn:He; simpl; auto.
Qed.

Lemma check_version_absent fields :
  truthy_opt (assoc "version" fields) = false ->
  check_version fields = Some ([], [no_version_warning]).
Proof.
  unfold check_version, truthy_opt.
  destruct (assoc "version" fields) as [v|]; [|reflexivity]. now intros ->.
Qed.

Lemma check_version_total fields :
  version_is_text fields ->
  exists versionErrors versionWarnings,
    check_version fields = Some (versionErrors, versionWarnings).
Proof.
  intros Htext. unfold check_version.
  destruct (assoc "version" fields) as [v|] eqn:Hv; [|now eexists _, _].
  destruct (truthy v) eqn:Ht; [|now eexists _, _].
  destruct (Htext v Hv Ht) as (version&->).
  destruct (parseVersion version) as [backupVersion|]; simpl; [|now eexists _, _].
  repeat match goal with
         | |- context [if ?c then _ else _] => destruct c
         end; now eexists _, _.
Qed.

Lemma check_version_major fields version backupVersion :
  assoc "version" fields = Some (JStr version) ->
  nonempty version = true ->
  parseVersion version = Some backupVersion ->
  major backupVersion <> 1 ->
  check_version fields = Some ([major_mismatch_error version], []).
Proof.
  intros Hv Hne Hparse Hmajor. unfold check_version. rewrite Hv. simpl.
  rewrite Hne, Hparse. simpl.
  destruct (Z.eqb_spec (major backupVersion) (parseInt "1")) as [Heq|Hne'];
    [|reflexivity].
  exfalso. apply Hmajor. exact Heq.
Qed.

Lemma validation_valid_iff_no_error (data : JSValue) :
  isValid (validateBackupFile data) = true <-> errors (validateBackupFile data) = [].
Proof.
  destruct data as [| | | | |fields]; simpl; try (split; discriminate).
  unfold validate_object.
  destruct (check_version fields) as [[versionErrors versionWarnings]|];
    [|simpl; split; discriminate].
  destruct (structure_errors fields) as [structureErrors|];
    [|simpl; split; discriminate].
  destruct (missing_errors fields ++ versionErrors ++ type_errors fields
            ++ structureErrors)%list as [|e l]; simpl; split;
    try reflexivity; discriminate.
Qed.

(** C5, amended. For an input object [data]:
    - when every required field is present, [data.version] is missing or
      falsy, every collection field is an array (or falsy) and every
      services item has a truthy [id] and [title], the result is valid, has
      no error and carries the missing-version warning;
    - when [data.version] is a string that parses to a major version other
      than 1 and no services item is [null], the result is invalid and its
      errors include the major-mismatch error;
    - when a collection field holds a truthy value that is not an array,
      [data.version] is absent, falsy or a string and no services item is
      [null], the result is invalid and its errors include the type error
      of that field;
    and for every input the result is valid exactly when it has no error,
    whatever its warnings. *)
Theorem backup_validation_outcomes (fields : list (string * JSValue)) :
  let r := validateBackupFile (JObj fields) in
  (has_required_fields fields ->
   truthy_opt (assoc "version" fields) = false ->
   collections_are_arrays fields ->
   services_well_formed fields ->
   isValid r = true /\ errors r = [] /\ warnings r = [no_version_warning])
  /\ (forall version backupVersion,
        assoc "version" fields = Some (JStr version) ->
        nonempty version = true ->
        parseVersion version = Some backupVersion ->
        major backupVersion <> 1 ->
        no_null_service fields ->
        isValid r = false /\ In (major_mismatch_error version) (errors r))
  /\ (forall field v,
        In field arrayFields ->
        assoc field fields = Some v -> truthy v = true -> isArray v = false ->
        version_is_text fields ->
        no_null_service fields ->
        isValid r = false /\ In (type_error field) (errors r))
  /\ (forall data,
        isValid (validateBackupFile data) = true
        <-> errors (validateBackupFile data) = []).
Proof.
  intros r. split; [|split; [|split]].
  - intros Hreq Hver Harr Hwf.
    destruct (validate_object_result fields [] [no_version_warning] []
                (check_version_absent fields Hver) (structure_errors_none fields Hwf))
      as (He&Hwarn&Hvalid).
    fold r in He, Hwarn, Hvalid.
    rewrite missing_errors_none, type_errors_none in He by assumption.
    simpl in He. rewrite He in Hvalid. auto.
  - intros version backupVersion Hv Hne Hparse Hmajor Hnull.
    destruct (structure_errors_total fields Hnull) as (structureErrors&Hs).
    destruct (validate_object_result fields _ _ _
                (check_version_major fields version backupVersion Hv Hne Hparse Hmajor)
                Hs) as (He&_&Hvalid).
    fold r in He, Hvalid.
    assert (Hin : In (major_mismatch_error version) (errors r)).
    { rewrite He. apply in_or_app. right. now left. }
    split; [|exact Hin]. rewrite Hvalid.
    destruct (errors r); [contradiction|reflexivity].
  - intros field v Hfield Hv Ht Ha Htext Hnull.
    destruct (check_version_total fields Htext) as (versionErrors&versionWarnings&Hc).
    destruct (structure_errors_total fields Hnull) as (structureErrors&Hs).
    destruct (validate_object_result fields _ _ _ Hc Hs) as (He&_&Hvalid).
    fold r in He, Hvalid.
    assert (Hin : In (type_error field) (errors r)).
    { rewrite He. apply in_or_app. right. apply in_or_app. right.
      apply in_or_app. left. eapply type_errors_found; eassumption. }
    split; [|exact Hin]. rewrite Hvalid.
    destruct (errors r); [contradiction|reflexivity].
  - exact validation_valid_iff_no_error.
Qed.

Lemma backup_validation_outcomes_witness :
  let fields := BackupExample.collections (JArr []) in
  has_required_fields fields
  /\ truthy_opt (assoc "version" fields) = false
  /\ collections_are_arrays fields
  /\ services_well_formed fields
  /\ isValid (validateBackupFile BackupExample.unversioned) = true
  /\ errors (validateBackupFile BackupExample.unversioned) = []
  /\ warnings (validateBackupFile BackupExample.unversioned) = [no_version_warning].
Proof.
  intros fields.
  assert (Hreq : has_required_fields fields).
  { intros field Hin. simpl in Hin.
    repeat (destruct Hin as [<-|Hin]; [reflexivity|]). contradiction. }
  assert (Hver : truthy_opt (assoc "version" fields) = false) by reflexivity.
  assert (Harr : collections_are_arrays fields).
  { intros field v Hin Hv _. simpl in Hin.
    repeat (destruct Hin as [<-|Hin]; [injection Hv as <-; reflexivity|]).
    contradiction. }
  assert (Hwf : services_well_formed fields).
  { intros items Hitems. injection Hitems as <-. constructor. }
  split; [exact Hreq|]. split; [exact Hver|]. split; [exact Harr|].
  split; [exact Hwf|].
  exact (proj1 (backup_validation_outcomes fields) Hreq Hver Harr Hwf).
Defined.

(* ================================================================= *)
(** ** Legacy migration *)

Lemma append_nonempty (a b : string) : nonempty a = true -> nonempty (a ++ b) = true.
Proof. destruct a; [discriminate|reflexivity]. Qed.

Lemma string_of_Z_nonempty (z : Z) : nonempty (string_of_Z z) = true.
Proof.
  unfold string_of_Z. destruct (Z.to_int z) as [u|u]; simpl.
  - destruct u; reflexivity.
  - reflexivity.
Qed.

(** The text of a document is never empty, so a stored document is truthy. *)
Lemma JSON_stringify_nonempty (d : JSValue) : nonempty (JSON_stringify d) = true.
Proof.
  destruct d as [|[]|n|s|items|fields]; try reflexivity.
  apply string_of_Z_nonempty.
Qed.

(** What [migrate_pair] does to one pair, from [w] to [w']. *)
Definition pair_outcome (host : Host) (legacy newKey : string) (w w' : World) : Prop :=
  let ls := localStorage w in
  (text_truthy (ls !! legacy) = false -> w' = w)
  /\ (holds_data (ls !! newKey) = true -> w' = w)
  /\ (forall d,
        ls !! legacy = Some (Json d) ->
        holds_data (ls !! newKey) = false ->
        host_setItem host ls newKey (Json d) = None ->
        localStorage w' = delete legacy (<[newKey := Json d]> ls)).

Section Migrating.
Context (host : Host).

Lemma wp_migrate_pair legacy newKey w Q :
  (forall w', touches_only [legacy; newKey] w w' ->
              pair_outcome host legacy newKey w w' -> Q (Ok tt) w') ->
  wp (migrate_pair host (legacy, newKey)) w Q.
Proof.
  intros HQ. unfold migrate_pair. wp_step. wp_step.
  unfold localStorage_getItem at 1. wp_step.
  destruct (text_truthy (localStorage w !! legacy)) eqn:Hlegacy; simpl.
  2:{ wp_step. apply HQ; [apply touches_only_refl|].
      split; [reflexivity|]. split; [reflexivity|].
      intros d Hd. rewrite Hd in Hlegacy. simpl in Hlegacy.
      now rewrite JSON_stringify_nonempty in Hlegacy. }
  wp_step. unfold localStorage_getItem. wp_step.
  destruct (holds_data (localStorage w !! newKey)) eqn:Hnew.
  { wp_step. apply HQ; [apply touches_only_refl|].
    split; [reflexivity|]. split; [reflexivity|]. intros d _ Hh. congruence. }
  wp_step. unfold JSON_parse.
  destruct (localStorage w !! legacy) as [[d|s]|] eqn:Hl.
  2,3: wp_step; wp_step; (apply HQ; [apply touches_only_refl|]);
       (split; [reflexivity|]); (split; [reflexivity|]);
       intros d' Hd'; congruence.
  wp_step. wp_step. apply wp_localStorage_setItem.
  - intros Hacc. unfold localStorage_removeItem. wp_step.
    apply HQ.
    + intros k Hk. simpl. rewrite lookup_delete_ne, lookup_insert_ne;
        [reflexivity| |]; intros Heq; apply Hk; simpl; auto.
    + split; [intros Hf; congruence|]. split; [intros Hf; congruence|].
      intros d' Hd' _ _. rewrite Hl in Hd'. injection Hd' as <-. reflexivity.
  - intros e He. wp_step. apply HQ; [apply touches_only_refl|].
    split; [reflexivity|]. split; [reflexivity|].
    intros d' Hd' _ Hacc. rewrite Hl in Hd'. injection Hd' as <-. congruence.
Qed.

(** One step of the migration. *)
Definition migration_step (pair : string * string) (w w' : World) : Prop :=
  touches_only [pair.1; pair.2] w w' /\ pair_outcome host pair.1 pair.2 w w'.

Lemma migrate_pair_total legacy newKey w :
  result (migrate_pair host (legacy, newKey)) w = Ok tt
  /\ migration_step (legacy, newKey) w (exec (migrate_pair host (legacy, newKey)) w).
Proof.
  apply (wp_elim (migrate_pair host (legacy, newKey)) w
           (fun r w' => r = Ok tt /\ migration_step (legacy, newKey) w w')).
  apply wp_migrate_pair. intros w' Ht Ho. split; [reflexivity|]. now split.
Qed.

(** The migration runs the four pairs one after the other and never
    throws. *)
Lemma migrateLegacyKeys_steps w :
  window_defined host = true ->
  exists w1 w2 w3,
    migration_step ("edgemakers_contacts", DB_KEYS.CONTACTS) w w1
    /\ migration_step ("edgemakers_newsletter", DB_KEYS.NEWSLETTER) w1 w2
    /\ migration_step ("edgemakers_job_applications", DB_KEYS.APPLICATIONS) w2 w3
    /\ migration_step ("edgemakers_user", DB_KEYS.USERS) w3
         (exec (migrateLegacyKeys host) w)
    /\ result (migrateLegacyKeys host) w = Ok tt.
Proof.
  intros Hw.
  apply (wp_elim (migrateLegacyKeys host) w
           (fun r w4 => exists w1 w2 w3,
              migration_step ("edgemakers_contacts", DB_KEYS.CONTACTS) w w1
              /\ migration_step ("edgemakers_newsletter", DB_KEYS.NEWSLETTER) w1 w2
              /\ migration_step ("edgemakers_job_applications", DB_KEYS.APPLICATIONS)
                   w2 w3
              /\ migration_step ("edgemakers_user", DB_KEYS.USERS) w3 w4
              /\ r = Ok tt)).
  unfold migrateLegacyKeys. rewrite Hw. simpl.
  wp_step. wp_step. apply wp_migrate_pair. intros w1 T1 O1.
  wp_step. apply wp_migrate_pair. intros w2 T2 O2.
  wp_step. apply wp_migrate_pair. intros w3 T3 O3.
  wp_step. apply wp_migrate_pair. intros w4 T4 O4.
  wp_step. exists w1, w2, w3.
  repeat (split; [split; assumption|]). reflexivity.
Qed.

(** A step seen from the whole run: the steps before and after it touch
    other keys. *)
Lemma migration_step_framed legacy newKey before after w wa wb w' :
  touches_only before w wa ->
  migration_step (legacy, newKey) wa wb ->
  touches_only after wb w' ->
  ~ In legacy before -> ~ In newKey before ->
  ~ In legacy after -> ~ In newKey after ->
  legacy <> newKey ->
  (holds_data (localStorage w !! newKey) = true ->
   localStorage w' !! newKey = localStorage w !! newKey
   /\ localStorage w' !! legacy = localStorage w !! legacy)
  /\ (forall d,
        localStorage w !! legacy = Some (Json d) ->
        holds_data (localStorage w !! newKey) = false ->
        (forall st, host_setItem host st newKey (Json d) = None) ->
        localStorage w' !! newKey = Some (Json d)
        /\ localStorage w' !! legacy = None).
Proof.
  intros Tb (_&_&Hskip&Hmove) Ta Hlb Hnb Hla Hna Hne. simpl in Hskip, Hmove.
  rewrite (Ta legacy Hla), (Ta newKey Hna).
  rewrite <- (Tb legacy Hlb), <- (Tb newKey Hnb). split.
  - intros Hdata. now rewrite (Hskip Hdata).
  - intros d Hd Hempty Hacc. rewrite (Hmove d Hd Hempty (Hacc _)).
    rewrite lookup_delete_ne, lookup_insert_eq, lookup_delete_eq by congruence.
    now split.
Qed.

End Migrating.

Module MigrationExample.

(** Legacy contacts under a malformed text, legacy subscribers under a
    well-formed one, and nothing under the new keys. *)
Definition subscribers : JSValue :=
  toJSON [Sample.subscriber "sub-1" "asha@example.com" "2025-12-01T10:00:00.000Z"].

Definition world : World :=
  initial_world
    {[ "edgemakers_contacts" := Raw "[{oops";
       "edgemakers_newsletter" := Json subscribers ]}.

End MigrationExample.

(** C8. In a browser, the migration never throws, and for every pair
    (legacy key, new key) of the table: if the new key already holds a
    non-empty value (a text other than [[]] and [{}]), both keys are left
    as they were; and if the legacy key holds a document, the new key holds
    none and the host accepts the write, then afterwards the new key holds
    that very document and the legacy key is gone.  Nothing is assumed of
    the other pairs: their legacy text may be malformed and their writes
    refused, which migrates none of them and stops none of the others.
    Each pair taken alone ([migrate_pair]) behaves the same way and never
    throws. *)
Theorem legacy_migration (host : Host) (w : World) :
  window_defined host = true ->
  let ls := localStorage w in
  let ls' := localStorage (exec (migrateLegacyKeys host) w) in
  result (migrateLegacyKeys host) w = Ok tt
  /\ (forall legacy newKey,
        In (legacy, newKey) LEGACY_KEY_MAPPINGS ->
        (holds_data (ls !! newKey) = true ->
         ls' !! newKey = ls !! newKey /\ ls' !! legacy = ls !! legacy)
        /\ (forall d,
              ls !! legacy = Some (Json d) ->
              holds_data (ls !! newKey) = false ->
              (forall st, host_setItem host st newKey (Json d) = None) ->
              ls' !! newKey = Some (Json d) /\ ls' !! legacy = None))
  /\ (forall legacy newKey w0,
        result (migrate_pair host (legacy, newKey)) w0 = Ok tt
        /\ pair_outcome host legacy newKey w0
             (exec (migrate_pair host (legacy, newKey)) w0)).
Proof.
  intros Hw ls ls'.
  destruct (migrateLegacyKeys_steps host w Hw) as (w1&w2&w3&S1&S2&S3&S4&Hr).
  pose proof (proj1 S1) as T1. pose proof (proj1 S2) as T2.
  pose proof (proj1 S3) as T3. pose proof (proj1 S4) as T4.
  simpl in T1, T2, T3, T4.
  split; [exact Hr|]. split.
  - intros legacy newKey Hin. simpl in Hin.
    destruct Hin as [[= <- <-]|[[= <- <-]|[[= <- <-]|[[= <- <-]|[]]]]].
    + eapply (migration_step_framed host _ _ []
                ["edgemakers_newsletter"; DB_KEYS.NEWSLETTER;
                 "edgemakers_job_applications"; DB_KEYS.APPLICATIONS;
                 "edgemakers_user"; DB_KEYS.USERS]);
        [apply touches_only_refl|exact S1| |not_in_keys..|discriminate].
      eapply touches_only_trans; [|eapply touches_only_trans];
        [eapply touches_only_incl; [|exact T2]
        |eapply touches_only_incl; [|exact T3]
        |eapply touches_only_incl; [|exact T4]];
        intros k Hk; simpl in *; tauto.
    + eapply (migration_step_framed host _ _
                ["edgemakers_contacts"; DB_KEYS.CONTACTS]
                ["edgemakers_job_applications"; DB_KEYS.APPLICATIONS;
                 "edgemakers_user"; DB_KEYS.USERS]);
        [exact T1|exact S2| |not_in_keys..|discriminate].
      eapply touches_only_trans;
        [eapply touches_only_incl; [|exact T3]
        |eapply touches_only_incl; [|exact T4]];
        intros k Hk; simpl in *; tauto.
    + eapply (migration_step_framed host _ _
                ["edgemakers_contacts"; DB_KEYS.CONTACTS;
                 "edgemakers_newsletter"; DB_KEYS.NEWSLETTER]
                ["edgemakers_user"; DB_KEYS.USERS]);
        [|exact S3|exact T4|not_in_keys..|discriminate].
      eapply touches_only_trans;
        [eapply touches_only_incl; [|exact T1]
        |eapply touches_only_incl; [|exact T2]];
        intros k Hk; simpl in *; tauto.
    + eapply (migration_step_framed host _ _
                ["edgemakers_contacts"; DB_KEYS.CONTACTS;
                 "edgemakers_newsletter"; DB_KEYS.NEWSLETTER;
                 "edgemakers_job_applications"; DB_KEYS.APPLICATIONS] []);
        [|exact S4|apply touches_only_refl|not_in_keys..|discriminate].
      eapply touches_only_trans; [|eapply touches_only_trans];
        [eapply touches_only_incl; [|exact T1]
        |eapply touches_only_incl; [|exact T2]
        |eapply touches_only_incl; [|exact T3]];
        intros k Hk; simpl in *; tauto.
  - intros legacy newKey w0.
    destruct (migrate_pair_total host legacy newKey w0) as (Hr0&_&Ho).
    now split.
Qed.

Lemma legacy_migration_witness :
  let w' := exec (migrateLegacyKeys Sample.host) MigrationExample.world in
  window_defined Sample.host = true
  /\ In ("edgemakers_newsletter", DB_KEYS.NEWSLETTER) LEGACY_KEY_MAPPINGS
  /\ localStorage MigrationExample.world !! "edgemakers_newsletter"
     = Some (Json MigrationExample.subscribers)
  /\ holds_data (localStorage MigrationExample.world !! DB_KEYS.NEWSLETTER) = false
  /\ (forall st, host_setItem Sample.host st DB_KEYS.NEWSLETTER
                   (Json MigrationExample.subscribers) = None)
  /\ localStorage w' !! DB_KEYS.NEWSLETTER = Some (Json MigrationExample.subscribers)
  /\ localStorage w' !! "edgemakers_newsletter" = None.
Proof.
  intros w'.
  assert (Hw : window_defined Sample.host = true) by reflexivity.
  assert (Hin : In ("edgemakers_newsletter", DB_KEYS.NEWSLETTER) LEGACY_KEY_MAPPINGS)
    by (simpl; auto).
  assert (Hd : localStorage MigrationExample.world !! "edgemakers_newsletter"
               = Some (Json MigrationExample.subscribers)) by reflexivity.
  assert (He : holds_data (localStorage MigrationExample.world !! DB_KEYS.NEWSLETTER)
               = false) by reflexivity.
  assert (Ha : forall st, host_setItem Sample.host st DB_KEYS.NEWSLETTER
                            (Json MigrationExample.subscribers) = None)
    by (intros; reflexivity).
  split; [exact Hw|]. split; [exact Hin|]. split; [exact Hd|]. split; [exact He|].
  split; [exact Ha|].
  exact (proj2 (proj1 (proj2 (legacy_migration Sample.host MigrationExample.world Hw))
                  _ _ Hin) _ Hd He Ha).
Defined.

(* ================================================================= *)
(** ** A write the host refuses for lack of space *)

Definition quota_message : string :=
  "Failed to save data even after cleanup. Please export your data and clear old entries.".







Module QuotaExample.

(** Five contacts, the second one the oldest. *)
Definition contacts : list Contact :=
  [Sample.contact "c1" "2025-10-05T08:00:00.000Z";
   Sample.contact "c2" "2025-10-01T08:00:00.000Z";
   Sample.contact "c3" "2025-11-01T08:00:00.000Z";
   Sample.contact "c4" "2025-11-20T08:00:00.000Z";
   Sample.contact "c5" "2025-12-20T08:00:00.000Z"].

(** What the eviction leaves of them: the oldest fifth is gone. *)
Definition evicted : list Contact :=
  [Sample.contact "c1" "2025-10-05T08:00:00.000Z";
   Sample.contact "c3" "2025-11-01T08:00:00.000Z";
   Sample.contact "c4" "2025-11-20T08:00:00.000Z";
   Sample.contact "c5" "2025-12-20T08:00:00.000Z"].

Definition services : list Service := [Sample.service "s1" "House Keeping"].

(** A store of 1113 characters in a browser that holds 1300: the services
    (324 characters with their key) do not fit, and fit once the oldest
    contact is gone. *)
Definition host : Host := browser (limited 1300) new_year_2026.

Definition world : World :=
  initial_world {[ DB_KEYS.CONTACTS := Json (toJSON contacts) ]}.

End QuotaExample.





(* ================================================================= *)
(** ** Eviction *)

Lemma sort_insert_length {A} (compare : A -> A -> option Z) x l :
  length (sort_insert compare x l) = S (length l).
Proof.
  induction l as [|y l IH]; simpl; [reflexivity|].
  destruct (is_negative (compare y x)); simpl; [now rewrite IH|reflexivity].
Qed.

Lemma sort_length {A} (compare : A -> A -> option Z) l :
  length (sort compare l) = length l.
Proof.
  unfold sort. induction l as [|x l IH]; simpl; [reflexivity|].
  now rewrite sort_insert_length, IH.
Qed.

(** The truncated collection is at most four fifths of the collection. *)
Lemma eviction_keeps_four_fifths {A} (compare : A -> A -> option Z) (l : list A) :
  let sorted := sort compare l in
  (5 * length (slice (ceil_fifth (length sorted)) sorted) <= 4 * length l)%nat.
Proof.
  cbv zeta. unfold slice, ceil_fifth. rewrite length_drop, sort_length.
  pose proof (Nat.div_mod_eq (length l + 4) 5) as Hdiv.
  pose proof (Nat.mod_upper_bound (length l + 4) 5) as Hmod. lia.
Qed.

(** C4. The eviction of the example removes the oldest of five contacts
    (four are left, at most 0.8 x 5) and frees 328 bytes of the estimate,
    more than half of the 604 bytes asked for; yet it reports failure: both
    sizes it compares come from the size cache, filled by the first
    measure, so the bytes it counts as freed are 0. *)
Theorem eviction_reports_failure_after_freeing_enough :
  let bytesNeeded := 604 in
  let w := QuotaExample.world in
  let w' := exec (cleanupOldData QuotaExample.host bytesNeeded) w in
  result (cleanupOldData QuotaExample.host bytesNeeded) w = Ok false
  /\ result (getContacts QuotaExample.host) w' = Ok QuotaExample.evicted
  /\ storage_total (localStorage w) - storage_total (localStorage w') = 328
  /\ bytesNeeded <= 2 * 328
  /\ result (getStorageSize QuotaExample.host) w'
     = Ok (storage_total (localStorage w)).
Proof. vm_compute. repeat split; try reflexivity. discriminate. Qed.

(** The size cache answers every measure of the call: it holds a positive
    size and no clock reading is 10 s past the moment it was filled. *)
Definition cache_warm (host : Host) (w : World) : Prop :=
  0 < cachedStorageSize w
  /\ forall i, timeAt host i - lastStorageCheckTime w < STORAGE_CHECK_COOLDOWN.

(** The size cache is as it was. *)
Definition cache_kept (w w' : World) : Prop :=
  cachedStorageSize w' = cachedStorageSize w
  /\ lastStorageCheckTime w' = lastStorageCheckTime w.

Lemma cache_kept_warm host w w' : cache_kept w w' -> cache_warm host w -> cache_warm host w'.
Proof. intros (Hc&Ht) (Hpos&Hfresh). split; [now rewrite Hc|]. intros i. now rewrite Ht. Qed.

Section Evicting.
Context (host : Host) (Hwindow : window_defined host = true).

Lemma getStorageSize_fills_cache w :
  result (getStorageSize host) w
  = Ok (cachedStorageSize (exec (getStorageSize host) w)).
Proof.
  unfold result, exec, getStorageSize. rewrite Hwindow. simpl.
  unfold mbind, M_bind, Date_now, gets. simpl.
  destruct (_ && _)%bool; reflexivity.
Qed.

Lemma wp_getStorageSize_warm w Q :
  cache_warm host w ->
  (forall w', unchanged w w' -> cache_kept w w' -> Q (Ok (cachedStorageSize w)) w') ->
  wp (getStorageSize host) w Q.
Proof.
  intros (Hpos&Hfresh) HQ. unfold getStorageSize. rewrite Hwindow. simpl.
  wp_step. apply wp_Date_now. do 2 (wp_step; wp_step). simpl.
  assert (Hcached : (0 <? cachedStorageSize w)%Z = true) by now apply Z.ltb_lt.
  assert (Hnow : (timeAt host (reads w) - lastStorageCheckTime w
                  <? STORAGE_CHECK_COOLDOWN)%Z = true) by apply Z.ltb_lt, Hfresh.
  rewrite Hcached, Hnow. simpl. wp_step.
  apply HQ; now repeat split.
Qed.

Lemma wp_evict_write_cache key text topic w0 w Q :
  cache_kept w0 w ->
  (forall w', cache_kept w0 w' -> Q (Ok tt) w') ->
  wp (try_catch (localStorage_setItem host key text;; emit topic)
                (fun _ => mret tt)) w Q.
Proof.
  intros Hk HQ. wp_step. wp_step. apply wp_localStorage_setItem.
  - intros _. apply wp_emit. apply HQ. exact Hk.
  - intros e _. wp_step. now apply HQ.
Qed.

(** Once the first measure of the call has left the cache warm, the second
    measure answers from the cache: the eviction counts 0 bytes freed and
    reports failure for every positive request, whatever it removed. *)
Lemma cleanupOldData_cached_size bytesNeeded w :
  cache_warm host (exec (getStorageSize host) w) ->
  0 < bytesNeeded ->
  result (cleanupOldData host bytesNeeded) w = Ok false.
Proof.
  intros Hwarm Hpos.
  apply (wp_elim (cleanupOldData host bytesNeeded) w (fun r _ => r = Ok false)).
  unfold cleanupOldData. do 2 wp_step.
  eapply wp_run.
  { rewrite (surjective_pairing (getStorageSize host w)).
    change (fst (getStorageSize host w)) with (result (getStorageSize host) w).
    rewrite getStorageSize_fills_cache. reflexivity. }
  change (snd (getStorageSize host w)) with (exec (getStorageSize host) w).
  set (w1 := exec (getStorageSize host) w) in *.
  wp_step. apply wp_getItem; [exact Hwindow|].
  wp_step. apply wp_getItem; [exact Hwindow|].
  wp_step. apply wp_getItem; [exact Hwindow|].
  cbv zeta. wp_step. rewrite Hwindow.
  assert (Hk1 : cache_kept w1 w1) by now split.
  wp_step. eapply wp_evict_write_cache; [exact Hk1|]. intros w2 Hk2.
  wp_step. eapply wp_evict_write_cache; [exact Hk2|]. intros w3 Hk3.
  eapply wp_evict_write_cache; [exact Hk3|]. intros w4 Hk4.
  wp_step. apply wp_getStorageSize_warm.
  { exact (cache_kept_warm host w1 w4 Hk4 Hwarm). }
  intros w5 _ _. wp_step.
  destruct Hk4 as (Hc4&_). rewrite Hc4, Z.sub_diag. f_equal.
  apply Z.leb_gt. lia.
Qed.

End Evicting.

(* ================================================================= *)
(** * The rest of the store

    The operations of [src/lib/database.ts] the sections above did not
    need: adding and updating records, the submission collections, the
    duplicate checks, seeding and clearing the store, the CSV exports and
    the event emitter. *)

(** [String.prototype.trim] on code units below 256: the white space and
    line terminators are 9 to 13, 32 and 160. *)
Definition is_space (c : ascii) : bool :=
  let n := nat_of_ascii c in
  (((9 <=? n)%nat && (n <=? 13)%nat) || (n =? 32)%nat || (n =? 160)%nat)%bool.

Fixpoint trimStart (s : string) : string :=
  match s with
  | String c r => if is_space c then trimStart r else s
  | EmptyString => EmptyString
  end.

Fixpoint trimEnd (s : string) : string :=
  match s with
  | String c r =>
      match trimEnd r with
      | EmptyString => if is_space c then EmptyString else String c EmptyString
      | r' => String c r'
      end
  | EmptyString => EmptyString
  end.

Definition trim (s : string) : string := trimEnd (trimStart s).

(** [Array.prototype.findIndex]; [None] is [-1]. *)
Fixpoint findIndex {A} (p : A -> bool) (l : list A) : option nat :=
  match l with
  | [] => None
  | x :: r => if p x then Some 0%nat else option_map S (findIndex p r)
  end.

(** [Partial<Service>] and the other arguments of the update operations:
    the properties an update carries. *)
Record ServiceUpdates := {
  updates_service_id : option string;
  updates_service_title : option string;
  updates_service_description : option string;
  updates_service_image : option ImagePlaceholder;
  updates_service_icon : option string;
  updates_service_category : option string;
  updates_service_googleFormUrl : option string;
  updates_service_active : option bool
}.

Record TeamMemberUpdates := {
  updates_member_id : option string;
  updates_member_name : option string;
  updates_member_role : option string;
  updates_member_bio : option string;
  updates_member_image : option ImagePlaceholder;
  updates_member_order : option Z;
  updates_member_active : option bool
}.

Record TestimonialUpdates := {
  updates_testimonial_id : option string;
  updates_testimonial_quote : option string;
  updates_testimonial_author : option string;
  updates_testimonial_company : option string;
  updates_testimonial_active : option bool
}.

Record JobUpdates := {
  updates_job_id : option string;
  updates_job_title : option string;
  updates_job_department : option string;
  updates_job_location : option string;
  updates_job_type : option string;
  updates_job_description : option string;
  updates_job_requirements : option (list string);
  updates_job_experience : option string;
  updates_job_salary : option string;
  updates_job_active : option bool
}.

(** A property of [{ ...record, ...updates }]: the update's when it has
    one. *)
Definition over {A} (update : option A) (old : A) : A := default old update.

(** The same for a property the record itself may lack. *)
Definition over_opt {A} (update : option A) (old : option A) : option A :=
  match update with Some x => Some x | None => old end.

(** [{ ...services[index], ...updates }] *)
Definition spread_Service (service : Service) (updates : ServiceUpdates) : Service :=
  {| service_id := over (updates_service_id updates) (service_id service);
     service_title := over (updates_service_title updates) (service_title service);
     service_description :=
       over (updates_service_description updates) (service_description service);
     service_image := over (updates_service_image updates) (service_image service);
     service_icon := over (updates_service_icon updates) (service_icon service);
     service_category :=
       over (updates_service_category updates) (service_category service);
     service_googleFormUrl :=
       over (updates_service_googleFormUrl updates) (service_googleFormUrl service);
     service_active :=
       over_opt (updates_service_active updates) (service_active service) |}.

Definition spread_TeamMember (member : TeamMember) (updates : TeamMemberUpdates)
  : TeamMember :=
  {| member_id := over (updates_member_id updates) (member_id member);
     member_name := over (updates_member_name updates) (member_name member);
     member_role := over (updates_member_role updates) (member_role member);
     member_bio := over (updates_member_bio updates) (member_bio member);
     member_image := over (updates_member_image updates) (member_image member);
     member_order := over_opt (updates_member_order updates) (member_order member);
     member_active := over_opt (updates_member_active updates) (member_active member) |}.

Definition spread_Testimonial (testimonial : Testimonial)
    (updates : TestimonialUpdates) : Testimonial :=
  {| testimonial_id :=
       over (updates_testimonial_id updates) (testimonial_id testimonial);
     testimonial_quote :=
       over (updates_testimonial_quote updates) (testimonial_quote testimonial);
     testimonial_author :=
       over (updates_testimonial_author updates) (testimonial_author testimonial);
     testimonial_company :=
       over (updates_testimonial_company updates) (testimonial_company testimonial);
     testimonial_active :=
       over_opt (updates_testimonial_active updates)
         (testimonial_active testimonial) |}.

Definition spread_Job (job : Job) (updates : JobUpdates) : Job :=
  {| job_id := over (updates_job_id updates) (job_id job);
     job_title := over (updates_job_title updates) (job_title job);
     job_department := over (updates_job_department updates) (job_department job);
     job_location := over (updates_job_location updates) (job_location job);
     job_type := over (updates_job_type updates) (job_type job);
     job_description := over (updates_job_description updates) (job_description job);
     job_requirements :=
       over (updates_job_requirements updates) (job_requirements job);
     job_experience := over_opt (updates_job_experience updates) (job_experience job);
     job_salary := over_opt (updates_job_salary updates) (job_salary job);
     job_active := over_opt (updates_job_active updates) (job_active job) |}.

(** [{ ...service, id }]: the argument's own [id], if it has one, is
    replaced. *)
Definition with_service_id (id : string) (s : Service) : Service :=
  {| service_id := id; service_title := service_title s;
     service_description := service_description s;
     service_image := service_image s; service_icon := service_icon s;
     service_category := service_category s;
     service_googleFormUrl := service_googleFormUrl s;
     service_active := service_active s |}.

Definition with_member_id (id : string) (m : TeamMember) : TeamMember :=
  {| member_id := id; member_name := member_name m; member_role := member_role m;
     member_bio := member_bio m; member_image := member_image m;
     member_order := member_order m; member_active := member_active m |}.

Definition with_testimonial_id (id : string) (t : Testimonial) : Testimonial :=
  {| testimonial_id := id; testimonial_quote := testimonial_quote t;
     testimonial_author := testimonial_author t;
     testimonial_company := testimonial_company t;
     testimonial_active := testimonial_active t |}.

Definition with_job_id (id : string) (j : Job) : Job :=
  {| job_id := id; job_title := job_title j; job_department := job_department j;
     job_location := job_location j; job_type := job_type j;
     job_description := job_description j; job_requirements := job_requirements j;
     job_experience := job_experience j; job_salary := job_salary j;
     job_active := job_active j |}.

(** The argument of [initialize]. *)
Record DefaultData := {
  default_services : option (list Service);
  default_team : option (list TeamMember);
  default_testimonials : option (list Testimonial);
  default_jobs : option (list Job)
}.

(** The answers of the duplicate checks. *)
Record ContactCheck := {
  contact_isDuplicate : bool;
  lastSubmission : option Contact
}.


(** [minutesSince < minutesThreshold]; [None] is a number of minutes that
    is below no threshold ([NaN], [Infinity]). *)
Definition below (minutesSince : option Z) (minutesThreshold : Z) : bool :=
  match minutesSince with
  | Some m => (m <? minutesThreshold)%Z
  | None => false
  end.

Definition newline : string := String (ascii_of_nat 10) EmptyString.

(** [stringValue.replace]: every double quote is written twice. *)
Fixpoint double_quotes (s : string) : string :=
  match s with
  | String c r =>
      if Ascii.eqb c (ascii_of_nat 34) then String c (String c (double_quotes r))
      else String c (double_quotes r)
  | EmptyString => EmptyString
  end.

(** The helper [escapeCSVField] of the CSV exports, on a string. *)
Definition escapeCSVField (value : string) : string :=
  dquote ++ double_quotes value ++ dquote.

Definition contact_row (contact : Contact) : list string :=
  [escapeCSVField (str_or (contact_id contact) EmptyString);
   escapeCSVField (str_or (contact_name contact) EmptyString);
   escapeCSVField (str_or (contact_email contact) EmptyString);
   escapeCSVField (str_or (contact_phone contact) EmptyString);
   escapeCSVField (str_or (contact_service contact) EmptyString);
   escapeCSVField (str_or (contact_message contact) EmptyString);
   escapeCSVField (str_or (contact_submittedAt contact) EmptyString);
   escapeCSVField (str_or (contact_status contact) "new")].

(** [s.email || empty] for a property that may be absent. *)
Definition or_empty (o : option string) : string :=
  str_or (default EmptyString o) EmptyString.

Definition email_row (s : NewsletterSubscriber) : list string :=
  [escapeCSVField (or_empty (subscriber_email s));
   escapeCSVField (str_or (subscriber_subscribedAt s) EmptyString);
   escapeCSVField (str_or (subscriber_status s) EmptyString)].

Definition whatsapp_row (s : NewsletterSubscriber) : list string :=
  [escapeCSVField (or_empty (subscriber_whatsapp s));
   escapeCSVField (or_empty (subscriber_email s));
   escapeCSVField (str_or (subscriber_subscribedAt s) EmptyString);
   escapeCSVField (str_or (subscriber_status s) EmptyString)].

(** [s.whatsapp && String(s.whatsapp).trim()] *)
Definition has_whatsapp (s : NewsletterSubscriber) : bool :=
  match subscriber_whatsapp s with
  | Some number => (nonempty number && nonempty (trim number))%bool
  | None => false
  end.

(** The header line and one line a row, the cells of a line joined by
    commas and the lines by line breaks. *)
Definition csv (headers : list string) (rows : list (list string)) : string :=
  join newline (join "," headers :: map (join ",") rows).

Section Store.
Context (host : Host).

(** *** Adding and updating records *)

Definition addService (service : Service) : M unit :=
  services ← getServices host;
  now ← Date_now host;
  suffix ← Math_random host;
  let newService :=
    with_service_id ("service-" ++ string_of_Z now ++ "-" ++ suffix) service in
  setServices host (services ++ [newService])%list;;
  logActivity host action_create entity_service (service_id newService)
    (service_title newService) None.

Definition updateService (id : string) (updates : ServiceUpdates) : M unit :=
  services ← getServices host;
  match findIndex (fun s => String.eqb (service_id s) id) services with
  | Some index =>
      match services !! index with
      | Some service =>
          let serviceName := service_title service in
          setServices host (<[index := spread_Service service updates]> services);;
          logActivity host action_update entity_service id serviceName
            (Some "Service updated")
      | None => throw TypeError
      end
  | None => mret tt
  end.

Definition addTeamMember (member : TeamMember) : M unit :=
  team ← getTeam host;
  now ← Date_now host;
  suffix ← Math_random host;
  let newMember :=
    with_member_id ("team-" ++ string_of_Z now ++ "-" ++ suffix) member in
  setTeam host (team ++ [newMember])%list;;
  logActivity host action_create entity_team (member_id newMember)
    (member_name newMember) None.

Definition updateTeamMember (id : string) (updates : TeamMemberUpdates) : M unit :=
  team ← getTeam host;
  match findIndex (fun m => String.eqb (member_id m) id) team with
  | Some index =>
      match team !! index with
      | Some member =>
          let memberName := member_name member in
          setTeam host (<[index := spread_TeamMember member updates]> team);;
          logActivity host action_update entity_team id memberName
            (Some "Team member updated")
      | None => throw TypeError
      end
  | None => mret tt
  end.

Definition addTestimonial (testimonial : Testimonial) : M unit :=
  testimonials ← getTestimonials host;
  now ← Date_now host;
  suffix ← Math_random host;
  let newTestimonial :=
    with_testimonial_id ("testimonial-" ++ string_of_Z now ++ "-" ++ suffix)
      testimonial in
  setTestimonials host (testimonials ++ [newTestimonial])%list;;
  logActivity host action_create entity_testimonial (testimonial_id newTestimonial)
    (testimonial_author newTestimonial) None.

Definition updateTestimonial (id : string) (updates : TestimonialUpdates) : M unit :=
  testimonials ← getTestimonials host;
  match findIndex (fun t => String.eqb (testimonial_id t) id) testimonials with
  | Some index =>
      match testimonials !! index with
      | Some testimonial =>
          let testimonialAuthor := testimonial_author testimonial in
          setTestimonials host
            (<[index := spread_Testimonial testimonial updates]> testimonials);;
          logActivity host action_update entity_testimonial id testimonialAuthor
            (Some "Testimonial updated")
      | None => throw TypeError
      end
  | None => mret tt
  end.

Definition addJob (job : Job) : M unit :=
  jobs ← getJobs host;
  now ← Date_now host;
  suffix ← Math_random host;
  let newJob := with_job_id ("job-" ++ string_of_Z now ++ "-" ++ suffix) job in
  setJobs host (jobs ++ [newJob])%list;;
  logActivity host action_create entity_job (job_id newJob) (job_title newJob) None.

Definition updateJob (id : string) (updates : JobUpdates) : M unit :=
  jobs ← getJobs host;
  match findIndex (fun j => String.eqb (job_id j) id) jobs with
  | Some index =>
      match jobs !! index with
      | Some job =>
          let jobTitle := job_title job in
          setJobs host (<[index := spread_Job job updates]> jobs);;
          logActivity host action_update entity_job id jobTitle (Some "Job updated")
      | None => throw TypeError
      end
  | None => mret tt
  end.

(** *** Submissions *)

Definition addContact (contact : Contact) : M unit :=
  contacts ← getContacts host;
  setItem host DB_KEYS.CONTACTS (contacts ++ [contact])%list;;
  emit topic_contacts;;
  logActivity host action_create entity_contact (contact_id contact)
    (str_or (contact_name contact) (contact_email contact)) None.

Definition addNewsletterSubscriber (subscriber : NewsletterSubscriber) : M unit :=
  subscribers ← getNewsletterSubscribers host;
  setItem host DB_KEYS.NEWSLETTER (subscribers ++ [subscriber])%list;;
  emit topic_newsletter;;
  logActivity host action_create entity_newsletter (subscriber_id subscriber)
    (str_or (default EmptyString (subscriber_email subscriber))
       (str_or (default EmptyString (subscriber_whatsapp subscriber)) "Subscriber"))
    None.

Definition addApplication (application : JobApplication) : M unit :=
  applications ← getApplications host;
  setItem host DB_KEYS.APPLICATIONS (applications ++ [application])%list;;
  emit topic_applications;;
  logActivity host action_create entity_application (application_id application)
    (application_name application)
    (Some ("Position: " ++ application_position application)).

(** *** Duplicate checks *)

(** [Math.floor(diffMs / (1000 * 60))]; the quotient of two integers below
    [2^53] by 60000 is rounded by less than 1/60000, so its floor is the
    integer quotient.  An invalid date gives [NaN]. *)
Definition getMinutesSince (isoTimestamp : string) : M (option Z) :=
  try_catch
    (let timestamp := Date_parse host isoTimestamp in
     now ← Date_now host;
     mret (diffMs ← time_diff (Some now) timestamp; Some (diffMs / (1000 * 60))))
    (fun _ => mret None).


(** The comparison of the two duplicate checks: latest first. *)
Definition latest_first {A} (stamp : A -> string) (a b : A) : option Z :=
  time_diff (Date_parse host (stamp b)) (Date_parse host (stamp a)).

Definition isRecentContactSubmission (email : string) (minutesThreshold : Z)
  : M ContactCheck :=
  try_catch
    (contacts ← getContacts host;
     let matchingContacts :=
       List.filter
         (fun c => String.eqb (toLowerCase (contact_email c)) (toLowerCase email))
         contacts in
     if (length matchingContacts =? 0)%nat
     then mret {| contact_isDuplicate := false; lastSubmission := None |}
     else
       match sort (latest_first contact_submittedAt) matchingContacts with
       | last :: _ =>
           minutesSince ← getMinutesSince (contact_submittedAt last);
           if below minutesSince minutesThreshold
           then mret {| contact_isDuplicate := true; lastSubmission := Some last |}
           else mret {| contact_isDuplicate := false; lastSubmission := Some last |}
       | [] => throw TypeError
       end)
    (fun _ => mret {| contact_isDuplicate := false; lastSubmission := None |}).


(** *** Seeding and clearing the store *)

(** [if (this.getX().length === 0 && defaultData.x) this.setX(defaultData.x)] *)
Definition seed {T} (get : M (list T)) (set : list T -> M unit)
    (defaults : option (list T)) : M unit :=
  current ← get;
  if (length current =? 0)%nat then when_present defaults set else mret tt.

Definition initialize (defaultData : DefaultData) : M unit :=
  if negb (window_defined host) then mret tt
  else
    seed (getServices host) (setServices host) (default_services defaultData);;
    seed (getTeam host) (setTeam host) (default_team defaultData);;
    seed (getTestimonials host) (setTestimonials host)
      (default_testimonials defaultData);;
    seed (getJobs host) (setJobs host) (default_jobs defaultData).

Definition clearAll : M unit :=
  if negb (window_defined host) then mret tt
  else
    logActivity host action_delete entity_backup "clear-all" "Clear All Data" None;;
    forEach DB_KEYS.values localStorage_removeItem;;
    forEach LEGACY_KEY_MAPPINGS (fun '(legacy, _) => localStorage_removeItem legacy);;
    emit topic_services;;
    emit topic_team;;
    emit topic_testimonials;;
    emit topic_jobs;;
    emit topic_users;;
    emit topic_contacts;;
    emit topic_newsletter;;
    emit topic_applications;;
    emit topic_activityLogs.

(** *** CSV exports *)

Definition exportContactsAsCSV : M string :=
  try_catch
    (contacts ← getContacts host;
     if (length contacts =? 0)%nat then mret EmptyString
     else
       let headers :=
         ["ID"; "Name"; "Email"; "Phone"; "Service"; "Message"; "Submitted At";
          "Status"] in
       mret (csv headers (map contact_row contacts)))
    (fun _ => mret EmptyString).

Definition exportNewsletterEmailsAsCSV : M string :=
  try_catch
    (subscribers ← getNewsletterSubscribers host;
     if (length subscribers =? 0)%nat then mret EmptyString
     else
       let headers := ["Email"; "Subscribed At"; "Status"] in
       mret (csv headers (map email_row subscribers)))
    (fun _ => mret EmptyString).

Definition exportNewsletterWhatsAppAsCSV : M string :=
  try_catch
    (subscribers ← getNewsletterSubscribers host;
     let filtered := List.filter has_whatsapp subscribers in
     if (length filtered =? 0)%nat then mret EmptyString
     else
       let headers := ["WhatsApp Number"; "Email"; "Subscribed At"; "Status"] in
       mret (csv headers (map whatsapp_row filtered)))
    (fun _ => mret EmptyString).

End Store.

(* ================================================================= *)
(** ** Adding, updating and deleting records *)

Lemma bind_run {A B} (m : M A) (f : A -> M B) w a w' :
  m w = (Ok a, w') -> (m ≫= f) w = f a w'.
Proof. intros Hm. unfold mbind, M_bind. now rewrite Hm. Qed.

(** A read of the store returns and changes nothing, in a browser or not. *)
Lemma getItem_reads (host : Host) {T} `{JSONData T} key (d : T) w :
  exists x, getItem host key d w = (Ok x, w).
Proof.
  destruct (window_defined host) eqn:Hw.
  - eexists. now apply getItem_browser.
  - exists d. unfold getItem. now rewrite Hw.
Qed.

Lemma getItem_result (host : Host) {T} `{JSONData T} key (d x : T) w :
  result (getItem host key d) w = Ok x -> getItem host key d w = (Ok x, w).
Proof.
  destruct (getItem_reads host key d w) as [y Hy]. unfold result. rewrite Hy.
  simpl. now intros [= ->].
Qed.

Lemma findIndex_absent {A} (key : A -> string) (id : string) (l : list A) :
  ~ In id (map key l) -> findIndex (fun x => String.eqb (key x) id) l = None.
Proof.
  induction l as [|x l IH]; simpl; [reflexivity|]. intros Hnot.
  destruct (String.eqb_spec (key x) id) as [Heq|Hne].
  - exfalso. apply Hnot. now left.
  - rewrite IH; [reflexivity|]. intros Hin. apply Hnot. now right.
Qed.

Lemma findIndex_first {A} (p : A -> bool) (l : list A) (index : nat) (x : A) :
  l !! index = Some x -> p x = true ->
  (forall j y, (j < index)%nat -> l !! j = Some y -> p y = false) ->
  findIndex p l = Some index.
Proof.
  revert index. induction l as [|y l IH]; intros index Hx Hp Hbefore.
  - discriminate Hx.
  - destruct index as [|index]; simpl in *.
    + injection Hx as ->. now rewrite Hp.
    + rewrite (Hbefore 0%nat y) by (reflexivity || lia).
      rewrite (IH index Hx Hp); [reflexivity|].
      intros j z Hj Hz. apply (Hbefore (S j) z); [lia|exact Hz].
Qed.

Lemma findIndex_Some {A} (p : A -> bool) (l : list A) (index : nat) :
  findIndex p l = Some index ->
  exists x, l !! index = Some x /\ p x = true
            /\ forall j y, (j < index)%nat -> l !! j = Some y -> p y = false.
Proof.
  revert index. induction l as [|y l IH]; intros index Hf; [discriminate Hf|].
  simpl in Hf. destruct (p y) eqn:Hy.
  - injection Hf as <-. exists y. repeat split; [exact Hy|]. intros j z Hj. lia.
  - destruct (findIndex p l) as [i|]; [|discriminate Hf]. injection Hf as <-.
    destruct (IH i eq_refl) as (x&Hx&Hp&Hbefore). exists x.
    split; [exact Hx|]. split; [exact Hp|].
    intros [|j] z Hj Hz; simpl in Hz.
    + now injection Hz as <-.
    + apply (Hbefore j z); [lia|exact Hz].
Qed.

(** The first record with a given id, as [Array.prototype.find] and
    [findIndex] see it. *)
Definition first_with {A} (key : A -> string) (id : string) (l : list A)
    (index : nat) (x : A) : Prop :=
  l !! index = Some x /\ key x = id
  /\ forall j y, (j < index)%nat -> l !! j = Some y -> key y <> id.

Lemma first_with_findIndex {A} (key : A -> string) id (l : list A) index x :
  first_with key id l index x ->
  findIndex (fun y => String.eqb (key y) id) l = Some index.
Proof.
  intros (Hx&Hid&Hbefore). eapply findIndex_first; [exact Hx| |].
  - now apply String.eqb_eq.
  - intros j y Hj Hy. apply String.eqb_neq. eapply Hbefore; eassumption.
Qed.

Lemma first_with_find {A} (key : A -> string) id (l : list A) index x :
  first_with key id l index x ->
  List.find (fun y => String.eqb (key y) id) l = Some x.
Proof.
  revert index. induction l as [|y l IH]; intros index (Hx&Hid&Hbefore).
  - discriminate Hx.
  - destruct index as [|index]; simpl in *.
    + injection Hx as ->. apply String.eqb_eq in Hid. now rewrite Hid.
    + destruct (String.eqb_spec (key y) id) as [Heq|Hne].
      * exfalso. apply (Hbefore 0%nat y); [lia|reflexivity|exact Heq].
      * apply (IH index). split; [exact Hx|]. split; [exact Hid|].
        intros j z Hj Hz. apply (Hbefore (S j) z); [lia|exact Hz].
Qed.

Lemma filter_id_removes {A} (key : A -> string) (id : string) (l : list A) :
  ~ In id (map key (List.filter (fun x => negb (String.eqb (key x) id)) l)).
Proof.
  intros Hin. apply in_map_iff in Hin. destruct Hin as (x&Hx&Hin).
  apply List.filter_In in Hin. destruct Hin as [_ Hne].
  apply String.eqb_eq in Hx. now rewrite Hx in Hne.
Qed.

Section WritingFacts.
Context (host : Host).
Hypothesis browser_runtime : window_defined host = true.
Hypothesis accepted : accepts_all host.

(** A call of [logActivity] has put its entry at the end of the log, after
    the entries of [w] the retention sweep keeps. *)
Definition log_ends_with (w w' : World) (action : ActivityAction)
    (entityType : EntityType) (entityId entityName : string)
    (details : option string) : Prop :=
  exists entry cutoffDate,
    default_cutoff host cutoffDate
    /\ result (getActivityLogs host) w'
       = Ok (swept host cutoffDate (activity_logs w) ++ [entry])%list
    /\ log_action entry = action
    /\ log_entityType entry = entityType
    /\ log_entityId entry = entityId
    /\ log_entityName entry = entityName
    /\ log_details entry = details.

(** The pattern of every editing operation: write the collection, emit
    its topic, log. *)
Lemma wp_write_emit_log {T} `{JSONData T} key topic (l : T) action entityType
    entityId entityName details w Q :
  key <> DB_KEYS.ACTIVITY_LOGS ->
  is_warning topic = false ->
  topic <> topic_activityLogs ->
  (forall w',
     localStorage w' !! key = Some (Json (toJSON l)) ->
     touches_only [key; DB_KEYS.ACTIVITY_LOGS] w w' ->
     occurrences topic (emitted w') = S (occurrences topic (emitted w)) ->
     (keeps_new_entries host ->
      log_ends_with w w' action entityType entityId entityName details) ->
     dispatched w' = dispatched w ->
     Q (Ok tt) w') ->
  wp ((setItem host key l;; emit topic);;
      logActivity host action entityType entityId entityName details) w Q.
Proof.
  intros Hkey Hwarn Htopic HQ.
  wp_step. apply wp_write_emit; [assumption..|].
  intros w1 Hl1 He1 Hd1.
  apply wp_logActivity_accepted; [assumption..|].
  intros w2 entry cutoffDate topics user Hentry Hcut Hl2 He2 Hall Hd2.
  assert (Hlogs1 : activity_logs w1 = activity_logs w).
  { unfold activity_logs. rewrite Hl1. now apply stored_insert_ne. }
  apply HQ.
  - rewrite Hl2, lookup_insert_ne by (intros Heq; now apply Hkey).
    rewrite Hl1. apply lookup_insert_eq.
  - intros k Hk. rewrite Hl2, lookup_insert_ne by (intros <-; apply Hk; simpl; auto).
    rewrite Hl1. apply lookup_insert_ne. intros <-. apply Hk. now left.
  - rewrite <- (occurrences_visible topic (emitted w2)) by exact Hwarn.
    rewrite He2, He1, !occurrences_app.
    rewrite occurrences_visible by exact Hwarn.
    rewrite (occurrences_other topic topic_activityLogs
               (topic_activityLogs :: topics)); [|exact Htopic|now constructor].
    unfold occurrences at 2. simpl.
    destruct (DatabaseEventType_eq_dec topic topic); [lia|contradiction].
  - intros Hkeep. exists entry, cutoffDate. split; [exact Hcut|].
    pose proof Hentry as (Ha&Ht&Hi&Hn&_&Hdet&_). simpl in Ha, Ht, Hi, Hn, Hdet.
    split; [|now repeat split].
    unfold result, getActivityLogs. rewrite getItem_browser by exact browser_runtime.
    simpl. f_equal. rewrite Hl2, stored_insert, Hlogs1.
    eapply swept_new_entry; [exact Hkeep|exact Hcut|exact Hentry].
  - congruence.
Qed.

Lemma stored_of_result {T} `{JSONData T} key (d x : T) w :
  result (getItem host key d) w = Ok x -> stored key d (localStorage w) = x.
Proof.
  unfold result. rewrite getItem_browser by exact browser_runtime. simpl. congruence.
Qed.

Lemma result_of_stored {T} `{JSONData T} key (d : T) w :
  result (getItem host key d) w = Ok (stored key d (localStorage w)).
Proof. unfold result. now rewrite getItem_browser by exact browser_runtime. Qed.

Lemma stored_of_lookup {T} `{JSONData T} key (d x : T) ls :
  ls !! key = Some (Json (toJSON x)) -> stored key d ls = x.
Proof. intros Hl. unfold stored. now rewrite Hl, ofJSON_toJSON. Qed.

(** What an editing operation leaves: the collection read back, one more
    emission of its topic, the log entry, and the other keys as they were. *)
Definition edited {T} `{JSONData T} (key : string) (topic : DatabaseEventType)
    (w w' : World) (items : list T) (action : ActivityAction)
    (entityType : EntityType) (entityId entityName : string)
    (details : option string) : Prop :=
  result (getItem host key []) w' = Ok items
  /\ touches_only [key; DB_KEYS.ACTIVITY_LOGS] w w'
  /\ occurrences topic (emitted w') = S (occurrences topic (emitted w))
  /\ (keeps_new_entries host ->
      log_ends_with w w' action entityType entityId entityName details).

Lemma wp_edit {T} `{JSONData T} key topic (items : list T) action entityType
    entityId entityName details w0 w :
  key <> DB_KEYS.ACTIVITY_LOGS ->
  is_warning topic = false ->
  topic <> topic_activityLogs ->
  localStorage w = localStorage w0 -> emitted w = emitted w0 ->
  wp ((setItem host key items;; emit topic);;
      logActivity host action entityType entityId entityName details) w
    (fun r w' => r = Ok tt
       /\ edited key topic w0 w' items action entityType entityId entityName details).
Proof.
  intros Hkey Hwarn Htopic Hl He.
  apply wp_write_emit_log; [assumption..|].
  intros w' Hstored Htouch Hocc Hlog _. split; [reflexivity|].
  split; [|split; [|split]].
  - rewrite result_of_stored. f_equal. now apply stored_of_lookup.
  - intros k Hk. rewrite (Htouch k Hk). now rewrite Hl.
  - now rewrite Hocc, He.
  - intros Hkeep. destruct (Hlog Hkeep) as (entry&cutoffDate&Hcut&Hlogs&Hrest).
    exists entry, cutoffDate. split; [exact Hcut|]. split; [|exact Hrest].
    rewrite Hlogs. unfold activity_logs. now rewrite Hl.
Qed.

(** Adding: the new record goes to the end, under an id made of the clock
    and a random suffix. *)
Lemma wp_add_record {T} `{JSONData T} key topic entityType (make : string -> T)
    (id_of name_of : T -> string) w :
  key <> DB_KEYS.ACTIVITY_LOGS ->
  is_warning topic = false ->
  topic <> topic_activityLogs ->
  let new :=
    make (string_of_Z (timeAt host (reads w)) ++ "-" ++ randomAt host (S (reads w))) in
  wp (items ← getItem host key [];
      now ← Date_now host;
      suffix ← Math_random host;
      let newItem := make (string_of_Z now ++ "-" ++ suffix) in
      (setItem host key (items ++ [newItem])%list;; emit topic);;
      logActivity host action_create entityType (id_of newItem) (name_of newItem)
        None) w
    (fun r w' => r = Ok tt
       /\ edited key topic w w' (stored key [] (localStorage w) ++ [new])%list
            action_create entityType (id_of new) (name_of new) None).
Proof.
  intros Hkey Hwarn Htopic new.
  wp_step. apply wp_getItem; [exact browser_runtime|].
  wp_step. apply wp_Date_now. wp_step. apply wp_Math_random.
  apply wp_edit; try assumption; reflexivity.
Qed.

(** Updating: the first record with the id is replaced, in place. *)
Lemma wp_update_record {T} `{JSONData T} key topic entityType
    (id_of name_of : T -> string) (spread : T -> T) id details w index x :
  key <> DB_KEYS.ACTIVITY_LOGS ->
  is_warning topic = false ->
  topic <> topic_activityLogs ->
  first_with id_of id (stored key [] (localStorage w)) index x ->
  wp (items ← getItem host key [];
      match findIndex (fun s => String.eqb (id_of s) id) items with
      | Some index =>
          match items !! index with
          | Some item =>
              (setItem host key (<[index := spread item]> items);; emit topic);;
              logActivity host action_update entityType id (name_of item) details
          | None => throw TypeError
          end
      | None => mret tt
      end) w
    (fun r w' => r = Ok tt
       /\ edited key topic w w' (<[index := spread x]> (stored key [] (localStorage w)))
            action_update entityType id (name_of x) details).
Proof.
  intros Hkey Hwarn Htopic Hfirst.
  wp_step. apply wp_getItem; [exact browser_runtime|].
  rewrite (first_with_findIndex _ _ _ _ _ Hfirst).
  destruct Hfirst as (Hx&_). rewrite Hx.
  apply wp_edit; try assumption; reflexivity.
Qed.

(** Deleting: every record with the id goes; the log names the first. *)
Lemma wp_delete_record {T} `{JSONData T} key topic entityType
    (id_of name_of : T -> string) (unknown : string) id w :
  key <> DB_KEYS.ACTIVITY_LOGS ->
  is_warning topic = false ->
  topic <> topic_activityLogs ->
  let items := stored key [] (localStorage w) in
  let name :=
    match List.find (fun s => String.eqb (id_of s) id) items with
    | Some s => str_or (name_of s) unknown
    | None => unknown
    end in
  wp (items ← getItem host key [];
      (setItem host key
         (List.filter (fun s => negb (String.eqb (id_of s) id)) items);;
       emit topic);;
      logActivity host action_delete entityType id
        match List.find (fun s => String.eqb (id_of s) id) items with
        | Some s => str_or (name_of s) unknown
        | None => unknown
        end None) w
    (fun r w' => r = Ok tt
       /\ edited key topic w w'
            (List.filter (fun s => negb (String.eqb (id_of s) id)) items)
            action_delete entityType id name None).
Proof.
  intros Hkey Hwarn Htopic items name.
  wp_step. apply wp_getItem; [exact browser_runtime|].
  apply wp_edit; try assumption; reflexivity.
Qed.

End WritingFacts.

(** The suffix of a generated id: the clock reading and the random string
    the operation takes first. *)
Definition stamp (host : Host) (w : World) : string :=
  string_of_Z (timeAt host (reads w)) ++ "-" ++ randomAt host (S (reads w)).

(** X1.  Each of the four add operations appends the new record, under the id
    it generates from the clock and a random suffix (whatever id the
    argument carried), returns normally, emits the topic of the collection
    once and logs a [create] entry that names the new id; no other key is
    written.  This holds in a browser that accepts the writes; the log
    entry is there when the clock and the date functions keep a fresh
    entry. *)
Theorem add_appends_a_record (host : Host) (w : World) :
  window_defined host = true ->
  accepts_all host ->
  (forall service services,
     result (getServices host) w = Ok services ->
     let new := with_service_id ("service-" ++ stamp host w) service in
     result (addService host service) w = Ok tt
     /\ edited host DB_KEYS.SERVICES topic_services w
          (exec (addService host service) w) (services ++ [new])
          action_create entity_service (service_id new) (service_title service) None)
  /\ (forall member team,
        result (getTeam host) w = Ok team ->
        let new := with_member_id ("team-" ++ stamp host w) member in
        result (addTeamMember host member) w = Ok tt
        /\ edited host DB_KEYS.TEAM topic_team w
             (exec (addTeamMember host member) w) (team ++ [new])
             action_create entity_team (member_id new) (member_name member) None)
  /\ (forall testimonial testimonials,
        result (getTestimonials host) w = Ok testimonials ->
        let new := with_testimonial_id ("testimonial-" ++ stamp host w) testimonial in
        result (addTestimonial host testimonial) w = Ok tt
        /\ edited host DB_KEYS.TESTIMONIALS topic_testimonials w
             (exec (addTestimonial host testimonial) w) (testimonials ++ [new])
             action_create entity_testimonial (testimonial_id new)
             (testimonial_author testimonial) None)
  /\ (forall job jobs,
        result (getJobs host) w = Ok jobs ->
        let new := with_job_id ("job-" ++ stamp host w) job in
        result (addJob host job) w = Ok tt
        /\ edited host DB_KEYS.JOBS topic_jobs w
             (exec (addJob host job) w) (jobs ++ [new])
             action_create entity_job (job_id new) (job_title job) None).
Proof.
  intros Hw Hacc. split; [|split; [|split]].
  - intros service services Hget new.
    apply (stored_of_result host Hw) in Hget. rewrite <- Hget.
    pose proof (wp_add_record host Hw Hacc DB_KEYS.SERVICES topic_services
                  entity_service
                  (fun suffix => with_service_id ("service-" ++ suffix) service)
                  service_id service_title w ltac:(discriminate) eq_refl
                  ltac:(discriminate)) as Hwp.
    apply wp_elim in Hwp. exact Hwp.
  - intros member team Hget new.
    apply (stored_of_result host Hw) in Hget. rewrite <- Hget.
    pose proof (wp_add_record host Hw Hacc DB_KEYS.TEAM topic_team entity_team
                  (fun suffix => with_member_id ("team-" ++ suffix) member)
                  member_id member_name w ltac:(discriminate) eq_refl
                  ltac:(discriminate)) as Hwp.
    apply wp_elim in Hwp. exact Hwp.
  - intros testimonial testimonials Hget new.
    apply (stored_of_result host Hw) in Hget. rewrite <- Hget.
    pose proof (wp_add_record host Hw Hacc DB_KEYS.TESTIMONIALS topic_testimonials
                  entity_testimonial
                  (fun suffix =>
                     with_testimonial_id ("testimonial-" ++ suffix) testimonial)
                  testimonial_id testimonial_author w ltac:(discriminate) eq_refl
                  ltac:(discriminate)) as Hwp.
    apply wp_elim in Hwp. exact Hwp.
  - intros job jobs Hget new.
    apply (stored_of_result host Hw) in Hget. rewrite <- Hget.
    pose proof (wp_add_record host Hw Hacc DB_KEYS.JOBS topic_jobs entity_job
                  (fun suffix => with_job_id ("job-" ++ suffix) job)
                  job_id job_title w ltac:(discriminate) eq_refl
                  ltac:(discriminate)) as Hwp.
    apply wp_elim in Hwp. exact Hwp.
Qed.

Lemma add_appends_a_record_witness :
  window_defined Sample.host = true
  /\ accepts_all Sample.host
  /\ result (getServices Sample.host) Sample.world
     = Ok [Sample.service "s1" "House Keeping"; Sample.service "s2" "Security"]
  /\ result (getServices Sample.host)
       (exec (addService Sample.host (Sample.service "draft" "Gardening")) Sample.world)
     = Ok [Sample.service "s1" "House Keeping"; Sample.service "s2" "Security";
           Sample.service "service-1767225600000-k3v9x2m1q" "Gardening"].
Proof.
  assert (Hw : window_defined Sample.host = true) by reflexivity.
  assert (Hget : result (getServices Sample.host) Sample.world
                 = Ok [Sample.service "s1" "House Keeping";
                       Sample.service "s2" "Security"]) by (vm_compute; reflexivity).
  split; [exact Hw|]. split; [exact Sample_accepts_all|]. split; [exact Hget|].
  exact (proj1 (proj2 (proj1 (add_appends_a_record Sample.host Sample.world Hw
                                Sample_accepts_all)
                         (Sample.service "draft" "Gardening") _ Hget))).
Defined.

(** X2.  An update of an id that no record of the collection carries does
    nothing at all: it returns normally and leaves the whole state as it
    was, with no write, no topic and no log entry (a delete of such an id
    still writes, emits and logs).  This holds for the four update
    operations, whatever the host. *)
Theorem update_of_absent_id_changes_nothing (host : Host) (w : World) (id : string) :
  (forall services updates,
     result (getServices host) w = Ok services ->
     ~ In id (map service_id services) ->
     updateService host id updates w = (Ok tt, w))
  /\ (forall team updates,
        result (getTeam host) w = Ok team ->
        ~ In id (map member_id team) ->
        updateTeamMember host id updates w = (Ok tt, w))
  /\ (forall testimonials updates,
        result (getTestimonials host) w = Ok testimonials ->
        ~ In id (map testimonial_id testimonials) ->
        updateTestimonial host id updates w = (Ok tt, w))
  /\ (forall jobs updates,
        result (getJobs host) w = Ok jobs ->
        ~ In id (map job_id jobs) ->
        updateJob host id updates w = (Ok tt, w)).
Proof.
  repeat split; intros items updates Hget Habsent; apply getItem_result in Hget.
  - unfold updateService, getServices. rewrite (bind_run _ _ _ _ _ Hget).
    now rewrite findIndex_absent.
  - unfold updateTeamMember, getTeam. rewrite (bind_run _ _ _ _ _ Hget).
    now rewrite findIndex_absent.
  - unfold updateTestimonial, getTestimonials. rewrite (bind_run _ _ _ _ _ Hget).
    now rewrite findIndex_absent.
  - unfold updateJob, getJobs. rewrite (bind_run _ _ _ _ _ Hget).
    now rewrite findIndex_absent.
Qed.

Module EditExample.

(** An update that sets the title and nothing else. *)
Definition retitle (title : string) : ServiceUpdates :=
  {| updates_service_id := None; updates_service_title := Some title;
     updates_service_description := None; updates_service_image := None;
     updates_service_icon := None; updates_service_category := None;
     updates_service_googleFormUrl := None; updates_service_active := None |}.

Definition services : list Service :=
  [Sample.service "s1" "House Keeping"; Sample.service "s2" "Security"].

End EditExample.

Lemma update_of_absent_id_changes_nothing_witness :
  result (getServices Sample.host) Sample.world = Ok EditExample.services
  /\ ~ In "s9" (map service_id EditExample.services)
  /\ updateService Sample.host "s9" (EditExample.retitle "Gardening") Sample.world
     = (Ok tt, Sample.world).
Proof.
  assert (Hget : result (getServices Sample.host) Sample.world
                 = Ok EditExample.services) by (vm_compute; reflexivity).
  assert (Habsent : ~ In "s9" (map service_id EditExample.services)).
  { simpl. intros [H|[H|[]]]; discriminate H. }
  split; [exact Hget|]. split; [exact Habsent|].
  exact (proj1 (update_of_absent_id_changes_nothing Sample.host Sample.world "s9")
           _ (EditExample.retitle "Gardening") Hget Habsent).
Defined.

(** X3.  An update of an id the collection holds replaces the first record
    that carries it by the record with the update's properties laid over
    it, at the same position; every other record, a later one with the
    same id included, stays as it is.  The operation returns normally,
    emits the topic once and logs an [update] entry under the id it was
    called with and the name the record had before the update.  This holds
    for the four update operations, in a browser that accepts the writes. *)
Theorem update_replaces_the_first_match (host : Host) (w : World) (id : string)
    (index : nat) :
  window_defined host = true ->
  accepts_all host ->
  (forall services service updates,
     result (getServices host) w = Ok services ->
     first_with service_id id services index service ->
     result (updateService host id updates) w = Ok tt
     /\ edited host DB_KEYS.SERVICES topic_services w
          (exec (updateService host id updates) w)
          (<[index := spread_Service service updates]> services)
          action_update entity_service id (service_title service)
          (Some "Service updated"))
  /\ (forall team member updates,
        result (getTeam host) w = Ok team ->
        first_with member_id id team index member ->
        result (updateTeamMember host id updates) w = Ok tt
        /\ edited host DB_KEYS.TEAM topic_team w
             (exec (updateTeamMember host id updates) w)
             (<[index := spread_TeamMember member updates]> team)
             action_update entity_team id (member_name member)
             (Some "Team member updated"))
  /\ (forall testimonials testimonial updates,
        result (getTestimonials host) w = Ok testimonials ->
        first_with testimonial_id id testimonials index testimonial ->
        result (updateTestimonial host id updates) w = Ok tt
        /\ edited host DB_KEYS.TESTIMONIALS topic_testimonials w
             (exec (updateTestimonial host id updates) w)
             (<[index := spread_Testimonial testimonial updates]> testimonials)
             action_update entity_testimonial id (testimonial_author testimonial)
             (Some "Testimonial updated"))
  /\ (forall jobs job updates,
        result (getJobs host) w = Ok jobs ->
        first_with job_id id jobs index job ->
        result (updateJob host id updates) w = Ok tt
        /\ edited host DB_KEYS.JOBS topic_jobs w
             (exec (updateJob host id updates) w)
             (<[index := spread_Job job updates]> jobs)
             action_update entity_job id (job_title job) (Some "Job updated")).
Proof.
  intros Hw Hacc. split; [|split; [|split]].
  - intros items item updates Hget Hfirst.
    apply (stored_of_result host Hw) in Hget. rewrite <- Hget in *.
    pose proof (wp_update_record host Hw Hacc DB_KEYS.SERVICES topic_services
                  entity_service service_id service_title
                  (fun s => spread_Service s updates) id (Some "Service updated")
                  w index item ltac:(discriminate) eq_refl ltac:(discriminate)
                  Hfirst) as Hwp.
    apply wp_elim in Hwp. exact Hwp.
  - intros items item updates Hget Hfirst.
    apply (stored_of_result host Hw) in Hget. rewrite <- Hget in *.
    pose proof (wp_update_record host Hw Hacc DB_KEYS.TEAM topic_team
                  entity_team member_id member_name
                  (fun m => spread_TeamMember m updates) id
                  (Some "Team member updated")
                  w index item ltac:(discriminate) eq_refl ltac:(discriminate)
                  Hfirst) as Hwp.
    apply wp_elim in Hwp. exact Hwp.
  - intros items item updates Hget Hfirst.
    apply (stored_of_result host Hw) in Hget. rewrite <- Hget in *.
    pose proof (wp_update_record host Hw Hacc DB_KEYS.TESTIMONIALS topic_testimonials
                  entity_testimonial testimonial_id testimonial_author
                  (fun t => spread_Testimonial t updates) id
                  (Some "Testimonial updated")
                  w index item ltac:(discriminate) eq_refl ltac:(discriminate)
                  Hfirst) as Hwp.
    apply wp_elim in Hwp. exact Hwp.
  - intros items item updates Hget Hfirst.
    apply (stored_of_result host Hw) in Hget. rewrite <- Hget in *.
    pose proof (wp_update_record host Hw Hacc DB_KEYS.JOBS topic_jobs
                  entity_job job_id job_title
                  (fun j => spread_Job j updates) id (Some "Job updated")
                  w index item ltac:(discriminate) eq_refl ltac:(discriminate)
                  Hfirst) as Hwp.
    apply wp_elim in Hwp. exact Hwp.
Qed.

Lemma update_replaces_the_first_match_witness :
  window_defined Sample.host = true
  /\ accepts_all Sample.host
  /\ result (getServices Sample.host) Sample.world = Ok EditExample.services
  /\ first_with service_id "s2" EditExample.services 1 (Sample.service "s2" "Security")
  /\ result (getServices Sample.host)
       (exec (updateService Sample.host "s2" (EditExample.retitle "Guarding"))
          Sample.world)
     = Ok [Sample.service "s1" "House Keeping"; Sample.service "s2" "Guarding"].
Proof.
  assert (Hw : window_defined Sample.host = true) by reflexivity.
  assert (Hget : result (getServices Sample.host) Sample.world
                 = Ok EditExample.services) by (vm_compute; reflexivity).
  assert (Hfirst : first_with service_id "s2" EditExample.services 1
                     (Sample.service "s2" "Security")).
  { split; [reflexivity|]. split; [reflexivity|].
    intros [|j] y Hj Hy; [|lia]. injection Hy as <-. discriminate. }
  split; [exact Hw|]. split; [exact Sample_accepts_all|]. split; [exact Hget|].
  split; [exact Hfirst|].
  exact (proj1 (proj2 (proj1 (update_replaces_the_first_match Sample.host Sample.world
                                "s2" 1 Hw Sample_accepts_all)
                         _ _ (EditExample.retitle "Guarding") Hget Hfirst))).
Defined.

(** X4.  A delete removes every record that carries the id and keeps the
    others in their order; it returns normally, emits the topic once and
    logs a [delete] entry that names the first record that carried the id
    (the fallback name when that record's name is empty).  This holds for
    the four delete operations, in a browser that accepts the writes. *)
Theorem delete_removes_every_match (host : Host) (w : World) (id : string)
    (index : nat) :
  window_defined host = true ->
  accepts_all host ->
  (forall services service,
     result (getServices host) w = Ok services ->
     first_with service_id id services index service ->
     let kept := List.filter (fun s => negb (String.eqb (service_id s) id)) services in
     result (deleteService host id) w = Ok tt
     /\ ~ In id (map service_id kept)
     /\ edited host DB_KEYS.SERVICES topic_services w
          (exec (deleteService host id) w) kept
          action_delete entity_service id
          (str_or (service_title service) "Unknown Service") None)
  /\ (forall team member,
        result (getTeam host) w = Ok team ->
        first_with member_id id team index member ->
        let kept := List.filter (fun m => negb (String.eqb (member_id m) id)) team in
        result (deleteTeamMember host id) w = Ok tt
        /\ ~ In id (map member_id kept)
        /\ edited host DB_KEYS.TEAM topic_team w
             (exec (deleteTeamMember host id) w) kept
             action_delete entity_team id
             (str_or (member_name member) "Unknown Member") None)
  /\ (forall testimonials testimonial,
        result (getTestimonials host) w = Ok testimonials ->
        first_with testimonial_id id testimonials index testimonial ->
        let kept :=
          List.filter (fun t => negb (String.eqb (testimonial_id t) id)) testimonials in
        result (deleteTestimonial host id) w = Ok tt
        /\ ~ In id (map testimonial_id kept)
        /\ edited host DB_KEYS.TESTIMONIALS topic_testimonials w
             (exec (deleteTestimonial host id) w) kept
             action_delete entity_testimonial id
             (str_or (testimonial_author testimonial) "Unknown Author") None)
  /\ (forall jobs job,
        result (getJobs host) w = Ok jobs ->
        first_with job_id id jobs index job ->
        let kept := List.filter (fun j => negb (String.eqb (job_id j) id)) jobs in
        result (deleteJob host id) w = Ok tt
        /\ ~ In id (map job_id kept)
        /\ edited host DB_KEYS.JOBS topic_jobs w
             (exec (deleteJob host id) w) kept
             action_delete entity_job id
             (str_or (job_title job) "Unknown Job") None).
Proof.
  intros Hw Hacc. split; [|split; [|split]].
  - intros items item Hget Hfirst kept.
    apply (stored_of_result host Hw) in Hget. subst items.
    pose proof (wp_delete_record host Hw Hacc DB_KEYS.SERVICES topic_services
                  entity_service service_id service_title "Unknown Service" id w
                  ltac:(discriminate) eq_refl ltac:(discriminate)) as Hwp.
    cbv zeta in Hwp. rewrite (first_with_find _ _ _ _ _ Hfirst) in Hwp.
    apply wp_elim in Hwp. destruct Hwp as [Hr He].
    split; [exact Hr|]. split; [apply filter_id_removes|exact He].
  - intros items item Hget Hfirst kept.
    apply (stored_of_result host Hw) in Hget. subst items.
    pose proof (wp_delete_record host Hw Hacc DB_KEYS.TEAM topic_team
                  entity_team member_id member_name "Unknown Member" id w
                  ltac:(discriminate) eq_refl ltac:(discriminate)) as Hwp.
    cbv zeta in Hwp. rewrite (first_with_find _ _ _ _ _ Hfirst) in Hwp.
    apply wp_elim in Hwp. destruct Hwp as [Hr He].
    split; [exact Hr|]. split; [apply filter_id_removes|exact He].
  - intros items item Hget Hfirst kept.
    apply (stored_of_result host Hw) in Hget. subst items.
    pose proof (wp_delete_record host Hw Hacc DB_KEYS.TESTIMONIALS topic_testimonials
                  entity_testimonial testimonial_id testimonial_author
                  "Unknown Author" id w
                  ltac:(discriminate) eq_refl ltac:(discriminate)) as Hwp.
    cbv zeta in Hwp. rewrite (first_with_find _ _ _ _ _ Hfirst) in Hwp.
    apply wp_elim in Hwp. destruct Hwp as [Hr He].
    split; [exact Hr|]. split; [apply filter_id_removes|exact He].
  - intros items item Hget Hfirst kept.
    apply (stored_of_result host Hw) in Hget. subst items.
    pose proof (wp_delete_record host Hw Hacc DB_KEYS.JOBS topic_jobs
                  entity_job job_id job_title "Unknown Job" id w
                  ltac:(discriminate) eq_refl ltac:(discriminate)) as Hwp.
    cbv zeta in Hwp. rewrite (first_with_find _ _ _ _ _ Hfirst) in Hwp.
    apply wp_elim in Hwp. destruct Hwp as [Hr He].
    split; [exact Hr|]. split; [apply filter_id_removes|exact He].
Qed.

Lemma delete_removes_every_match_witness :
  window_defined Sample.host = true
  /\ accepts_all Sample.host
  /\ result (getServices Sample.host) Sample.world = Ok EditExample.services
  /\ first_with service_id "s2" EditExample.services 1 (Sample.service "s2" "Security")
  /\ result (getServices Sample.host) (exec (deleteService Sample.host "s2") Sample.world)
     = Ok [Sample.service "s1" "House Keeping"].
Proof.
  assert (Hw : window_defined Sample.host = true) by reflexivity.
  assert (Hget : result (getServices Sample.host) Sample.world
                 = Ok EditExample.services) by (vm_compute; reflexivity).
  assert (Hfirst : first_with service_id "s2" EditExample.services 1
                     (Sample.service "s2" "Security")).
  { split; [reflexivity|]. split; [reflexivity|].
    intros [|j] y Hj Hy; [|lia]. injection Hy as <-. discriminate. }
  split; [exact Hw|]. split; [exact Sample_accepts_all|]. split; [exact Hget|].
  split; [exact Hfirst|].
  exact (proj1 (proj2 (proj2 (proj1 (delete_removes_every_match Sample.host Sample.world
                                       "s2" 1 Hw Sample_accepts_all)
                                _ _ Hget Hfirst)))).
Defined.

Lemma seq_run (m k : M unit) (w : World) :
  result m w = Ok tt ->
  result (m;; k) w = result k (exec m w) /\ exec (m;; k) w = exec k (exec m w).
Proof.
  unfold result, exec, mbind, M_bind. destruct (m w) as [[[]|e] w1]; simpl.
  - now split.
  - discriminate.
Qed.

Lemma wp_assoc {A B C} (m : M A) (f : A -> M B) (g : B -> M C) w Q :
  wp ((m ≫= f) ≫= g) w Q -> wp (m ≫= (fun x => f x ≫= g)) w Q.
Proof.
  unfold wp, mbind, M_bind. destruct (m w) as [[a|e] w1]; simpl; auto.
Qed.

Lemma filter_undoes_append {A} (key : A -> string) (items : list A) (new : A) :
  ~ In (key new) (map key items) ->
  List.filter (fun x => negb (String.eqb (key x) (key new))) (items ++ [new]) = items.
Proof.
  intros Hfresh. rewrite List.filter_app, filter_id_absent by exact Hfresh.
  simpl. rewrite String.eqb_refl. simpl. apply app_nil_r.
Qed.

Section UndoingFacts.
Context (host : Host).
Hypothesis browser_runtime : window_defined host = true.
Hypothesis accepted : accepts_all host.

(** An add followed by the delete of the generated id, for a collection
    stored under [key]. *)
Lemma add_then_delete {T} `{JSONData T} key (id_of : T -> string) (items : list T)
    (new : T) (add delete : M unit) w action entityType entityId entityName details
    topic :
  ~ In (id_of new) (map id_of items) ->
  result add w = Ok tt ->
  edited host key topic w (exec add w) (items ++ [new])%list action entityType
    entityId entityName details ->
  (forall w1, wp delete w1 (fun r w2 =>
     r = Ok tt
     /\ result (getItem host key []) w2
        = Ok (List.filter (fun s => negb (String.eqb (id_of s) (id_of new)))
                (stored key [] (localStorage w1)))) ) ->
  result (add;; delete) w = Ok tt
  /\ result (getItem host key []) (exec (add;; delete) w) = Ok items.
Proof.
  intros Hfresh Hr (Hitems&_) Hdelete.
  destruct (seq_run add delete w Hr) as [-> ->].
  destruct (wp_elim _ _ _ (Hdelete (exec add w))) as [Hr2 Hget2].
  split; [exact Hr2|]. rewrite Hget2.
  apply stored_of_result in Hitems; [|exact browser_runtime]. rewrite Hitems.
  now rewrite filter_undoes_append.
Qed.

Lemma wp_delete_result {T} `{JSONData T} key topic entityType
    (id_of name_of : T -> string) (unknown : string) id w :
  key <> DB_KEYS.ACTIVITY_LOGS ->
  is_warning topic = false ->
  topic <> topic_activityLogs ->
  wp (items ← getItem host key [];
      (setItem host key
         (List.filter (fun s => negb (String.eqb (id_of s) id)) items);;
       emit topic);;
      logActivity host action_delete entityType id
        match List.find (fun s => String.eqb (id_of s) id) items with
        | Some s => str_or (name_of s) unknown
        | None => unknown
        end None) w
    (fun r w' => r = Ok tt
       /\ result (getItem host key []) w'
          = Ok (List.filter (fun s => negb (String.eqb (id_of s) id))
                  (stored key [] (localStorage w)))).
Proof.
  intros Hkey Hwarn Htopic.
  eapply wp_mono; [apply (wp_delete_record host browser_runtime accepted key topic
                            entityType id_of name_of unknown id w Hkey Hwarn Htopic)|].
  cbv beta zeta. intros r w' (Hr&Hitems&_). now split.
Qed.

End UndoingFacts.

(** X5.  Deleting the record an add has just created restores the collection:
    when no stored record carries the id the add generates, the add
    followed by the delete of that id returns normally and the collection
    reads back as it was before.  This holds for the four collections with
    an add and a delete, in a browser that accepts the writes. *)
Theorem delete_undoes_add (host : Host) (w : World) :
  window_defined host = true ->
  accepts_all host ->
  (forall service services,
     result (getServices host) w = Ok services ->
     let id := "service-" ++ stamp host w in
     ~ In id (map service_id services) ->
     result (addService host service;; deleteService host id) w = Ok tt
     /\ result (getServices host)
          (exec (addService host service;; deleteService host id) w) = Ok services)
  /\ (forall member team,
        result (getTeam host) w = Ok team ->
        let id := "team-" ++ stamp host w in
        ~ In id (map member_id team) ->
        result (addTeamMember host member;; deleteTeamMember host id) w = Ok tt
        /\ result (getTeam host)
             (exec (addTeamMember host member;; deleteTeamMember host id) w) = Ok team)
  /\ (forall testimonial testimonials,
        result (getTestimonials host) w = Ok testimonials ->
        let id := "testimonial-" ++ stamp host w in
        ~ In id (map testimonial_id testimonials) ->
        result (addTestimonial host testimonial;; deleteTestimonial host id) w = Ok tt
        /\ result (getTestimonials host)
             (exec (addTestimonial host testimonial;; deleteTestimonial host id) w)
           = Ok testimonials)
  /\ (forall job jobs,
        result (getJobs host) w = Ok jobs ->
        let id := "job-" ++ stamp host w in
        ~ In id (map job_id jobs) ->
        result (addJob host job;; deleteJob host id) w = Ok tt
        /\ result (getJobs host) (exec (addJob host job;; deleteJob host id) w)
           = Ok jobs).
Proof.
  intros Hw Hacc. split; [|split; [|split]].
  - intros item items Hget id Hfresh.
    apply (stored_of_result host Hw) in Hget. subst items.
    pose proof (
      (wp_add_record host Hw Hacc DB_KEYS.SERVICES topic_services entity_service
         (fun suffix => with_service_id ("service-" ++ suffix) item)
         service_id service_title w ltac:(discriminate) eq_refl
         ltac:(discriminate))) as Hadd.
    apply wp_elim in Hadd. cbv beta zeta in Hadd. destruct Hadd as [Hr He].
    apply (add_then_delete host Hw DB_KEYS.SERVICES service_id _ (with_service_id id item)
             (addService host item) (deleteService host id) w _ _ _ _ _ _ Hfresh Hr He).
    intros w1.
    exact (wp_delete_result host Hw Hacc DB_KEYS.SERVICES topic_services
             entity_service service_id service_title "Unknown Service" id w1
             ltac:(discriminate) eq_refl ltac:(discriminate)).
  - intros item items Hget id Hfresh.
    apply (stored_of_result host Hw) in Hget. subst items.
    pose proof (
      (wp_add_record host Hw Hacc DB_KEYS.TEAM topic_team entity_team
         (fun suffix => with_member_id ("team-" ++ suffix) item)
         member_id member_name w ltac:(discriminate) eq_refl
         ltac:(discriminate))) as Hadd.
    apply wp_elim in Hadd. cbv beta zeta in Hadd. destruct Hadd as [Hr He].
    apply (add_then_delete host Hw DB_KEYS.TEAM member_id _ (with_member_id id item)
             (addTeamMember host item) (deleteTeamMember host id) w _ _ _ _ _ _ Hfresh Hr He).
    intros w1.
    exact (wp_delete_result host Hw Hacc DB_KEYS.TEAM topic_team
             entity_team member_id member_name "Unknown Member" id w1
             ltac:(discriminate) eq_refl ltac:(discriminate)).
  - intros item items Hget id Hfresh.
    apply (stored_of_result host Hw) in Hget. subst items.
    pose proof (
      (wp_add_record host Hw Hacc DB_KEYS.TESTIMONIALS topic_testimonials
         entity_testimonial
         (fun suffix => with_testimonial_id ("testimonial-" ++ suffix) item)
         testimonial_id testimonial_author w ltac:(discriminate) eq_refl
         ltac:(discriminate))) as Hadd.
    apply wp_elim in Hadd. cbv beta zeta in Hadd. destruct Hadd as [Hr He].
    apply (add_then_delete host Hw DB_KEYS.TESTIMONIALS testimonial_id _ (with_testimonial_id id item)
             (addTestimonial host item) (deleteTestimonial host id) w _ _ _ _ _ _ Hfresh Hr He).
    intros w1.
    exact (wp_delete_result host Hw Hacc DB_KEYS.TESTIMONIALS topic_testimonials
             entity_testimonial testimonial_id testimonial_author "Unknown Author"
             id w1 ltac:(discriminate) eq_refl ltac:(discriminate)).
  - intros item items Hget id Hfresh.
    apply (stored_of_result host Hw) in Hget. subst items.
    pose proof (
      (wp_add_record host Hw Hacc DB_KEYS.JOBS topic_jobs entity_job
         (fun suffix => with_job_id ("job-" ++ suffix) item)
         job_id job_title w ltac:(discriminate) eq_refl
         ltac:(discriminate))) as Hadd.
    apply wp_elim in Hadd. cbv beta zeta in Hadd. destruct Hadd as [Hr He].
    apply (add_then_delete host Hw DB_KEYS.JOBS job_id _ (with_job_id id item)
             (addJob host item) (deleteJob host id) w _ _ _ _ _ _ Hfresh Hr He).
    intros w1.
    exact (wp_delete_result host Hw Hacc DB_KEYS.JOBS topic_jobs
             entity_job job_id job_title "Unknown Job" id w1
             ltac:(discriminate) eq_refl ltac:(discriminate)).
Qed.

Lemma delete_undoes_add_witness :
  let id := "service-1767225600000-k3v9x2m1q" in
  window_defined Sample.host = true
  /\ accepts_all Sample.host
  /\ result (getServices Sample.host) Sample.world = Ok EditExample.services
  /\ ~ In id (map service_id EditExample.services)
  /\ result (getServices Sample.host)
       (exec (addService Sample.host (Sample.service "draft" "Gardening");;
              deleteService Sample.host id) Sample.world)
     = Ok EditExample.services.
Proof.
  intros id.
  assert (Hw : window_defined Sample.host = true) by reflexivity.
  assert (Hget : result (getServices Sample.host) Sample.world
                 = Ok EditExample.services) by (vm_compute; reflexivity).
  assert (Hfresh : ~ In id (map service_id EditExample.services)).
  { simpl. intros [H|[H|[]]]; discriminate H. }
  split; [exact Hw|]. split; [exact Sample_accepts_all|]. split; [exact Hget|].
  split; [exact Hfresh|].
  exact (proj2 (proj1 (delete_undoes_add Sample.host Sample.world Hw Sample_accepts_all)
                  (Sample.service "draft" "Gardening") _ Hget Hfresh)).
Defined.

(** X6.  The three submission collections: each add stores the record as it
    was submitted, at the end of its collection, returns normally, emits
    the topic once and logs a [create] entry under the record's id: the
    contact under its name, or its email when the name is empty; the
    subscriber under its email, else its WhatsApp number, else
    [Subscriber]; the application under its name, with the position as
    details.  This holds in a browser that accepts the writes. *)
Theorem submission_is_appended (host : Host) (w : World) :
  window_defined host = true ->
  accepts_all host ->
  (forall contact contacts,
     result (getContacts host) w = Ok contacts ->
     result (addContact host contact) w = Ok tt
     /\ edited host DB_KEYS.CONTACTS topic_contacts w
          (exec (addContact host contact) w) (contacts ++ [contact])
          action_create entity_contact (contact_id contact)
          (str_or (contact_name contact) (contact_email contact)) None)
  /\ (forall subscriber subscribers,
        result (getNewsletterSubscribers host) w = Ok subscribers ->
        result (addNewsletterSubscriber host subscriber) w = Ok tt
        /\ edited host DB_KEYS.NEWSLETTER topic_newsletter w
             (exec (addNewsletterSubscriber host subscriber) w)
             (subscribers ++ [subscriber])
             action_create entity_newsletter (subscriber_id subscriber)
             (str_or (default EmptyString (subscriber_email subscriber))
                (str_or (default EmptyString (subscriber_whatsapp subscriber))
                   "Subscriber")) None)
  /\ (forall application applications,
        result (getApplications host) w = Ok applications ->
        result (addApplication host application) w = Ok tt
        /\ edited host DB_KEYS.APPLICATIONS topic_applications w
             (exec (addApplication host application) w)
             (applications ++ [application])
             action_create entity_application (application_id application)
             (application_name application)
             (Some ("Position: " ++ application_position application))).
Proof.
  intros Hw Hacc. split; [|split].
  - intros item items Hget. apply (stored_of_result host Hw) in Hget. subst items.
    assert (Hwp : wp (addContact host item) w (fun r w' =>
              r = Ok tt
              /\ edited host DB_KEYS.CONTACTS topic_contacts w w'
                   (stored DB_KEYS.CONTACTS [] (localStorage w) ++ [item])%list
                   action_create entity_contact (contact_id item)
                   (str_or (contact_name item) (contact_email item)) None)).
    { unfold addContact, getContacts.
      wp_step. apply wp_getItem; [exact Hw|]. apply wp_assoc.
      apply wp_edit; try assumption; try reflexivity; discriminate. }
    apply wp_elim in Hwp. exact Hwp.
  - intros item items Hget. apply (stored_of_result host Hw) in Hget. subst items.
    assert (Hwp : wp (addNewsletterSubscriber host item) w (fun r w' =>
              r = Ok tt
              /\ edited host DB_KEYS.NEWSLETTER topic_newsletter w w'
                   (stored DB_KEYS.NEWSLETTER [] (localStorage w) ++ [item])%list
                   action_create entity_newsletter (subscriber_id item)
                   (str_or (default EmptyString (subscriber_email item))
                      (str_or (default EmptyString (subscriber_whatsapp item))
                         "Subscriber")) None)).
    { unfold addNewsletterSubscriber, getNewsletterSubscribers.
      wp_step. apply wp_getItem; [exact Hw|]. apply wp_assoc.
      apply wp_edit; try assumption; try reflexivity; discriminate. }
    apply wp_elim in Hwp. exact Hwp.
  - intros item items Hget. apply (stored_of_result host Hw) in Hget. subst items.
    assert (Hwp : wp (addApplication host item) w (fun r w' =>
              r = Ok tt
              /\ edited host DB_KEYS.APPLICATIONS topic_applications w w'
                   (stored DB_KEYS.APPLICATIONS [] (localStorage w) ++ [item])%list
                   action_create entity_application (application_id item)
                   (application_name item)
                   (Some ("Position: " ++ application_position item)))).
    { unfold addApplication, getApplications.
      wp_step. apply wp_getItem; [exact Hw|]. apply wp_assoc.
      apply wp_edit; try assumption; try reflexivity; discriminate. }
    apply wp_elim in Hwp. exact Hwp.
Qed.

Lemma submission_is_appended_witness :
  let contact := Sample.contact "c1" "2025-12-31T10:00:00.000Z" in
  window_defined Sample.host = true
  /\ accepts_all Sample.host
  /\ result (getContacts Sample.host) Sample.world = Ok []
  /\ result (getContacts Sample.host) (exec (addContact Sample.host contact) Sample.world)
     = Ok [contact].
Proof.
  intros contact.
  assert (Hw : window_defined Sample.host = true) by reflexivity.
  assert (Hget : result (getContacts Sample.host) Sample.world = Ok [])
    by (vm_compute; reflexivity).
  split; [exact Hw|]. split; [exact Sample_accepts_all|]. split; [exact Hget|].
  exact (proj1 (proj2 (proj1 (submission_is_appended Sample.host Sample.world Hw
                                Sample_accepts_all) contact _ Hget))).
Defined.

(* ================================================================= *)
(** ** Seeding and clearing the store *)

(** The store after [localStorage.removeItem] of each of [keys]. *)
Definition without (keys : list string) (ls : gmap string StoredText)
  : gmap string StoredText :=
  foldl (fun ls key => delete key ls) ls keys.

Lemma without_absent keys ls k : ~ In k keys -> without keys ls !! k = ls !! k.
Proof.
  revert ls. induction keys as [|key keys IH]; intros ls Hk; [reflexivity|].
  simpl. rewrite IH by (intros Hin; apply Hk; now right).
  apply lookup_delete_ne. intros ->. apply Hk. now left.
Qed.

Lemma without_gone ls k keys : ls !! k = None -> without keys ls !! k = None.
Proof.
  revert ls. induction keys as [|key keys IH]; intros ls Hk; [exact Hk|].
  simpl. apply IH. destruct (decide (key = k)) as [->|Hne].
  - apply lookup_delete_eq.
  - now rewrite lookup_delete_ne.
Qed.

Lemma without_present keys ls k : In k keys -> without keys ls !! k = None.
Proof.
  revert ls. induction keys as [|key keys IH]; intros ls Hk; [destruct Hk|].
  simpl. destruct Hk as [->|Hk].
  - apply without_gone, lookup_delete_eq.
  - now apply IH.
Qed.

Lemma wp_forEach_remove {A} (f : A -> string) (g : A -> M unit) (l : list A) w Q :
  (forall x, g x = localStorage_removeItem (f x)) ->
  (forall w', localStorage w' = without (map f l) (localStorage w) ->
              emitted w' = emitted w -> dispatched w' = dispatched w ->
              Q (Ok tt) w') ->
  wp (forEach l g) w Q.
Proof.
  intros Hg. revert w. induction l as [|x l IH]; intros w HQ; simpl.
  - wp_step. now apply HQ.
  - wp_step. rewrite Hg. unfold localStorage_removeItem. wp_step.
    apply IH. intros w' Hl He Hd. apply HQ; simpl in *; assumption.
Qed.

(** The keys [clearAll] removes. *)
Definition cleared_keys : list string :=
  (DB_KEYS.values ++ map fst LEGACY_KEY_MAPPINGS)%list.

(** X7.  [clearAll] in a browser, whatever the host answers to a write: it
    returns normally; every key of the store, current or legacy, is gone
    and every other key of [localStorage] holds what it held; the activity
    log reads back empty, so the entry [clearAll] itself logged first does
    not survive; the nine collection topics are the last ones emitted; and
    the next log entry is attributed to [System], the session key being
    one of the legacy keys removed. *)
Theorem clearAll_empties_the_store (host : Host) (w : World) :
  window_defined host = true ->
  let w' := exec (clearAll host) w in
  result (clearAll host) w = Ok tt
  /\ (forall key, In key cleared_keys -> localStorage w' !! key = None)
  /\ (forall key, ~ In key cleared_keys -> localStorage w' !! key = localStorage w !! key)
  /\ result (getActivityLogs host) w' = Ok []
  /\ (exists earlier,
        emitted w'
        = (earlier ++ [topic_services; topic_team; topic_testimonials; topic_jobs;
                       topic_users; topic_contacts; topic_newsletter;
                       topic_applications; topic_activityLogs])%list)
  /\ result (getCurrentUser host) w' = Ok "System".
Proof.
  intros Hw w'.
  assert (Hwp : wp (clearAll host) w (fun r w1 =>
            r = Ok tt
            /\ (exists w0, touches_only log_keys w w0
                  /\ localStorage w1 = without cleared_keys (localStorage w0))
            /\ exists earlier,
                 emitted w1
                 = (earlier ++ [topic_services; topic_team; topic_testimonials;
                                topic_jobs; topic_users; topic_contacts;
                                topic_newsletter; topic_applications;
                                topic_activityLogs])%list)).
  { unfold clearAll. rewrite Hw. simpl negb. cbv iota.
    wp_step. apply wp_logActivity_any. intros w0 Ht0.
    wp_step. apply (wp_forEach_remove (fun key => key)); [reflexivity|].
    intros w1 Hl1 He1 _.
    wp_step. apply (wp_forEach_remove fst); [now intros [legacy newKey]|].
    intros w2 Hl2 He2 _.
    do 8 (wp_step; apply wp_emit). apply wp_emit.
    split; [reflexivity|]. split.
    - exists w0. split; [exact Ht0|]. simpl. rewrite Hl2, Hl1. reflexivity.
    - exists (emitted w2). simpl. now rewrite <- !app_assoc. }
  apply wp_elim in Hwp. fold w' in Hwp.
  destruct Hwp as (Hr&(w0&Ht0&Hl)&Hemitted).
  assert (Hgone : forall key, In key cleared_keys -> localStorage w' !! key = None).
  { intros key Hin. rewrite Hl. now apply without_present. }
  split; [exact Hr|]. split; [exact Hgone|]. split; [|split; [|split]].
  - intros key Hout. rewrite Hl, without_absent by exact Hout.
    apply Ht0. intros Hin. apply Hout. unfold log_keys, evictable in Hin.
    unfold cleared_keys. simpl in *. tauto.
  - unfold result, getActivityLogs. rewrite getItem_browser by exact Hw. simpl.
    unfold stored. rewrite Hgone; [reflexivity|]. unfold cleared_keys. simpl. tauto.
  - exact Hemitted.
  - unfold result, getCurrentUser, try_catch, mbind, M_bind, localStorage_getItem, gets.
    rewrite Hw. simpl. rewrite Hgone; [reflexivity|]. unfold cleared_keys. simpl. tauto.
Qed.

Lemma clearAll_empties_the_store_witness :
  window_defined Sample.host = true
  /\ localStorage (exec (clearAll Sample.host) Sample.world) !! DB_KEYS.SERVICES = None
  /\ result (getServices Sample.host) (exec (clearAll Sample.host) Sample.world) = Ok [].
Proof.
  assert (Hw : window_defined Sample.host = true) by reflexivity.
  assert (Hgone : localStorage (exec (clearAll Sample.host) Sample.world)
                    !! DB_KEYS.SERVICES = None).
  { apply (proj1 (proj2 (clearAll_empties_the_store Sample.host Sample.world Hw))).
    simpl. auto. }
  split; [exact Hw|]. split; [exact Hgone|].
  unfold result, getServices. rewrite getItem_browser by exact Hw. simpl.
  unfold stored. now rewrite Hgone.
Defined.

(** What [initialize] leaves of a collection: the defaults when it was
    empty and defaults were given, the collection itself otherwise. *)
Definition seeded {T} (current : list T) (defaults : option (list T)) : list T :=
  match current, defaults with
  | [], Some d => d
  | _, _ => current
  end.

Section SeedingFacts.
Context (host : Host).
Hypothesis browser_runtime : window_defined host = true.
Hypothesis accepted : accepts_all host.

Lemma wp_seed {T} `{JSONData T} key topic (defaults : option (list T)) w Q :
  is_warning topic = false ->
  (forall w',
     stored key [] (localStorage w')
     = seeded (stored key [] (localStorage w)) defaults ->
     touches_only [key] w w' ->
     (stored key [] (localStorage w) <> [] ->
      localStorage w' = localStorage w /\ emitted w' = emitted w) ->
     Q (Ok tt) w') ->
  wp (seed (getItem host key []) (fun l => setItem host key l;; emit topic) defaults)
     w Q.
Proof.
  intros Hwarn HQ. unfold seed.
  wp_step. apply wp_getItem; [exact browser_runtime|].
  destruct (stored key [] (localStorage w)) as [|x l] eqn:Hs; simpl.
  - destruct defaults as [d|]; simpl.
    + apply wp_write_emit; [assumption..|]. intros w1 Hl1 _ _. apply HQ.
      * rewrite Hl1. apply stored_insert.
      * intros k Hk. rewrite Hl1. apply lookup_insert_ne. intros <-. apply Hk. now left.
      * intros Hne. now contradiction Hne.
    + wp_step. apply HQ; [exact Hs|apply touches_only_refl|now intros _].
  - wp_step. apply HQ; [exact Hs|apply touches_only_refl|now intros _].
Qed.

End SeedingFacts.

(** X8.  [initialize] in a browser that accepts the writes: it returns
    normally; each of the four content collections that is empty and has
    defaults becomes the defaults, and every other one is left as it is,
    so stored content is never overwritten; no key other than the four is
    touched and nothing is logged; and on a store whose four collections
    all hold records it writes and emits nothing. *)
Theorem initialize_seeds_empty_collections (host : Host) (w : World)
    (defaultData : DefaultData) :
  window_defined host = true ->
  accepts_all host ->
  let w' := exec (initialize host defaultData) w in
  let ls := localStorage w in
  result (initialize host defaultData) w = Ok tt
  /\ result (getServices host) w'
     = Ok (seeded (stored DB_KEYS.SERVICES [] ls) (default_services defaultData))
  /\ result (getTeam host) w'
     = Ok (seeded (stored DB_KEYS.TEAM [] ls) (default_team defaultData))
  /\ result (getTestimonials host) w'
     = Ok (seeded (stored DB_KEYS.TESTIMONIALS [] ls) (default_testimonials defaultData))
  /\ result (getJobs host) w'
     = Ok (seeded (stored DB_KEYS.JOBS [] ls) (default_jobs defaultData))
  /\ touches_only [DB_KEYS.SERVICES; DB_KEYS.TEAM; DB_KEYS.TESTIMONIALS; DB_KEYS.JOBS]
       w w'
  /\ (stored DB_KEYS.SERVICES ([] : list Service) ls <> [] ->
      stored DB_KEYS.TEAM ([] : list TeamMember) ls <> [] ->
      stored DB_KEYS.TESTIMONIALS ([] : list Testimonial) ls <> [] ->
      stored DB_KEYS.JOBS ([] : list Job) ls <> [] ->
      localStorage w' = localStorage w /\ emitted w' = emitted w).
Proof.
  intros Hw Hacc w' ls.
  assert (Hwp : wp (initialize host defaultData) w (fun r w4 =>
            r = Ok tt
            /\ stored DB_KEYS.SERVICES [] (localStorage w4)
               = seeded (stored DB_KEYS.SERVICES [] ls) (default_services defaultData)
            /\ stored DB_KEYS.TEAM [] (localStorage w4)
               = seeded (stored DB_KEYS.TEAM [] ls) (default_team defaultData)
            /\ stored DB_KEYS.TESTIMONIALS [] (localStorage w4)
               = seeded (stored DB_KEYS.TESTIMONIALS [] ls)
                   (default_testimonials defaultData)
            /\ stored DB_KEYS.JOBS [] (localStorage w4)
               = seeded (stored DB_KEYS.JOBS [] ls) (default_jobs defaultData)
            /\ touches_only [DB_KEYS.SERVICES; DB_KEYS.TEAM; DB_KEYS.TESTIMONIALS;
                             DB_KEYS.JOBS] w w4
            /\ (stored DB_KEYS.SERVICES ([] : list Service) ls <> [] ->
                stored DB_KEYS.TEAM ([] : list TeamMember) ls <> [] ->
                stored DB_KEYS.TESTIMONIALS ([] : list Testimonial) ls <> [] ->
                stored DB_KEYS.JOBS ([] : list Job) ls <> [] ->
                localStorage w4 = localStorage w /\ emitted w4 = emitted w))).
  { unfold initialize. rewrite Hw. simpl negb. cbv iota.
    wp_step. apply (wp_seed host Hw Hacc DB_KEYS.SERVICES topic_services);
      [reflexivity|]. intros w1 Hs1 Ht1 Hsame1.
    wp_step. apply (wp_seed host Hw Hacc DB_KEYS.TEAM topic_team);
      [reflexivity|]. intros w2 Hs2 Ht2 Hsame2.
    wp_step. apply (wp_seed host Hw Hacc DB_KEYS.TESTIMONIALS topic_testimonials);
      [reflexivity|]. intros w3 Hs3 Ht3 Hsame3.
    apply (wp_seed host Hw Hacc DB_KEYS.JOBS topic_jobs);
      [reflexivity|]. intros w4 Hs4 Ht4 Hsame4.
    rewrite (stored_untouched DB_KEYS.TEAM [] _ w w1 Ht1) in Hs2, Hsame2
      by not_in_keys.
    rewrite (stored_untouched DB_KEYS.TESTIMONIALS [] _ w1 w2 Ht2) in Hs3, Hsame3
      by not_in_keys.
    rewrite (stored_untouched DB_KEYS.TESTIMONIALS [] _ w w1 Ht1) in Hs3, Hsame3
      by not_in_keys.
    rewrite (stored_untouched DB_KEYS.JOBS [] _ w2 w3 Ht3) in Hs4, Hsame4
      by not_in_keys.
    rewrite (stored_untouched DB_KEYS.JOBS [] _ w1 w2 Ht2) in Hs4, Hsame4
      by not_in_keys.
    rewrite (stored_untouched DB_KEYS.JOBS [] _ w w1 Ht1) in Hs4, Hsame4
      by not_in_keys.
    split; [reflexivity|]. split; [|split; [|split; [|split; [|split]]]].
    - rewrite (stored_untouched DB_KEYS.SERVICES [] _ w3 w4 Ht4) by not_in_keys.
      rewrite (stored_untouched DB_KEYS.SERVICES [] _ w2 w3 Ht3) by not_in_keys.
      rewrite (stored_untouched DB_KEYS.SERVICES [] _ w1 w2 Ht2) by not_in_keys.
      exact Hs1.
    - rewrite (stored_untouched DB_KEYS.TEAM [] _ w3 w4 Ht4) by not_in_keys.
      rewrite (stored_untouched DB_KEYS.TEAM [] _ w2 w3 Ht3) by not_in_keys.
      exact Hs2.
    - rewrite (stored_untouched DB_KEYS.TESTIMONIALS [] _ w3 w4 Ht4) by not_in_keys.
      exact Hs3.
    - exact Hs4.
    - intros k Hk. rewrite Ht4, Ht3, Ht2, Ht1; [reflexivity|..];
        intros Hin; apply Hk; simpl in *; tauto.
    - intros N1 N2 N3 N4.
      destruct (Hsame1 N1) as [L1 E1]. destruct (Hsame2 N2) as [L2 E2].
      destruct (Hsame3 N3) as [L3 E3]. destruct (Hsame4 N4) as [L4 E4].
      split; congruence. }
  apply wp_elim in Hwp. fold w' in Hwp.
  destruct Hwp as (Hr&H1&H2&H3&H4&Ht&Hsame).
  unfold result, getServices, getTeam, getTestimonials, getJobs.
  rewrite !getItem_browser by exact Hw. simpl.
  rewrite H1, H2, H3, H4. split; [exact Hr|]. repeat (split; [reflexivity|]).
  split; [exact Ht|exact Hsame].
Qed.

Module SeedExample.

Definition defaults : DefaultData :=
  {| default_services := Some [Sample.service "service-1" "Pest Control"];
     default_team := Some [Sample.member "team-1" "Asha"];
     default_testimonials := None;
     default_jobs := Some [] |}.

End SeedExample.

Lemma initialize_seeds_empty_collections_witness :
  let w' := exec (initialize Sample.host SeedExample.defaults) Sample.world in
  window_defined Sample.host = true
  /\ accepts_all Sample.host
  /\ result (getServices Sample.host) w' = Ok EditExample.services
  /\ result (getTeam Sample.host) w' = Ok [Sample.member "team-1" "Asha"].
Proof.
  intros w'.
  assert (Hw : window_defined Sample.host = true) by reflexivity.
  pose proof (initialize_seeds_empty_collections Sample.host Sample.world
                SeedExample.defaults Hw Sample_accepts_all) as (_&Hs&Ht&_).
  split; [exact Hw|]. split; [exact Sample_accepts_all|].
  split; [exact Hs|exact Ht].
Defined.

(* ================================================================= *)
(** ** Without a window *)

Lemma getItem_server (host : Host) {T} `{JSONData T} key (d : T) w :
  window_defined host = false -> getItem host key d w = (Ok d, w).
Proof. intros Hw. unfold getItem. now rewrite Hw. Qed.

Lemma setItem_server (host : Host) {T} `{JSONData T} key (value : T) w :
  window_defined host = false -> setItem host key value w = (Ok tt, w).
Proof. intros Hw. unfold setItem. now rewrite Hw. Qed.

(** X9.  Where there is no [window] (the module rendered on the server), the
    store holds nothing and keeps nothing: a collection reads as empty,
    and an add returns normally without storing the record, which is not
    there when the collection is read back; yet it emits the topic of the
    collection and the [activityLogs] topic as if it had.  [initialize],
    [clearAll] and the migration do nothing at all. *)
Theorem server_side_add_stores_nothing (host : Host) (w : World) (service : Service)
    (defaultData : DefaultData) :
  window_defined host = false ->
  let w' := exec (addService host service) w in
  result (getServices host) w = Ok []
  /\ result (addService host service) w = Ok tt
  /\ localStorage w' = localStorage w
  /\ result (getServices host) w' = Ok []
  /\ emitted w' = (emitted w ++ [topic_services; topic_activityLogs])%list
  /\ dispatched w' = dispatched w
  /\ initialize host defaultData w = (Ok tt, w)
  /\ clearAll host w = (Ok tt, w)
  /\ migrateLegacyKeys host w = (Ok tt, w).
Proof.
  intros Hw w'.
  assert (Hadd : exists w1,
             addService host service w = (Ok tt, w1)
             /\ localStorage w1 = localStorage w
             /\ emitted w1 = (emitted w ++ [topic_services; topic_activityLogs])%list
             /\ dispatched w1 = dispatched w).
  { unfold addService, getServices, setServices, logActivity, addActivityLog,
      cleanupOldActivityLogs, getActivityLogs, getCurrentUser.
    unfold try_catch, mbind, M_bind.
    rewrite !getItem_server by exact Hw. simpl.
    rewrite !setItem_server by exact Hw. simpl.
    rewrite Hw. simpl.
    rewrite !getItem_server by exact Hw. simpl.
    rewrite !setItem_server by exact Hw. simpl.
    rewrite !getItem_server by exact Hw. simpl.
    eexists. split; [reflexivity|]. simpl. rewrite <- app_assoc. now repeat split. }
  destruct Hadd as (w1&Hrun&Hl&He&Hd).
  unfold w', result, exec. rewrite Hrun. simpl. unfold getServices.
  rewrite !getItem_server by exact Hw. simpl.
  repeat (split; [reflexivity || assumption|]).
  unfold initialize, clearAll, migrateLegacyKeys. now rewrite Hw.
Qed.

Module ServerExample.

(** The sample browser without its window. *)
Definition host : Host :=
  {| window_defined := false;
     host_setItem := host_setItem Sample.host;
     timeAt := timeAt Sample.host;
     randomAt := randomAt Sample.host;
     Date_parse := Date_parse Sample.host;
     toISOString := toISOString Sample.host;
     env_NEXT_PUBLIC_APP_VERSION := EmptyString;
     env_npm_package_version := EmptyString |}.

End ServerExample.

Lemma server_side_add_stores_nothing_witness :
  let service := Sample.service "draft" "Gardening" in
  window_defined ServerExample.host = false
  /\ result (getServices ServerExample.host)
       (exec (addService ServerExample.host service) Sample.world) = Ok []
  /\ emitted (exec (addService ServerExample.host service) Sample.world)
     = [topic_services; topic_activityLogs].
Proof.
  intros service.
  assert (Hw : window_defined ServerExample.host = false) by reflexivity.
  pose proof (server_side_add_stores_nothing ServerExample.host Sample.world service
                {| default_services := None; default_team := None;
                   default_testimonials := None; default_jobs := None |} Hw)
    as (_&_&_&Hget&He&_).
  split; [exact Hw|]. split; [exact Hget|exact He].
Defined.

(* ================================================================= *)
(** ** Backups: restoring, validating, merging *)

(** X10.  A backup restores what it was taken from: the export of a state [w1],
    imported with the replace strategy into any state [w2], returns
    normally and leaves each of the eight data collections as it was in
    [w1]; the activity log is the retained part of the log of [w1]
    followed by the import entry.  This holds in a browser that accepts the
    writes. *)
Theorem replace_import_restores_the_export (host : Host) (w1 w2 : World) :
  window_defined host = true ->
  accepts_all host ->
  exists data w1',
    exportAll host w1 = (Ok data, w1')
    /\ let w' := exec (importAll host (as_partial data)) w2 in
       result (importAll host (as_partial data)) w2 = Ok tt
       /\ same_collections host w1 w'
       /\ exists entry cutoffDate,
            import_entry "restore" "Full Restore" entry
            /\ default_cutoff host cutoffDate
            /\ result (getActivityLogs host) w'
               = Ok (swept host cutoffDate (activity_logs w1 ++ [entry])).
Proof.
  intros Hw Hacc.
  destruct (exportAll_browser host w1 Hw)
    as (data&w1'&Hexp&_&_&E1&E2&E3&E4&E5&E6&E7&E8&E9).
  exists data, w1'. split; [exact Hexp|]. intros w'.
  pose proof (importAll_accepted host Hw Hacc (as_partial data) w2) as H.
  apply wp_elim in H. fold w' in H.
  destruct H as (Hr&H1&H2&H3&H4&H5&H6&H7&H8&entry&cutoffDate&Hentry&Hcut&Hlogs).
  simpl in H1, H2, H3, H4, H5, H6, H7, H8, Hlogs.
  split; [exact Hr|]. split.
  - unfold same_collections, result, getServices, getTeam, getTestimonials, getJobs,
      getUsers, getContacts, getNewsletterSubscribers, getApplications.
    rewrite !getItem_browser by exact Hw. simpl.
    rewrite H1, H2, H3, H4, H5, H6, H7, H8, E1, E2, E3, E4, E5, E6, E7, E8.
    repeat split; reflexivity.
  - exists entry, cutoffDate. split; [exact Hentry|]. split; [exact Hcut|].
    unfold result, getActivityLogs. rewrite getItem_browser by exact Hw. simpl.
    f_equal. fold (activity_logs w'). now rewrite Hlogs, E9.
Qed.

Lemma replace_import_restores_the_export_witness :
  window_defined Sample.host = true
  /\ accepts_all Sample.host
  /\ exists data w1',
       exportAll Sample.host Sample.world = (Ok data, w1')
       /\ same_collections Sample.host Sample.world
            (exec (importAll Sample.host (as_partial data)) MergeExample.world).
Proof.
  assert (Hw : window_defined Sample.host = true) by reflexivity.
  split; [exact Hw|]. split; [exact Sample_accepts_all|].
  destruct (replace_import_restores_the_export Sample.host Sample.world
              MergeExample.world Hw Sample_accepts_all) as (data&w1'&Hexp&_&Hsame&_).
  exists data, w1'. split; [exact Hexp|exact Hsame].
Defined.






Section MergeFacts.
Context {T : Type} `{Identified T}.

(** The second pass of [mergeById] adds entries and overwrites none. *)
Lemma mergeById_keeps_entries (existing : list T) m k v :
  assoc k m = Some v ->
  assoc k (foldl (fun m item => if Map_has (id_of item) m then m
                                else Map_set (id_of item) item m)
                 m existing) = Some v.
Proof.
  revert m. induction existing as [|x l IH]; intros m Hk; simpl; [exact Hk|].
  apply IH. unfold Map_has.
  destruct (assoc (id_of x) m) as [y|] eqn:Hx; [exact Hk|].
  rewrite assoc_Map_set_ne; [exact Hk|]. intros Heq. congruence.
Qed.

(** With distinct ids in the backup, [mergeById] is the backup followed by
    the existing records whose id the backup does not have. *)
Lemma mergeById_distinct (existing backup : list T) :
  NoDup (map id_of backup) ->
  mergeById existing backup
  = (backup
     ++ List.filter (fun item => negb (Set_has (id_of item) (map id_of backup)))
          existing)%list.
Proof.
  intros Hnd. unfold mergeById. f_equal.
  rewrite (build_entries id_of) by exact Hnd.
  apply map_fixed. intros x Hx. unfold Map_get.
  rewrite (mergeById_keeps_entries existing _ (id_of x) x); [reflexivity|].
  now apply assoc_entries_present.
Qed.

End MergeFacts.



(** X13.  What a merge import makes of a content collection when the ids of the
    backup are distinct: the records of the backup, in their order,
    followed by the stored records whose id the backup does not have, in
    theirs.  So on an id both have the record of the backup replaces the
    stored one.  This holds for services, team, testimonials and jobs, in a
    browser that accepts the writes. *)
Theorem merge_import_prefers_the_backup (host : Host) (w : World)
    (data : PartialExportData) :
  window_defined host = true ->
  accepts_all host ->
  let w' := exec (importAllMerge host data) w in
  (forall backup existing,
     data_services data = Some backup ->
     result (getServices host) w = Ok existing ->
     NoDup (map service_id backup) ->
     result (getServices host) w'
     = Ok (backup
           ++ List.filter
                (fun s => negb (Set_has (service_id s) (map service_id backup)))
                existing)%list)
  /\ (forall backup existing,
        data_team data = Some backup ->
        result (getTeam host) w = Ok existing ->
        NoDup (map member_id backup) ->
        result (getTeam host) w'
        = Ok (backup
              ++ List.filter
                   (fun m => negb (Set_has (member_id m) (map member_id backup)))
                   existing)%list)
  /\ (forall backup existing,
        data_testimonials data = Some backup ->
        result (getTestimonials host) w = Ok existing ->
        NoDup (map testimonial_id backup) ->
        result (getTestimonials host) w'
        = Ok (backup
              ++ List.filter
                   (fun t => negb (Set_has (testimonial_id t)
                                     (map testimonial_id backup)))
                   existing)%list)
  /\ (forall backup existing,
        data_jobs data = Some backup ->
        result (getJobs host) w = Ok existing ->
        NoDup (map job_id backup) ->
        result (getJobs host) w'
        = Ok (backup
              ++ List.filter
                   (fun j => negb (Set_has (job_id j) (map job_id backup)))
                   existing)%list).
Proof.
  intros Hw Hacc w'.
  pose proof (importAllMerge_accepted host Hw Hacc data w) as H.
  cbv zeta in H. apply wp_elim in H. fold w' in H.
  destruct H as (_&M1&M2&M3&M4&_).
  repeat split; intros backup existing Hdata Hget Hnd;
    apply (stored_of_result host Hw) in Hget; subst existing;
    unfold getServices, getTeam, getTestimonials, getJobs;
    rewrite result_of_stored by exact Hw; f_equal.
  - rewrite M1, Hdata. simpl. now apply mergeById_distinct.
  - rewrite M2, Hdata. simpl. now apply mergeById_distinct.
  - rewrite M3, Hdata. simpl. now apply mergeById_distinct.
  - rewrite M4, Hdata. simpl. now apply mergeById_distinct.
Qed.

Module PreferExample.

(** A backup with a newer record for [s2] and a record the store lacks. *)
Definition backup : list Service :=
  [Sample.service "s2" "Guarding"; Sample.service "s3" "Gardening"].

Definition payload : PartialExportData :=
  {| data_version := Some "1.0.0"; data_appVersion := None; data_backupId := None;
     data_description := None; data_services := Some backup; data_team := None;
     data_testimonials := None; data_jobs := None; data_users := None;
     data_contacts := None; data_newsletter := None; data_applications := None;
     data_activityLogs := None; data_exportedAt := None |}.

End PreferExample.

Lemma merge_import_prefers_the_backup_witness :
  window_defined Sample.host = true
  /\ accepts_all Sample.host
  /\ data_services PreferExample.payload = Some PreferExample.backup
  /\ result (getServices Sample.host) Sample.world = Ok EditExample.services
  /\ NoDup (map service_id PreferExample.backup)
  /\ result (getServices Sample.host)
       (exec (importAllMerge Sample.host PreferExample.payload) Sample.world)
     = Ok [Sample.service "s2" "Guarding"; Sample.service "s3" "Gardening";
           Sample.service "s1" "House Keeping"].
Proof.
  assert (Hw : window_defined Sample.host = true) by reflexivity.
  assert (Hget : result (getServices Sample.host) Sample.world
                 = Ok EditExample.services) by (vm_compute; reflexivity).
  assert (Hnd : NoDup (map service_id PreferExample.backup)).
  { apply (bool_decide_unpack _). vm_compute. exact I. }
  split; [exact Hw|]. split; [exact Sample_accepts_all|]. split; [reflexivity|].
  split; [exact Hget|]. split; [exact Hnd|].
  exact (proj1 (merge_import_prefers_the_backup Sample.host Sample.world
                  PreferExample.payload Hw Sample_accepts_all)
           _ _ eq_refl Hget Hnd).
Defined.

(* ================================================================= *)
(** ** Writes the host refuses, and the capacity warning *)

(** The capacity warnings emitted so far and the time of the last one. *)
Definition warned (w : World) : nat * Z :=
  (occurrences topic_storageWarning (emitted w), lastWarningTime w).

(** A computation that never emits the capacity warning and never touches
    the time of the last one. *)
Definition keeps_quiet {A} (m : M A) : Prop :=
  forall w, warned (exec m w) = warned w.

Lemma quiet_ret {A} (a : A) : keeps_quiet (mret a : M A).
Proof. now intros w. Qed.

Lemma quiet_throw {A} (e : Exn) : keeps_quiet (throw e : M A).
Proof. now intros w. Qed.

Lemma quiet_gets {A} (f : World -> A) : keeps_quiet (gets f).
Proof. now intros w. Qed.

Lemma quiet_bind {A B} (m : M A) (f : A -> M B) :
  keeps_quiet m -> (forall a, keeps_quiet (f a)) -> keeps_quiet (m ≫= f).
Proof.
  intros Hm Hf w. specialize (Hm w). unfold exec, mbind, M_bind in *.
  destruct (m w) as [[a|e] w1]; simpl in *; [|exact Hm].
  rewrite <- Hm. apply Hf.
Qed.

Lemma quiet_try_catch {A} (m : M A) (h : Exn -> M A) :
  keeps_quiet m -> (forall e, keeps_quiet (h e)) -> keeps_quiet (try_catch m h).
Proof.
  intros Hm Hh w. specialize (Hm w). unfold exec, try_catch in *.
  destruct (m w) as [[a|e] w1]; simpl in *; [exact Hm|].
  rewrite <- Hm. apply Hh.
Qed.

Lemma quiet_emit (t : DatabaseEventType) :
  t <> topic_storageWarning -> keeps_quiet (emit t).
Proof.
  intros Ht w. unfold warned, exec, emit, modify. simpl.
  rewrite occurrences_app. unfold occurrences at 2. simpl.
  destruct (DatabaseEventType_eq_dec t topic_storageWarning); [contradiction|].
  now rewrite Nat.add_0_r.
Qed.

Section QuietFacts.
Context (host : Host).

Lemma quiet_Date_now : keeps_quiet (Date_now host).
Proof. now intros w. Qed.

Lemma quiet_localStorage_setItem key text :
  keeps_quiet (localStorage_setItem host key text).
Proof.
  intros w. unfold exec, localStorage_setItem.
  now destruct (host_setItem host (localStorage w) key text).
Qed.

Lemma quiet_getItem {T} `{JSONData T} key (d : T) : keeps_quiet (getItem host key d).
Proof.
  intros w. destruct (getItem_reads host key d w) as [x Hx].
  unfold exec. now rewrite Hx.
Qed.

Lemma quiet_getStorageSize : keeps_quiet (getStorageSize host).
Proof.
  unfold getStorageSize. destruct (negb (window_defined host)); [apply quiet_ret|].
  apply quiet_bind; [apply quiet_Date_now|intros now].
  apply quiet_bind; [apply quiet_gets|intros cached].
  apply quiet_bind; [apply quiet_gets|intros lastCheck].
  destruct (_ && _)%bool; [apply quiet_ret|].
  apply quiet_try_catch; [|intros e; apply quiet_ret].
  apply quiet_bind; [apply quiet_gets|intros ls].
  apply quiet_bind; [now intros w|intros _; apply quiet_ret].
Qed.

Lemma quiet_getStorageUsagePercentage : keeps_quiet (getStorageUsagePercentage host).
Proof.
  unfold getStorageUsagePercentage.
  apply quiet_try_catch; [|intros e; apply quiet_ret].
  apply quiet_bind; [apply quiet_getStorageSize|intros n; apply quiet_ret].
Qed.

Lemma quiet_isStorageNearCapacity : keeps_quiet (isStorageNearCapacity host).
Proof.
  unfold isStorageNearCapacity.
  apply quiet_try_catch; [|intros e; apply quiet_ret].
  apply quiet_bind; [apply quiet_getStorageUsagePercentage|intros n; apply quiet_ret].
Qed.

Lemma quiet_evict_write key text topic :
  topic <> topic_storageWarning ->
  keeps_quiet (try_catch (localStorage_setItem host key text;; emit topic)
                 (fun _ => mret tt)).
Proof.
  intros Ht. apply quiet_try_catch; [|intros e; apply quiet_ret].
  apply quiet_bind; [apply quiet_localStorage_setItem|intros _].
  now apply quiet_emit.
Qed.

Lemma quiet_cleanupOldData bytesNeeded : keeps_quiet (cleanupOldData host bytesNeeded).
Proof.
  unfold cleanupOldData.
  apply quiet_try_catch; [|intros e; apply quiet_ret].
  apply quiet_bind; [apply quiet_getStorageSize|intros sizeBefore].
  apply quiet_bind; [apply quiet_getItem|intros contacts].
  apply quiet_bind; [apply quiet_getItem|intros subscribers].
  apply quiet_bind; [apply quiet_getItem|intros applications].
  cbv zeta. apply quiet_bind.
  - destruct (window_defined host); [|apply quiet_ret].
    apply quiet_bind; [now apply quiet_evict_write|intros _].
    apply quiet_bind; [now apply quiet_evict_write|intros _].
    now apply quiet_evict_write.
  - intros _. apply quiet_bind; [apply quiet_getStorageSize|intros sizeAfter].
    apply quiet_ret.
Qed.

(** The write itself, with the eviction and the retry: everything
    [setItem] does after its capacity check. *)
Lemma quiet_write {T} `{JSONData T} key (value : T) (k : Exn -> M unit) :
  (forall error, isQuotaError error = false -> k error = throw error) ->
  (forall error, isQuotaError error = true -> keeps_quiet (k error)) ->
  keeps_quiet (try_catch (localStorage_setItem host key (Json (toJSON value))) k).
Proof.
  intros Hother Hquota. apply quiet_try_catch; [apply quiet_localStorage_setItem|].
  intros error. destruct (isQuotaError error) eqn:Hq; [now apply Hquota|].
  rewrite Hother by exact Hq. apply quiet_throw.
Qed.

(** [setItem] emits the capacity warning in one case only: the store is
    near capacity and more than a minute has passed since the last
    warning; it then emits it once and records the time.  In every other
    case, whatever the host answers to the write and whatever the eviction
    does, no warning is emitted and the time of the last warning stays. *)
Lemma setItem_warning {T} `{JSONData T} key (value : T) w :
  window_defined host = true ->
  let now := timeAt host (reads w) in
  let nearCapacity :=
    result (isStorageNearCapacity host) (with_reads (S (reads w)) w) in
  warned (exec (setItem host key value) w)
  = match nearCapacity with
    | Ok true =>
        if (WARNING_COOLDOWN <? now - lastWarningTime w)%Z
        then (S (occurrences topic_storageWarning (emitted w)), now)
        else warned w
    | _ => warned w
    end.
Proof.
  intros Hw now nearCapacity. unfold setItem. rewrite Hw. simpl negb. cbv iota.
  unfold exec at 1. unfold mbind at 1, M_bind at 1. unfold Date_now at 1.
  fold now. set (w1 := with_reads (S (reads w)) w).
  unfold mbind at 1, M_bind at 1.
  pose proof (quiet_isStorageNearCapacity w1) as Hq1.
  unfold exec in Hq1. unfold nearCapacity, result. fold w1.
  destruct (isStorageNearCapacity host w1) as [[near|e] w2]; simpl in Hq1 |- *.
  2:{ exact Hq1. }
  unfold mbind at 1, M_bind at 1, gets at 1.
  assert (Hlast : lastWarningTime w2 = lastWarningTime w).
  { now injection Hq1. }
  rewrite Hlast.
  set (rest := try_catch _ _).
  assert (Hrest : keeps_quiet rest).
  { apply quiet_write.
    - intros error ->. reflexivity.
    - intros error ->. cbv zeta.
      apply quiet_bind; [apply quiet_cleanupOldData|intros ok].
      apply quiet_bind.
      + destruct ok; [|apply quiet_ret].
        apply quiet_try_catch; [|intros e; apply quiet_ret].
        apply quiet_bind; [apply quiet_localStorage_setItem|intros _; apply quiet_ret].
      + intros [|]; [apply quiet_ret|].
        apply quiet_bind; [apply quiet_getStorageSize|intros size].
        apply quiet_bind; [apply quiet_getStorageUsagePercentage|intros pct].
        apply quiet_bind; [|intros _; apply quiet_throw].
        intros w0. reflexivity. }
  destruct near; simpl.
  - destruct (WARNING_COOLDOWN <? now - lastWarningTime w)%Z eqn:Hcool.
    + unfold mbind, M_bind, emit, modify. simpl.
      change (snd (rest ?x)) with (exec rest x). rewrite Hrest.
      unfold warned. simpl. rewrite occurrences_app. unfold occurrences at 2.
      simpl. injection Hq1 as Hocc _. unfold occurrences in *. rewrite Hocc.
      f_equal. lia.
    + unfold mbind, M_bind. simpl.
      change (snd (rest w2)) with (exec rest w2). now rewrite Hrest.
  - unfold mbind, M_bind. simpl.
    change (snd (rest w2)) with (exec rest w2). now rewrite Hrest.
Qed.

End QuietFacts.

(** X14.  The capacity warning is throttled: a write emits it only when the
    usage is above 80 % and more than a minute has passed since the last
    warning, and then emits it exactly once and takes the time; a write
    made within a minute of the last warning, or below that usage, emits
    none and leaves the time of the last warning as it is, whatever the
    host answers to the write and whatever the eviction does. *)
Theorem storage_warning_is_throttled (host : Host) {T} `{JSONData T} (key : string)
    (value : T) (w : World) :
  window_defined host = true ->
  let now := timeAt host (reads w) in
  let nearCapacity :=
    result (isStorageNearCapacity host) (with_reads (S (reads w)) w) in
  let w' := exec (setItem host key value) w in
  (nearCapacity = Ok true ->
   WARNING_COOLDOWN < now - lastWarningTime w ->
   occurrences topic_storageWarning (emitted w')
   = S (occurrences topic_storageWarning (emitted w))
   /\ lastWarningTime w' = now)
  /\ (nearCapacity <> Ok true \/ now - lastWarningTime w <= WARNING_COOLDOWN ->
      occurrences topic_storageWarning (emitted w')
      = occurrences topic_storageWarning (emitted w)
      /\ lastWarningTime w' = lastWarningTime w).
Proof.
  intros Hw now nearCapacity w'.
  pose proof (setItem_warning host key value w Hw) as Hwarned.
  cbv zeta in Hwarned. fold now nearCapacity w' in Hwarned. unfold warned in Hwarned.
  split.
  - intros Hnear Hcool. rewrite Hnear in Hwarned.
    destruct (Z.ltb_spec WARNING_COOLDOWN (now - lastWarningTime w)); [|lia].
    injection Hwarned as -> ->. now split.
  - intros Hno.
    assert (Hsame : (occurrences topic_storageWarning (emitted w'), lastWarningTime w')
                    = (occurrences topic_storageWarning (emitted w), lastWarningTime w)).
    { rewrite Hwarned. destruct nearCapacity as [[|]|e]; try reflexivity.
      destruct (Z.ltb_spec WARNING_COOLDOWN (now - lastWarningTime w));
        [|reflexivity].
      destruct Hno as [Hno|Hno]; [now contradiction Hno|lia]. }
    injection Hsame as -> ->. now split.
Qed.

Module WarningExample.

(** A store the size cache reports as 4.5 MiB, 90 % of the quota; the last
    warning was emitted half a minute before 2026-01-01. *)
Definition world : World :=
  {| localStorage := localStorage Sample.world; reads := 0%nat;
     lastStorageCheckTime := new_year_2026; cachedStorageSize := 4718592;
     lastWarningTime := new_year_2026 - 30000;
     emitted := [topic_storageWarning]; dispatched := [] |}.

End WarningExample.

Lemma storage_warning_is_throttled_witness :
  window_defined Sample.host = true
  /\ result (isStorageNearCapacity Sample.host)
       (with_reads 1 WarningExample.world) = Ok true
  /\ timeAt Sample.host 0 - lastWarningTime WarningExample.world <= WARNING_COOLDOWN
  /\ occurrences topic_storageWarning
       (emitted (exec (setItem Sample.host DB_KEYS.SERVICES EditExample.services)
                   WarningExample.world)) = 1%nat.
Proof.
  assert (Hw : window_defined Sample.host = true) by reflexivity.
  assert (Hcool : timeAt Sample.host 0 - lastWarningTime WarningExample.world
                  <= WARNING_COOLDOWN) by (vm_compute; discriminate).
  split; [exact Hw|]. split; [vm_compute; reflexivity|]. split; [exact Hcool|].
  exact (proj1 (proj2 (storage_warning_is_throttled Sample.host DB_KEYS.SERVICES
                         EditExample.services WarningExample.world Hw)
                  (or_intror Hcool))).
Defined.

(** X15.  A write the host refuses for a reason other than the quota fails with
    the host's own error: no eviction runs, nothing is stored or removed,
    no window event is dispatched and no topic is emitted; so a collection
    setter such as [setServices] throws before it would emit. *)
Theorem setItem_rethrows_other_errors (host : Host) {T} `{JSONData T} (key : string)
    (value : T) (w : World) (e : DOMException) :
  window_defined host = true ->
  host_setItem host (localStorage w) key (Json (toJSON value)) = Some e ->
  isQuotaError (HostError e) = false ->
  (let w' := exec (setItem host key value) w in
   result (setItem host key value) w = Throw (HostError e)
   /\ localStorage w' = localStorage w
   /\ visible (emitted w') = visible (emitted w)
   /\ dispatched w' = dispatched w)
  /\ (let w' := exec (setItem host key value;; emit topic_services) w in
      result (setItem host key value;; emit topic_services) w = Throw (HostError e)
      /\ localStorage w' = localStorage w
      /\ visible (emitted w') = visible (emitted w)).
Proof.
  intros Hw Hrej Hq.
  assert (Hwp : wp (setItem host key value) w (fun r w' =>
            r = Throw (HostError e) /\ localStorage w' = localStorage w
            /\ visible (emitted w') = visible (emitted w)
            /\ dispatched w' = dispatched w)).
  { unfold setItem. rewrite Hw. simpl negb. cbv iota.
    wp_step. apply wp_Date_now.
    wp_step. apply wp_isStorageNearCapacity. intros b w1 (Hl1&He1&Hd1).
    simpl in Hl1, He1, Hd1.
    wp_step. wp_step. wp_step.
    apply wp_setItem_warning. intros w2 Hl2 He2 Hd2.
    wp_step. apply wp_localStorage_setItem.
    - intros Hacc. rewrite Hl2, Hl1 in Hacc. congruence.
    - intros e' He'. rewrite Hl2, Hl1, Hrej in He'. injection He' as <-.
      rewrite Hq. wp_step. repeat split; congruence. }
  split.
  - exact (wp_elim _ _ _ Hwp).
  - apply (wp_elim (setItem host key value;; emit topic_services) w
             (fun r w' => r = Throw (HostError e) /\ localStorage w' = localStorage w
                          /\ visible (emitted w') = visible (emitted w))).
    wp_step. eapply wp_mono; [exact Hwp|].
    intros r w' (->&Hl&He&_). now repeat split.
Qed.

Module RefusalExample.

(** A browser whose storage is disabled: every write fails with a
    [SecurityError]. *)
Definition securityError : DOMException :=
  {| error_name := "SecurityError"; error_code := Some 18 |}.

Definition host : Host :=
  browser (fun _ _ _ => Some securityError) new_year_2026.

End RefusalExample.

Lemma setItem_rethrows_other_errors_witness :
  window_defined RefusalExample.host = true
  /\ isQuotaError (HostError RefusalExample.securityError) = false
  /\ result (setItem RefusalExample.host DB_KEYS.SERVICES EditExample.services)
       Sample.world = Throw (HostError RefusalExample.securityError).
Proof.
  assert (Hw : window_defined RefusalExample.host = true) by reflexivity.
  assert (Hq : isQuotaError (HostError RefusalExample.securityError) = false)
    by reflexivity.
  split; [exact Hw|]. split; [exact Hq|].
  exact (proj1 (proj1 (setItem_rethrows_other_errors RefusalExample.host
                         DB_KEYS.SERVICES EditExample.services Sample.world
                         RefusalExample.securityError Hw eq_refl Hq))).
Defined.

(* ================================================================= *)
(** ** What the eviction removes *)

Section Sorting.
Context {A : Type} (compare : A -> A -> option Z).

Lemma sort_insert_perm (x : A) (l : list A) :
  Permutation (sort_insert compare x l) (x :: l).
Proof.
  induction l as [|y l IH]; simpl; [reflexivity|].
  destruct (is_negative (compare y x)); [|reflexivity].
  rewrite IH. apply perm_swap.
Qed.

Lemma sort_perm (l : list A) : Permutation (sort compare l) l.
Proof.
  unfold sort. induction l as [|x l IH]; simpl; [reflexivity|].
  rewrite sort_insert_perm. now rewrite IH.
Qed.

(** The comparison is the difference of a numeric key on the records of
    [l]. *)
Definition compares_by (key : A -> Z) (l : list A) : Prop :=
  forall a b, In a l -> In b l -> compare a b = Some (key a - key b).

(** Each record is followed by records of larger or equal keys only. *)
Fixpoint ascending (key : A -> Z) (l : list A) : Prop :=
  match l with
  | [] => True
  | x :: r => Forall (fun y => key x <= key y) r /\ ascending key r
  end.

Lemma sort_insert_ascending (key : A -> Z) (x : A) (l : list A) :
  compares_by key (x :: l) ->
  ascending key l -> ascending key (sort_insert compare x l).
Proof.
  intros Hcmp. induction l as [|y l IH]; intros Hasc; simpl.
  - split; [constructor|exact I].
  - destruct Hasc as [Hy Hasc].
    rewrite (Hcmp y x) by (simpl; auto). simpl.
    destruct (Z.ltb_spec (key y - key x) 0) as [Hlt|Hge].
    + split.
      * rewrite sort_insert_perm. constructor; [lia|exact Hy].
      * apply IH; [|exact Hasc].
        intros a b Ha Hb. apply Hcmp; simpl in *; tauto.
    + split; [|split; assumption].
      constructor; [lia|]. eapply Forall_impl; [exact Hy|]. simpl. intros z Hz. lia.
Qed.

Lemma sort_ascending (key : A -> Z) (l : list A) :
  compares_by key l -> ascending key (sort compare l).
Proof.
  unfold sort. induction l as [|x l IH]; intros Hcmp; simpl; [exact I|].
  apply sort_insert_ascending.
  - intros a b Ha Hb. apply Hcmp.
    + destruct Ha as [->|Ha]; [now left|].
      right. apply (Permutation_in _ (sort_perm l)). exact Ha.
    + destruct Hb as [->|Hb]; [now left|].
      right. apply (Permutation_in _ (sort_perm l)). exact Hb.
  - apply IH. intros a b Ha Hb. apply Hcmp; now right.
Qed.

Lemma ascending_split (key : A -> Z) (l : list A) (n : nat) (a b : A) :
  ascending key l -> In a (take n l) -> In b (drop n l) -> key a <= key b.
Proof.
  revert n. induction l as [|x l IH]; intros n Hasc Ha Hb.
  - now rewrite take_nil in Ha.
  - destruct n as [|n]; [destruct Ha|]. simpl in Ha, Hb. destruct Hasc as [Hx Hasc].
    destruct Ha as [->|Ha].
    + rewrite Forall_forall in Hx. apply Hx. apply list_elem_of_In.
      rewrite <- (take_drop n l). apply in_or_app. now right.
    + now apply (IH n).
Qed.

End Sorting.

(** What the eviction makes of a collection, whatever its dates. *)
Definition evicted {A} (host : Host) (stamp : A -> string) (l : list A) : list A :=
  let sorted := sort (by_date host stamp) l in
  slice (ceil_fifth (length sorted)) sorted.

(** The oldest fifth of [before], rounded up, is gone from [after]: the
    records removed and the records kept make up the collection, and no
    record removed is of a later date than a record kept. *)
Definition oldest_fifth_removed {A} (time : A -> option Z) (before after : list A)
  : Prop :=
  exists removed,
    Permutation before (removed ++ after)
    /\ length removed = ceil_fifth (length before)
    /\ (5 * length after <= 4 * length before)%nat
    /\ ((forall x, In x before -> is_Some (time x)) ->
        forall r k tr tk,
          In r removed -> In k after -> time r = Some tr -> time k = Some tk ->
          tr <= tk).

Lemma evicted_oldest {A} (host : Host) (stamp : A -> string) (l : list A) :
  oldest_fifth_removed (fun x => Date_parse host (stamp x)) l (evicted host stamp l).
Proof.
  unfold evicted, slice. cbv zeta.
  set (sorted := sort (by_date host stamp) l).
  exists (take (ceil_fifth (length sorted)) sorted).
  assert (Hlen : length sorted = length l) by apply sort_length.
  split; [|split; [|split]].
  - rewrite take_drop. symmetry. apply sort_perm.
  - rewrite length_take, Hlen. unfold ceil_fifth.
    pose proof (Nat.div_mod_eq (length l + 4) 5) as Hdiv.
    pose proof (Nat.mod_upper_bound (length l + 4) 5) as Hmod. lia.
  - rewrite length_drop, Hlen. unfold ceil_fifth.
    pose proof (Nat.div_mod_eq (length l + 4) 5) as Hdiv.
    pose proof (Nat.mod_upper_bound (length l + 4) 5) as Hmod. lia.
  - intros Hvalid r k tr tk Hr Hk Htr Htk.
    set (key := fun x => default 0 (Date_parse host (stamp x))).
    assert (Hcmp : compares_by (by_date host stamp) key l).
    { intros a b Ha Hb. unfold by_date, key.
      destruct (Hvalid a Ha) as [ta ->]. destruct (Hvalid b Hb) as [tb ->].
      reflexivity. }
    pose proof (ascending_split key sorted _ r k
                  (sort_ascending _ key l Hcmp) Hr Hk) as Hle.
    unfold key in Hle. now rewrite Htr, Htk in Hle.
Qed.

Section EvictingFacts.
Context (host : Host).
Hypothesis browser_runtime : window_defined host = true.
Hypothesis accepted : accepts_all host.

Lemma wp_evict_write_accepted key text topic w Q :
  Q (Ok tt) (with_emitted (emitted w ++ [topic])
               (with_localStorage (<[key := text]> (localStorage w)) w)) ->
  wp (try_catch (localStorage_setItem host key text;; emit topic)
                (fun _ => mret tt)) w Q.
Proof.
  intros HQ. wp_step. wp_step. apply wp_localStorage_setItem.
  - intros _. apply wp_emit. exact HQ.
  - intros e He. rewrite accepted in He. discriminate He.
Qed.

Lemma wp_cleanupOldData_accepted bytesNeeded w Q :
  let ls := localStorage w in
  (forall ok w',
     localStorage w'
     = <[DB_KEYS.APPLICATIONS :=
           Json (toJSON (evicted host application_submittedAt
                           (stored DB_KEYS.APPLICATIONS [] ls)))]>
         (<[DB_KEYS.NEWSLETTER :=
              Json (toJSON (evicted host subscriber_subscribedAt
                              (stored DB_KEYS.NEWSLETTER [] ls)))]>
            (<[DB_KEYS.CONTACTS :=
                 Json (toJSON (evicted host contact_submittedAt
                                 (stored DB_KEYS.CONTACTS [] ls)))]> ls)) ->
     emitted w'
     = (emitted w ++ [topic_contacts; topic_newsletter; topic_applications])%list ->
     dispatched w' = dispatched w ->
     Q (Ok ok) w') ->
  wp (cleanupOldData host bytesNeeded) w Q.
Proof.
  intros ls HQ. unfold cleanupOldData.
  do 2 wp_step. apply wp_getStorageSize. intros sizeBefore w1 (Hl1&He1&Hd1).
  wp_step. apply wp_getItem; [exact browser_runtime|].
  wp_step. apply wp_getItem; [exact browser_runtime|].
  wp_step. apply wp_getItem; [exact browser_runtime|].
  cbv zeta. wp_step. rewrite browser_runtime.
  wp_step. apply wp_evict_write_accepted.
  wp_step. apply wp_evict_write_accepted.
  apply wp_evict_write_accepted.
  wp_step. apply wp_getStorageSize. intros sizeAfter w5 (Hl5&He5&Hd5).
  wp_step. apply HQ.
  - rewrite Hl5. simpl. rewrite Hl1. reflexivity.
  - rewrite He5. simpl. rewrite He1. now rewrite <- !app_assoc.
  - rewrite Hd5. simpl. exact Hd1.
Qed.

End EvictingFacts.

(** X16.  The eviction in a browser that accepts its writes: it returns
    normally, and each of the three submission collections loses its
    oldest fifth, rounded up: what is kept and what is removed make up the
    collection, at most four fifths are kept, and when every date of the
    collection is valid no record removed is of a later date than a record
    kept.  The three topics are emitted, in the order contacts,
    newsletter, applications, and no window event is dispatched. *)
Theorem eviction_removes_the_oldest_fifth (host : Host) (w : World) (bytesNeeded : Z) :
  window_defined host = true ->
  accepts_all host ->
  let w' := exec (cleanupOldData host bytesNeeded) w in
  (exists ok, result (cleanupOldData host bytesNeeded) w = Ok ok)
  /\ (forall contacts,
        result (getContacts host) w = Ok contacts ->
        exists kept,
          result (getContacts host) w' = Ok kept
          /\ oldest_fifth_removed (fun c => Date_parse host (contact_submittedAt c))
               contacts kept)
  /\ (forall subscribers,
        result (getNewsletterSubscribers host) w = Ok subscribers ->
        exists kept,
          result (getNewsletterSubscribers host) w' = Ok kept
          /\ oldest_fifth_removed
               (fun s => Date_parse host (subscriber_subscribedAt s)) subscribers kept)
  /\ (forall applications,
        result (getApplications host) w = Ok applications ->
        exists kept,
          result (getApplications host) w' = Ok kept
          /\ oldest_fifth_removed
               (fun a => Date_parse host (application_submittedAt a))
               applications kept)
  /\ emitted w'
     = (emitted w ++ [topic_contacts; topic_newsletter; topic_applications])%list
  /\ dispatched w' = dispatched w.
Proof.
  intros Hw Hacc w'.
  pose proof (wp_cleanupOldData_accepted host Hw Hacc bytesNeeded w
                (fun r w1 =>
                   (exists ok, r = Ok ok)
                   /\ stored DB_KEYS.CONTACTS [] (localStorage w1)
                      = evicted host contact_submittedAt
                          (stored DB_KEYS.CONTACTS [] (localStorage w))
                   /\ stored DB_KEYS.NEWSLETTER [] (localStorage w1)
                      = evicted host subscriber_subscribedAt
                          (stored DB_KEYS.NEWSLETTER [] (localStorage w))
                   /\ stored DB_KEYS.APPLICATIONS [] (localStorage w1)
                      = evicted host application_submittedAt
                          (stored DB_KEYS.APPLICATIONS [] (localStorage w))
                   /\ emitted w1
                      = (emitted w ++ [topic_contacts; topic_newsletter;
                                       topic_applications])%list
                   /\ dispatched w1 = dispatched w)) as Hwp.
  cbv zeta in Hwp. apply wp_elim in Hwp.
  2:{ intros ok w1 Hl He Hd. split; [now exists ok|]. rewrite Hl.
      split; [|split; [|split; [|split; assumption]]].
      - rewrite !stored_insert_ne by discriminate. apply stored_insert.
      - rewrite stored_insert_ne by discriminate. apply stored_insert.
      - apply stored_insert. }
  fold w' in Hwp. destruct Hwp as (Hok&Hc&Hn&Ha&He&Hd).
  split; [exact Hok|]. split; [|split; [|split; [|split; assumption]]].
  - intros contacts Hget. apply (stored_of_result host Hw) in Hget. subst contacts.
    eexists. unfold getContacts. rewrite result_of_stored by exact Hw.
    split; [reflexivity|]. rewrite Hc. apply evicted_oldest.
  - intros subscribers Hget. apply (stored_of_result host Hw) in Hget.
    subst subscribers.
    eexists. unfold getNewsletterSubscribers. rewrite result_of_stored by exact Hw.
    split; [reflexivity|]. rewrite Hn. apply evicted_oldest.
  - intros applications Hget. apply (stored_of_result host Hw) in Hget.
    subst applications.
    eexists. unfold getApplications. rewrite result_of_stored by exact Hw.
    split; [reflexivity|]. rewrite Ha. apply evicted_oldest.
Qed.

Module EvictionExample.

(** The contacts of [QuotaExample], in a browser that never fills up. *)
Definition world : World := QuotaExample.world.

End EvictionExample.

Lemma eviction_removes_the_oldest_fifth_witness :
  window_defined Sample.host = true
  /\ accepts_all Sample.host
  /\ result (getContacts Sample.host) EvictionExample.world = Ok QuotaExample.contacts
  /\ exists kept,
       result (getContacts Sample.host)
         (exec (cleanupOldData Sample.host 604) EvictionExample.world) = Ok kept
       /\ oldest_fifth_removed
            (fun c => Date_parse Sample.host (contact_submittedAt c))
            QuotaExample.contacts kept.
Proof.
  assert (Hw : window_defined Sample.host = true) by reflexivity.
  assert (Hget : result (getContacts Sample.host) EvictionExample.world
                 = Ok QuotaExample.contacts) by (vm_compute; reflexivity).
  split; [exact Hw|]. split; [exact Sample_accepts_all|]. split; [exact Hget|].
  exact (proj1 (proj2 (eviction_removes_the_oldest_fifth Sample.host
                         EvictionExample.world 604 Hw Sample_accepts_all))
           _ Hget).
Defined.

(** X17.  Whatever the host answers, the eviction and the logging stay within
    their keys and never fail: [cleanupOldData] returns normally, touches
    no key other than the three submission collections and dispatches no
    window event; [logActivity] and [addActivityLog] return normally and
    touch no key other than the activity log and those three; and a write
    by [setItem], whether it returns or throws, touches no key other than
    its own and those three.  So content collections are never lost to an
    eviction, and a failure to log never fails the operation logged. *)
Theorem eviction_and_logging_stay_within_their_keys (host : Host) (w : World) :
  (forall bytesNeeded,
     let w' := exec (cleanupOldData host bytesNeeded) w in
     (exists ok, result (cleanupOldData host bytesNeeded) w = Ok ok)
     /\ touches_only evictable w w'
     /\ dispatched w' = dispatched w)
  /\ (forall action entityType entityId entityName details,
        let m := logActivity host action entityType entityId entityName details in
        result m w = Ok tt /\ touches_only log_keys w (exec m w))
  /\ (forall log,
        result (addActivityLog host log) w = Ok tt
        /\ touches_only log_keys w (exec (addActivityLog host log) w))
  /\ (forall (T : Type) (codec : JSONData T) key (value : T),
        touches_only (key :: evictable) w (exec (setItem host key value) w)).
Proof.
  split; [|split; [|split]].
  - intros bytesNeeded w'.
    apply (wp_elim (cleanupOldData host bytesNeeded) w
             (fun r w1 => (exists ok, r = Ok ok) /\ touches_only evictable w w1
                          /\ dispatched w1 = dispatched w)).
    apply wp_cleanupOldData. intros b w1 Ht Hd. split; [now exists b|now split].
  - intros action entityType entityId entityName details m.
    apply (wp_elim m w (fun r w1 => r = Ok tt /\ touches_only log_keys w w1)).
    apply wp_logActivity_any. intros w1 Ht. now split.
  - intros log.
    apply (wp_elim (addActivityLog host log) w
             (fun r w1 => r = Ok tt /\ touches_only log_keys w w1)).
    apply wp_addActivityLog_any. intros w1 Ht. now split.
  - intros T codec key value.
    apply (wp_elim (setItem host key value) w
             (fun _ w1 => touches_only (key :: evictable) w w1)).
    apply wp_setItem_any. intros r w1 Ht. exact Ht.
Qed.

(* ================================================================= *)
(** ** The duplicate checks *)





Module DuplicateExample.

Definition subscriber : NewsletterSubscriber :=
  Sample.subscriber "sub-1" "Asha@Example.com" "2025-12-01T10:00:00.000Z".

End DuplicateExample.








Module RecentExample.

(** A contact submitted two minutes before 2026-01-01, and an older one of
    the same address. *)
Definition contacts : list Contact :=
  [Sample.contact "c1" "2025-12-31T10:00:00.000Z";
   Sample.contact "c2" "2025-12-31T23:58:00.000Z"].

Definition world : World :=
  initial_world {[ DB_KEYS.CONTACTS := Json (toJSON contacts) ]}.

End RecentExample.


Lemma recent_example_is_a_duplicate :
  result (isRecentContactSubmission Sample.host "ASHA@example.com" 5)
    RecentExample.world
  = Ok {| contact_isDuplicate := true;
          lastSubmission := Some (Sample.contact "c2" "2025-12-31T23:58:00.000Z") |}.
Proof. vm_compute. reflexivity. Qed.

(* ================================================================= *)
(** ** The CSV exports *)

Definition is_quote (c : ascii) : bool := Ascii.eqb c (ascii_of_nat 34).

(** Reading back the inside of a quoted cell: the value, up to the first
    double quote that is not doubled, and the text after that quote. *)
Fixpoint read_quoted (s : string) : option (string * string) :=
  match s with
  | EmptyString => None
  | String c r =>
      if is_quote c then
        match r with
        | String c' r' =>
            if is_quote c' then
              '(value, rest) ← read_quoted r'; Some (String c value, rest)
            else Some (EmptyString, r)
        | EmptyString => Some (EmptyString, EmptyString)
        end
      else '(value, rest) ← read_quoted r; Some (String c value, rest)
  end.

(** A text that does not go on with a double quote. *)
Definition unquoted_start (s : string) : Prop :=
  match s with
  | String c _ => is_quote c = false
  | EmptyString => True
  end.

Lemma read_quoted_escaped (value rest : string) :
  unquoted_start rest ->
  read_quoted (double_quotes value ++ dquote ++ rest) = Some (value, rest).
Proof.
  intros Hrest. induction value as [|c value IH].
  - destruct rest as [|c' rest']; [reflexivity|].
    unfold unquoted_start, is_quote in Hrest. simpl in Hrest |- *.
    unfold is_quote. simpl. now rewrite Hrest.
  - simpl. destruct (Ascii.eqb c (ascii_of_nat 34)) eqn:Hc; simpl in Hc |- *.
    + unfold is_quote. simpl. rewrite Hc. now rewrite IH.
    + unfold is_quote. simpl. rewrite Hc. now rewrite IH.
Qed.

Lemma string_app_assoc (a b c : string) : (a ++ b) ++ c = a ++ (b ++ c).
Proof.
  induction a as [|x a IH]; [reflexivity|].
  change (String x ((a ++ b) ++ c) = String x (a ++ (b ++ c))). now rewrite IH.
Qed.

Lemma string_app_nil_r (a : string) : a ++ EmptyString = a.
Proof.
  induction a as [|x a IH]; [reflexivity|].
  change (String x (a ++ EmptyString) = String x a). now rewrite IH.
Qed.

(** The text after the first cell of a line. *)
Definition line_tail (cells : list string) : string :=
  match cells with
  | [] => EmptyString
  | _ :: _ => "," ++ join "," (map escapeCSVField cells)
  end.

Lemma line_tail_unquoted cells : unquoted_start (line_tail cells).
Proof. destruct cells; [exact I|reflexivity]. Qed.

Lemma join_cells (cell : string) (cells : list string) :
  join "," (map escapeCSVField (cell :: cells))
  = dquote ++ double_quotes cell ++ dquote ++ line_tail cells.
Proof.
  destruct cells as [|cell' cells]; simpl.
  - unfold escapeCSVField. now rewrite string_app_nil_r.
  - unfold escapeCSVField at 1. now rewrite !string_app_assoc.
Qed.

(** A line of cells determines its cells, whatever commas, double quotes
    and line breaks they hold. *)
Lemma csv_line_injective (xs ys : list string) :
  join "," (map escapeCSVField xs) = join "," (map escapeCSVField ys) -> xs = ys.
Proof.
  revert ys. induction xs as [|x xs IH]; intros [|y ys] Heq.
  - reflexivity.
  - rewrite join_cells in Heq. discriminate Heq.
  - rewrite join_cells in Heq. discriminate Heq.
  - rewrite !join_cells in Heq. injection Heq as Heq.
    change (double_quotes x ++ dquote ++ line_tail xs
            = double_quotes y ++ dquote ++ line_tail ys) in Heq.
    assert (Hread : Some (x, line_tail xs) = Some (y, line_tail ys)).
    { rewrite <- (read_quoted_escaped x (line_tail xs)) by apply line_tail_unquoted.
      rewrite <- (read_quoted_escaped y (line_tail ys)) by apply line_tail_unquoted.
      now rewrite Heq. }
    injection Hread as -> Htail. f_equal.
    destruct xs as [|x' xs], ys as [|y' ys]; try reflexivity; try discriminate Htail.
    apply IH. simpl in Htail. now injection Htail.
Qed.

Lemma escapeCSVField_injective (a b : string) :
  escapeCSVField a = escapeCSVField b -> a = b.
Proof.
  intros Heq. assert (H : [a] = [b]) by (apply csv_line_injective; exact Heq).
  now injection H.
Qed.

Lemma str_or_empty (s : string) : str_or s EmptyString = s.
Proof. unfold str_or. now destruct s. Qed.

(** X20.  The contacts export: the text is empty when no contact is
    stored; otherwise it is the header line followed by one
    line for each contact, in the order stored.  The line of a contact
    determines the contact, whatever commas, double quotes and line breaks
    its fields hold: two contacts with the same line have the same id,
    name, email, phone, service, message and date, and the same status,
    an empty status being written as [new].  More generally a line of
    quoted cells determines the cells. *)
Theorem csv_export_can_be_read_back (host : Host) (w : World) :
  (forall contacts,
     result (getContacts host) w = Ok contacts ->
     (contacts = [] -> result (exportContactsAsCSV host) w = Ok EmptyString)
     /\ (contacts <> [] ->
         result (exportContactsAsCSV host) w
         = Ok (join newline
                 ("ID,Name,Email,Phone,Service,Message,Submitted At,Status"
                  :: map (fun c => join "," (contact_row c)) contacts))))
  /\ (forall c1 c2,
        join "," (contact_row c1) = join "," (contact_row c2) ->
        contact_id c1 = contact_id c2 /\ contact_name c1 = contact_name c2
        /\ contact_email c1 = contact_email c2 /\ contact_phone c1 = contact_phone c2
        /\ contact_service c1 = contact_service c2
        /\ contact_message c1 = contact_message c2
        /\ contact_submittedAt c1 = contact_submittedAt c2
        /\ str_or (contact_status c1) "new" = str_or (contact_status c2) "new")
  /\ (forall xs ys,
        join "," (map escapeCSVField xs) = join "," (map escapeCSVField ys) ->
        xs = ys).
Proof.
  split; [|split].
  - intros contacts Hget. apply getItem_result in Hget.
    unfold exportContactsAsCSV, getContacts, result, try_catch.
    rewrite (bind_run _ _ _ _ _ Hget). split.
    + intros ->. reflexivity.
    + intros Hne. destruct contacts as [|c l]; [now contradiction Hne|].
      simpl length. simpl Nat.eqb. cbv iota zeta. unfold csv.
      simpl fst. f_equal. f_equal. now rewrite map_map.
  - intros c1 c2 Heq.
    assert (Hcells : [str_or (contact_id c1) EmptyString;
                      str_or (contact_name c1) EmptyString;
                      str_or (contact_email c1) EmptyString;
                      str_or (contact_phone c1) EmptyString;
                      str_or (contact_service c1) EmptyString;
                      str_or (contact_message c1) EmptyString;
                      str_or (contact_submittedAt c1) EmptyString;
                      str_or (contact_status c1) "new"]
                     = [str_or (contact_id c2) EmptyString;
                        str_or (contact_name c2) EmptyString;
                        str_or (contact_email c2) EmptyString;
                        str_or (contact_phone c2) EmptyString;
                        str_or (contact_service c2) EmptyString;
                        str_or (contact_message c2) EmptyString;
                        str_or (contact_submittedAt c2) EmptyString;
                        str_or (contact_status c2) "new"]).
    { apply csv_line_injective. exact Heq. }
    rewrite !str_or_empty in Hcells.
    injection Hcells as H1 H2 H3 H4 H5 H6 H7 H8. now repeat split.
  - exact csv_line_injective.
Qed.

Module CsvExample.

(** A contact whose message holds a comma, double quotes and a line
    break. *)
Definition contact : Contact :=
  {| contact_id := "c1"; contact_name := "Asha"; contact_email := "asha@example.com";
     contact_phone := "9000000000"; contact_service := "House Keeping";
     contact_message :=
       "Call me, " ++ dquote ++ "today" ++ dquote ++ newline ++ "please";
     contact_submittedAt := "2025-12-31T10:00:00.000Z";
     contact_status := EmptyString |}.

Definition world : World :=
  initial_world {[ DB_KEYS.CONTACTS := Json (toJSON [contact]) ]}.

End CsvExample.

Lemma csv_export_can_be_read_back_witness :
  result (getContacts Sample.host) CsvExample.world = Ok [CsvExample.contact]
  /\ result (exportContactsAsCSV Sample.host) CsvExample.world
     = Ok (join newline
             ["ID,Name,Email,Phone,Service,Message,Submitted At,Status";
              join "," (contact_row CsvExample.contact)]).
Proof.
  assert (Hget : result (getContacts Sample.host) CsvExample.world
                 = Ok [CsvExample.contact]) by (vm_compute; reflexivity).
  split; [exact Hget|].
  apply (proj2 (proj1 (csv_export_can_be_read_back Sample.host CsvExample.world)
                  _ Hget)).
  discriminate.
Defined.

(* ================================================================= *)
(** ** Running the migration again *)

(** Nothing is left to migrate for a pair: the legacy key holds no text,
    or the new key holds data, or the legacy text is malformed. *)
Definition settled (ls : gmap string StoredText) (pair : string * string) : Prop :=
  text_truthy (ls !! pair.1) = false
  \/ holds_data (ls !! pair.2) = true
  \/ exists s, ls !! pair.1 = Some (Raw s).

Section MigratingAgain.
Context (host : Host).
Hypothesis accepted : accepts_all host.

Lemma migrate_pair_settled pair w :
  settled (localStorage w) pair -> migrate_pair host pair w = (Ok tt, w).
Proof.
  destruct pair as [legacy newKey]. unfold settled. cbn [fst snd]. intros Hs.
  unfold migrate_pair, try_catch, mbind, M_bind, localStorage_getItem, gets.
  destruct (text_truthy (localStorage w !! legacy)) eqn:Hl; simpl; [|reflexivity].
  destruct (holds_data (localStorage w !! newKey)) eqn:Hn; simpl; [reflexivity|].
  destruct Hs as [Hs|[Hs|(s&Hs)]]; [discriminate Hs..|].
  rewrite Hs. reflexivity.
Qed.

(** One pair, migrated: the state after it. *)
Definition migrated (w : World) (pair : string * string) : World :=
  exec (migrate_pair host pair) w.

Lemma migrate_pair_run pair w : migrate_pair host pair w = (Ok tt, migrated w pair).
Proof.
  destruct pair as [legacy newKey].
  destruct (migrate_pair_total host legacy newKey w) as [Hr _].
  unfold migrated, exec, result in *.
  destruct (migrate_pair host (legacy, newKey) w) as [r w1]. simpl in *. now subst.
Qed.

Lemma forEach_migrate pairs w :
  forEach pairs (migrate_pair host) w = (Ok tt, foldl migrated w pairs).
Proof.
  revert w. induction pairs as [|pair pairs IH]; intros w; [reflexivity|].
  simpl. rewrite (bind_run _ _ _ _ _ (migrate_pair_run pair w)). apply IH.
Qed.

Lemma migrated_touches pair w : touches_only [pair.1; pair.2] w (migrated w pair).
Proof.
  destruct pair as [legacy newKey].
  destruct (migrate_pair_total host legacy newKey w) as (_&Ht&_). exact Ht.
Qed.

Lemma migrated_settles pair w :
  pair.1 <> pair.2 -> settled (localStorage (migrated w pair)) pair.
Proof.
  destruct pair as [legacy newKey]. cbn [fst snd]. intros Hne.
  destruct (migrate_pair_total host legacy newKey w) as (_&_&Hskip&Hheld&Hmove).
  fold (migrated w (legacy, newKey)) in Hskip, Hheld, Hmove.
  unfold settled. cbn [fst snd].
  destruct (text_truthy (localStorage w !! legacy)) eqn:Hl.
  2:{ left. now rewrite (Hskip Hl). }
  destruct (holds_data (localStorage w !! newKey)) eqn:Hn.
  { right. left. now rewrite (Hheld Hn). }
  destruct (localStorage w !! legacy) as [[d|s]|] eqn:Hlegacy.
  - left. cbn [fst snd] in Hmove. rewrite (Hmove d Hlegacy Hn (accepted _ _ _)).
    now rewrite lookup_delete_eq.
  - right. right. exists s.
    unfold migrated, migrate_pair, exec, try_catch, mbind, M_bind,
      localStorage_getItem, gets.
    rewrite Hlegacy, Hl. simpl. rewrite Hn. simpl. exact Hlegacy.
  - discriminate Hl.
Qed.

Lemma settled_framed keys pair w w' :
  touches_only keys w w' -> ~ In pair.1 keys -> ~ In pair.2 keys ->
  settled (localStorage w) pair -> settled (localStorage w') pair.
Proof.
  intros Ht H1 H2. unfold settled. now rewrite (Ht _ H1), (Ht _ H2).
Qed.

(** The keys of a list of pairs, legacy and new. *)
Definition keys_of (pairs : list (string * string)) : list string :=
  flat_map (fun pair => [pair.1; pair.2]) pairs.

Lemma settled_kept pairs pair w :
  ~ In pair.1 (keys_of pairs) -> ~ In pair.2 (keys_of pairs) ->
  settled (localStorage w) pair -> settled (localStorage (foldl migrated w pairs)) pair.
Proof.
  revert w. induction pairs as [|q pairs IH]; intros w H1 H2 Hs; [exact Hs|].
  simpl in *. apply IH; [tauto|tauto|].
  apply (settled_framed [q.1; q.2] pair w); [apply migrated_touches| | |exact Hs];
    simpl; tauto.
Qed.

Lemma all_settled pairs w :
  NoDup (keys_of pairs) ->
  Forall (settled (localStorage (foldl migrated w pairs))) pairs.
Proof.
  revert w. induction pairs as [|pair pairs IH]; intros w Hnd; [constructor|].
  simpl in Hnd. apply NoDup_cons in Hnd. destruct Hnd as [H1 Hnd].
  apply NoDup_cons in Hnd. destruct Hnd as [H2 Hnd].
  rewrite list_elem_of_In in H1, H2. simpl in H1.
  constructor; [|now apply IH].
  simpl. apply settled_kept; [tauto|exact H2|].
  apply migrated_settles. intros Heq. apply H1. now left.
Qed.

Lemma settled_run pairs w :
  Forall (settled (localStorage w)) pairs -> foldl migrated w pairs = w.
Proof.
  induction 1 as [|pair pairs Hs _ IH]; [reflexivity|].
  simpl. assert (Hsame : migrated w pair = w).
  { unfold migrated, exec. now rewrite (migrate_pair_settled pair w Hs). }
  rewrite Hsame. exact IH.
Qed.

End MigratingAgain.

(** X21.  The migration is idempotent: in a browser that accepts the writes,
    once it has run, running it again (it runs every time the module is
    loaded) changes nothing at all; it returns normally and leaves the
    whole state as it is. *)
Theorem migration_is_idempotent (host : Host) (w : World) :
  window_defined host = true ->
  accepts_all host ->
  let w' := exec (migrateLegacyKeys host) w in
  migrateLegacyKeys host w' = (Ok tt, w').
Proof.
  intros Hw Hacc w'.
  assert (Hrun : forall w0,
            migrateLegacyKeys host w0
            = (Ok tt, foldl (migrated host) w0 LEGACY_KEY_MAPPINGS)).
  { intros w0. unfold migrateLegacyKeys. rewrite Hw.
    change (negb true) with false. unfold try_catch. cbv beta iota.
    now rewrite forEach_migrate. }
  assert (Hw' : w' = foldl (migrated host) w LEGACY_KEY_MAPPINGS).
  { unfold w', exec. now rewrite Hrun. }
  rewrite Hrun. f_equal. rewrite Hw'. apply settled_run.
  apply all_settled; [exact Hacc|].
  apply (bool_decide_unpack _). vm_compute. exact I.
Qed.

Lemma migration_is_idempotent_witness :
  let w' := exec (migrateLegacyKeys Sample.host) MigrationExample.world in
  window_defined Sample.host = true
  /\ accepts_all Sample.host
  /\ localStorage w' !! DB_KEYS.NEWSLETTER = Some (Json MigrationExample.subscribers)
  /\ migrateLegacyKeys Sample.host w' = (Ok tt, w').
Proof.
  intros w'.
  assert (Hw : window_defined Sample.host = true) by reflexivity.
  split; [exact Hw|]. split; [exact Sample_accepts_all|].
  split; [vm_compute; reflexivity|].
  exact (migration_is_idempotent Sample.host MigrationExample.world Hw
           Sample_accepts_all).
Defined.

(* ================================================================= *)
(** ** Incomplete backups *)

Lemma missing_errors_found fields field :
  In field requiredFields -> assoc field fields = None ->
  In ("Missing required field: " ++ field) (missing_errors fields).
Proof.
  intros Hin Hnone. unfold missing_errors. apply in_flat_map.
  exists field. split; [exact Hin|]. unfold has_key. rewrite Hnone. now left.
Qed.

(** X22.  A backup object that lacks one of the nine required fields is
    reported invalid, with the error that names the field, when its
    version is absent or a string and no services item is [null] (else the
    validation reports the single error of a malformed file).  And for
    every backup object the result carries the metadata exactly when it is
    valid, with the record counts of the arrays it holds. *)
Theorem validation_rejects_incomplete_backups (fields : list (string * JSValue)) :
  let r := validateBackupFile (JObj fields) in
  (forall field,
     In field requiredFields ->
     assoc field fields = None ->
     version_is_text fields ->
     no_null_service fields ->
     isValid r = false
     /\ In ("Missing required field: " ++ field) (errors r))
  /\ (isValid r = true <-> exists m, metadata r = Some m)
  /\ (forall m,
        metadata r = Some m ->
        metadata_recordCounts m
        = {| count_services := array_length "services" fields;
             count_team := array_length "team" fields;
             count_testimonials := array_length "testimonials" fields;
             count_jobs := array_length "jobs" fields;
             count_users := array_length "users" fields;
             count_contacts := array_length "contacts" fields;
             count_newsletter := array_length "newsletter" fields;
             count_applications := array_length "applications" fields |}).
Proof.
  intros r. split; [|split].
  - intros field Hin Hnone Htext Hnull.
    destruct (check_version_total fields Htext) as (versionErrors&versionWarnings&Hc).
    destruct (structure_errors_total fields Hnull) as (structureErrors&Hs).
    destruct (validate_object_result fields _ _ _ Hc Hs) as (He&_&Hvalid).
    fold r in He, Hvalid.
    assert (Hfound : In ("Missing required field: " ++ field) (errors r)).
    { rewrite He. apply in_or_app. left. now apply missing_errors_found. }
    split; [|exact Hfound]. rewrite Hvalid.
    destruct (errors r); [contradiction|reflexivity].
  - unfold r, validateBackupFile, validate_object.
    destruct (check_version fields) as [[versionErrors versionWarnings]|];
      [|simpl; split; [discriminate|intros (m&Hm); discriminate Hm]].
    destruct (structure_errors fields) as [structureErrors|];
      [|simpl; split; [discriminate|intros (m&Hm); discriminate Hm]].
    destruct (0 <? length _)%nat; simpl.
    + split; [discriminate|intros (m&Hm); discriminate Hm].
    + split; [intros _; now eexists|reflexivity].
  - intros m. unfold r, validateBackupFile, validate_object.
    destruct (check_version fields) as [[versionErrors versionWarnings]|];
      [|discriminate].
    destruct (structure_errors fields) as [structureErrors|]; [|discriminate].
    destruct (0 <? length _)%nat; simpl; [discriminate|].
    intros [= <-]. reflexivity.
Qed.

Module IncompleteExample.

(** A backup without its [jobs]. *)
Definition fields : list (string * JSValue) :=
  [("version", JStr "1.0.0"); ("services", JArr []); ("team", JArr []);
   ("testimonials", JArr []); ("users", JArr []); ("contacts", JArr []);
   ("newsletter", JArr []); ("applications", JArr []);
   ("exportedAt", JStr "2026-01-01T00:00:00.000Z")].

End IncompleteExample.

Lemma validation_rejects_incomplete_backups_witness :
  In "jobs" requiredFields
  /\ assoc "jobs" IncompleteExample.fields = None
  /\ version_is_text IncompleteExample.fields
  /\ no_null_service IncompleteExample.fields
  /\ isValid (validateBackupFile (JObj IncompleteExample.fields)) = false
  /\ In "Missing required field: jobs"
       (errors (validateBackupFile (JObj IncompleteExample.fields))).
Proof.
  assert (Hin : In "jobs" requiredFields) by (simpl; auto).
  assert (Hnone : assoc "jobs" IncompleteExample.fields = None) by reflexivity.
  assert (Htext : version_is_text IncompleteExample.fields).
  { intros v Hv _. injection Hv as <-. now eexists. }
  assert (Hnull : no_null_service IncompleteExample.fields).
  { intros items Hitems. injection Hitems as <-. intros []. }
  split; [exact Hin|]. split; [exact Hnone|]. split; [exact Htext|].
  split; [exact Hnull|].
  exact (proj1 (validation_rejects_incomplete_backups IncompleteExample.fields)
           "jobs" Hin Hnone Htext Hnull).
Defined.

(* ================================================================= *)
(** ** The event emitter

    [DatabaseEventEmitter] keeps, for each topic, the [Set] of the
    listeners subscribed to it.  A listener is a function object, which a
    [Set] tells apart by identity: the model names it by a number ([nat]).  [emit]
    calls the listeners of the topic in the order of the set; the model
    gives the listeners it calls, in that order. *)

Module DatabaseEventEmitter.

(** [Map<DatabaseEventType, Set<DatabaseListener>>], entries and members
    in insertion order. *)
Definition Listeners : Type := list (DatabaseEventType * list nat).

(** [new Map()] *)
Definition empty : Listeners := [].

Fixpoint get (event : DatabaseEventType) (m : Listeners) : option (list nat) :=
  match m with
  | [] => None
  | (event', s) :: r => if decide (event = event') then Some s else get event r
  end.

Fixpoint set (event : DatabaseEventType) (s : list nat) (m : Listeners)
  : Listeners :=
  match m with
  | [] => [(event, s)]
  | (event', s') :: r =>
      if decide (event = event') then (event, s) :: r else (event', s') :: set event s r
  end.

Definition has (listener : nat) (s : list nat) : bool :=
  existsb (Nat.eqb listener) s.

(** [Set.prototype.add]: a member is not added again. *)
Definition add (listener : nat) (s : list nat) : list nat :=
  if has listener s then s else (s ++ [listener])%list.

(** [Set.prototype.delete] *)
Definition remove (listener : nat) (s : list nat) : list nat :=
  List.filter (fun l => negb (Nat.eqb l listener)) s.

Definition subscribe (event : DatabaseEventType) (listener : nat) (m : Listeners)
  : Listeners :=
  let m1 := match get event m with Some _ => m | None => set event [] m end in
  match get event m1 with
  | Some s => set event (add listener s) m1
  | None => m1
  end.

(** The function [subscribe] returns, called. *)
Definition unsubscribe (event : DatabaseEventType) (listener : nat)
    (m : Listeners) : Listeners :=
  match get event m with
  | Some s => set event (remove listener s) m
  | None => m
  end.

(** The listeners [emit] calls. *)
Definition emit (event : DatabaseEventType) (m : Listeners) : list nat :=
  default [] (get event m).

(** No listener is twice in a set: so it is of every emitter built from
    the empty one by [subscribe] and [unsubscribe]. *)
Definition well_formed (m : Listeners) : Prop :=
  forall event s, get event m = Some s -> NoDup s.

Lemma get_set_eq event s m : get event (set event s m) = Some s.
Proof.
  induction m as [|[event' s'] m IH]; simpl.
  - now rewrite decide_True.
  - destruct (decide (event = event')) as [->|Hne]; simpl.
    + now rewrite decide_True.
    + now rewrite decide_False.
Qed.

Lemma get_set_ne event event' s m :
  event' <> event -> get event' (set event s m) = get event' m.
Proof.
  intros Hne. induction m as [|[event0 s0] m IH]; simpl.
  - now rewrite decide_False.
  - destruct (decide (event = event0)) as [->|Hne0]; simpl.
    + now rewrite !decide_False.
    + destruct (decide (event' = event0)); [reflexivity|exact IH].
Qed.

Lemma has_In listener s : has listener s = true <-> In listener s.
Proof.
  unfold has. rewrite existsb_exists. split.
  - intros (x&Hx&Heq). apply Nat.eqb_eq in Heq. now subst.
  - intros Hin. exists listener. split; [exact Hin|apply Nat.eqb_refl].
Qed.

Lemma emit_subscribe event listener m :
  emit event (subscribe event listener m) = add listener (emit event m).
Proof.
  unfold emit, subscribe. destruct (get event m) as [s|] eqn:Hs; simpl.
  - rewrite Hs. now rewrite get_set_eq.
  - rewrite get_set_eq. now rewrite get_set_eq.
Qed.

Lemma emit_unsubscribe event listener m :
  emit event (unsubscribe event listener m) = remove listener (emit event m).
Proof.
  unfold emit, unsubscribe. destruct (get event m) as [s|] eqn:Hs; simpl.
  - now rewrite get_set_eq.
  - now rewrite Hs.
Qed.

Lemma get_subscribe_ne event event' listener m :
  event' <> event -> get event' (subscribe event listener m) = get event' m.
Proof.
  intros Hne. unfold subscribe. destruct (get event m) as [s|] eqn:Hs.
  - rewrite Hs. now apply get_set_ne.
  - rewrite get_set_eq. rewrite !get_set_ne by exact Hne. reflexivity.
Qed.

Lemma get_unsubscribe_ne event event' listener m :
  event' <> event -> get event' (unsubscribe event listener m) = get event' m.
Proof.
  intros Hne. unfold unsubscribe. destruct (get event m) as [s|]; [|reflexivity].
  now apply get_set_ne.
Qed.

Lemma NoDup_add listener s : NoDup s -> NoDup (add listener s).
Proof.
  intros Hnd. unfold add. destruct (has listener s) eqn:Hhas; [exact Hnd|].
  apply NoDup_app. split; [exact Hnd|]. split; [|apply NoDup_singleton].
  intros x Hx Hin. apply list_elem_of_In in Hin. destruct Hin as [<-|[]].
  apply list_elem_of_In, has_In in Hx. congruence.
Qed.

Lemma NoDup_remove listener s : NoDup s -> NoDup (remove listener s).
Proof.
  unfold remove. induction 1 as [|x s Hx Hnd IH]; simpl; [constructor|].
  destruct (negb (Nat.eqb x listener)); [|exact IH].
  constructor; [|exact IH]. intros Hin. apply Hx.
  apply list_elem_of_In in Hin. apply List.filter_In in Hin.
  now apply list_elem_of_In.
Qed.

Lemma count_add listener s :
  NoDup s -> count_occ Nat.eq_dec (add listener s) listener = 1%nat.
Proof.
  intros Hnd. unfold add. destruct (has listener s) eqn:Hhas.
  - apply has_In in Hhas. apply NoDup_count_occ'; [|exact Hhas].
    now apply NoDup_ListNoDup.
  - assert (Hzero : count_occ Nat.eq_dec s listener = 0%nat).
    { apply count_occ_not_In. intros Hin. apply has_In in Hin. congruence. }
    rewrite count_occ_app, Hzero. simpl.
    destruct (Nat.eq_dec listener listener); [reflexivity|easy].
Qed.

End DatabaseEventEmitter.

(** X23.  Subscriptions are per listener, not per call of [subscribe]: after a
    listener has subscribed to a topic, once or several times, an emission
    of the topic calls it exactly once, after the listeners subscribed
    before it; one call of the function [subscribe] returned removes it,
    so that it is not called any more, whichever subscription the function
    came from; the listeners of the other topics, and the other listeners
    of the topic, are called as before; and the emission of a topic nobody
    subscribed to calls nobody. *)
Theorem subscriptions_are_per_listener (m : DatabaseEventEmitter.Listeners)
    (event : DatabaseEventType) (listener : nat) :
  DatabaseEventEmitter.well_formed m ->
  let subscribed := DatabaseEventEmitter.subscribe event listener m in
  let twice := DatabaseEventEmitter.subscribe event listener subscribed in
  let again := DatabaseEventEmitter.unsubscribe event listener twice in
  DatabaseEventEmitter.well_formed subscribed
  /\ DatabaseEventEmitter.well_formed again
  /\ twice = subscribed
  /\ count_occ Nat.eq_dec (DatabaseEventEmitter.emit event subscribed) listener = 1%nat
  /\ (exists later,
        DatabaseEventEmitter.emit event subscribed
        = (DatabaseEventEmitter.emit event m ++ later)%list)
  /\ ~ In listener (DatabaseEventEmitter.emit event again)
  /\ (forall other,
        other <> listener ->
        (In other (DatabaseEventEmitter.emit event again)
         <-> In other (DatabaseEventEmitter.emit event m)))
  /\ (forall event',
        event' <> event ->
        DatabaseEventEmitter.emit event' subscribed = DatabaseEventEmitter.emit event' m
        /\ DatabaseEventEmitter.emit event' again = DatabaseEventEmitter.emit event' m)
  /\ DatabaseEventEmitter.emit event DatabaseEventEmitter.empty = [].
Proof.
  intros Hwf subscribed twice again.
  assert (Hs : NoDup (DatabaseEventEmitter.emit event m)).
  { unfold DatabaseEventEmitter.emit.
    destruct (DatabaseEventEmitter.get event m) as [s|] eqn:Hget; simpl.
    - exact (Hwf event s Hget).
    - apply NoDup_nil_2. }
  assert (Hwf1 : DatabaseEventEmitter.well_formed subscribed).
  { intros event' s Hget. destruct (decide (event' = event)) as [->|Hne].
    - pose proof (DatabaseEventEmitter.emit_subscribe event listener m) as He.
      unfold DatabaseEventEmitter.emit at 1 in He. fold subscribed in He.
      rewrite Hget in He. simpl in He. subst s.
      now apply DatabaseEventEmitter.NoDup_add.
    - unfold subscribed in Hget.
      rewrite DatabaseEventEmitter.get_subscribe_ne in Hget by exact Hne.
      exact (Hwf event' s Hget). }
  assert (Hemit1 : DatabaseEventEmitter.emit event subscribed
                   = DatabaseEventEmitter.add listener
                       (DatabaseEventEmitter.emit event m))
    by apply DatabaseEventEmitter.emit_subscribe.
  assert (Hin1 : In listener (DatabaseEventEmitter.emit event subscribed)).
  { rewrite Hemit1. unfold DatabaseEventEmitter.add.
    destruct (DatabaseEventEmitter.has listener _) eqn:Hhas.
    - now apply DatabaseEventEmitter.has_In.
    - apply in_or_app. right. now left. }
  assert (Htwice : twice = subscribed).
  { unfold twice, DatabaseEventEmitter.subscribe at 1.
    destruct (DatabaseEventEmitter.get event subscribed) as [s|] eqn:Hget.
    2:{ unfold DatabaseEventEmitter.emit in Hin1. rewrite Hget in Hin1.
        destruct Hin1. }
    rewrite Hget. unfold DatabaseEventEmitter.add.
    unfold DatabaseEventEmitter.emit in Hin1. rewrite Hget in Hin1. simpl in Hin1.
    apply DatabaseEventEmitter.has_In in Hin1. rewrite Hin1.
    clear -Hget. induction subscribed as [|[event' s'] r IH]; [discriminate Hget|].
    simpl in *. destruct (decide (event = event')) as [->|Hne].
    - now injection Hget as ->.
    - f_equal. now apply IH. }
  assert (Hemit2 : DatabaseEventEmitter.emit event again
                   = DatabaseEventEmitter.remove listener
                       (DatabaseEventEmitter.emit event subscribed)).
  { unfold again. rewrite Htwice. apply DatabaseEventEmitter.emit_unsubscribe. }
  split; [exact Hwf1|]. split; [|split; [exact Htwice|split; [|split; [|split;
    [|split; [|split]]]]]].
  - intros event' s Hget. unfold again in Hget. rewrite Htwice in Hget.
    destruct (decide (event' = event)) as [->|Hne].
    + pose proof (DatabaseEventEmitter.emit_unsubscribe event listener subscribed)
        as He.
      unfold DatabaseEventEmitter.emit at 1 in He. rewrite Hget in He. simpl in He.
      subst s. apply DatabaseEventEmitter.NoDup_remove.
      rewrite Hemit1. now apply DatabaseEventEmitter.NoDup_add.
    + rewrite DatabaseEventEmitter.get_unsubscribe_ne in Hget by exact Hne.
      exact (Hwf1 event' s Hget).
  - rewrite Hemit1. now apply DatabaseEventEmitter.count_add.
  - rewrite Hemit1. unfold DatabaseEventEmitter.add.
    destruct (DatabaseEventEmitter.has listener _).
    + exists []. now rewrite app_nil_r.
    + now eexists.
  - rewrite Hemit2. unfold DatabaseEventEmitter.remove. intros Hin.
    apply List.filter_In in Hin. destruct Hin as [_ Hne].
    now rewrite Nat.eqb_refl in Hne.
  - intros other Hother. rewrite Hemit2, Hemit1.
    unfold DatabaseEventEmitter.remove, DatabaseEventEmitter.add.
    rewrite List.filter_In.
    assert (Hneq : negb (Nat.eqb other listener) = true).
    { apply negb_true_iff, Nat.eqb_neq, Hother. }
    destruct (DatabaseEventEmitter.has listener _).
    + split; [now intros [Hin _]|now intros Hin].
    + split.
      * intros [Hin _]. apply in_app_or in Hin. destruct Hin as [Hin|[Heq|[]]];
          [exact Hin|]. now contradiction Hother.
      * intros Hin. split; [|exact Hneq]. apply in_or_app. now left.
  - intros event' Hne. unfold DatabaseEventEmitter.emit, again. rewrite Htwice.
    rewrite DatabaseEventEmitter.get_unsubscribe_ne by exact Hne.
    unfold subscribed. rewrite DatabaseEventEmitter.get_subscribe_ne by exact Hne.
    now split.
  - reflexivity.
Qed.

Lemma subscriptions_are_per_listener_witness :
  DatabaseEventEmitter.well_formed DatabaseEventEmitter.empty
  /\ DatabaseEventEmitter.emit topic_services
       (DatabaseEventEmitter.subscribe topic_services 7
          (DatabaseEventEmitter.subscribe topic_services 7 DatabaseEventEmitter.empty))
     = [7%nat].
Proof.
  assert (Hwf : DatabaseEventEmitter.well_formed DatabaseEventEmitter.empty).
  { intros event s Hget. discriminate Hget. }
  split; [exact Hwf|].
  rewrite (proj1 (proj2 (proj2 (subscriptions_are_per_listener
                                  DatabaseEventEmitter.empty topic_services 7 Hwf)))).
  reflexivity.
Defined.

(* ================================================================= *)
(** ** A full store, its size cached *)

Lemma strlen_JSON_positive (d : JSValue) : 0 < strlen (JSON_stringify d).
Proof.
  pose proof (JSON_stringify_nonempty d) as Hne. unfold strlen.
  destruct (JSON_stringify d); [discriminate Hne|]. simpl. lia.
Qed.

(** X24.  While the size of the store is answered from the cache (the capacity
    check of the write leaves a positive size in it, and the clock stays
    within ten seconds of the moment it was filled), a write the host
    refuses for lack of space is never recovered: the eviction runs, and
    may remove submissions, but it measures no freed byte and reports
    failure, so the write is not retried; [setItem] dispatches the
    [storage:quotaError] event and throws the [StorageQuotaError].  No key
    other than the three submission collections is touched. *)
Theorem quota_error_is_not_recovered_while_size_is_cached (host : Host) {T}
    `{JSONData T} (key : string) (value : T) (w : World) (e : DOMException) :
  window_defined host = true ->
  host_setItem host (localStorage w) key (Json (toJSON value)) = Some e ->
  isQuotaError (HostError e) = true ->
  cache_warm host (exec (isStorageNearCapacity host) (with_reads (S (reads w)) w)) ->
  let w' := exec (setItem host key value) w in
  exists info,
    result (setItem host key value) w = Throw (StorageQuotaError quota_message info)
    /\ dispatched w' = (dispatched w ++ [info])%list
    /\ touches_only evictable w w'.
Proof.
  intros Hw Hrej Hq Hwarm w'.
  apply (wp_elim (setItem host key value) w
           (fun r w1 => exists info,
                r = Throw (StorageQuotaError quota_message info)
                /\ dispatched w1 = (dispatched w ++ [info])%list
                /\ touches_only evictable w w1)).
  unfold setItem. rewrite Hw. simpl.
  wp_step. apply wp_Date_now.
  set (w1 := with_reads (S (reads w)) w) in *.
  set (w2 := exec (isStorageNearCapacity host) w1) in *.
  assert (Hnear : exists b, isStorageNearCapacity host w1 = (Ok b, w2)
                            /\ unchanged w1 w2).
  { pose proof (wp_isStorageNearCapacity host w1
                  (fun r wa => (exists b, r = Ok b) /\ unchanged w1 wa)
                  (fun b wa Hu => conj (ex_intro _ b eq_refl) Hu)) as Hwp.
    apply wp_elim in Hwp. fold w2 in Hwp. destruct Hwp as ((b&Hb)&Hu).
    exists b. split; [|exact Hu]. unfold w2, exec, result in *.
    destruct (isStorageNearCapacity host w1) as [r wa]. simpl in *. now subst. }
  destruct Hnear as (b&Hnear&(Hl2&He2&Hd2)). simpl in Hl2, He2, Hd2.
  wp_step. eapply wp_run; [exact Hnear|].
  wp_step. wp_step. wp_step.
  set (condition := (b && _)%bool).
  assert (Hcheck : forall Q : Result unit -> World -> Prop,
            (forall w3, cache_warm host w3 -> localStorage w3 = localStorage w ->
                        dispatched w3 = dispatched w -> Q (Ok tt) w3) ->
            wp (if condition
                then emit topic_storageWarning;;
                     modify (with_lastWarningTime (timeAt host (reads w)))
                else mret tt) w2 Q).
  { intros Q HQ. destruct condition.
    - wp_step. apply wp_emit. wp_step. apply HQ; [exact Hwarm| |]; simpl; congruence.
    - wp_step. apply HQ; [exact Hwarm| |]; congruence. }
  apply Hcheck. intros w3 Hwarm3 Hl3 Hd3.
  wp_step. apply wp_localStorage_setItem.
  { intros Hacc. rewrite Hl3 in Hacc. congruence. }
  intros e' He'. rewrite Hl3, Hrej in He'. injection He' as <-.
  rewrite Hq. cbv zeta.
  set (bytesNeeded := strlen (JSON_stringify (toJSON value)) * 2).
  set (w4 := exec (cleanupOldData host bytesNeeded) w3).
  assert (Hclean : cleanupOldData host bytesNeeded w3 = (Ok false, w4)
                   /\ touches_only evictable w3 w4 /\ dispatched w4 = dispatched w3).
  { assert (Hkept : cache_kept w3 (exec (getStorageSize host) w3)).
    { exact (wp_elim _ _ _
               (wp_getStorageSize_warm host Hw w3 (fun _ wa => cache_kept w3 wa)
                  Hwarm3 (fun wa _ Hk => Hk))). }
    pose proof (cleanupOldData_cached_size host Hw bytesNeeded w3
                  (cache_kept_warm host _ _ Hkept Hwarm3)) as Hfalse.
    assert (Hpos : 0 < bytesNeeded).
    { unfold bytesNeeded. pose proof (strlen_JSON_positive (toJSON value)). lia. }
    specialize (Hfalse Hpos).
    pose proof (wp_cleanupOldData host bytesNeeded w3
                  (fun _ wa => touches_only evictable w3 wa
                               /\ dispatched wa = dispatched w3)
                  (fun _ wa Ht Hd => conj Ht Hd)) as Hframe.
    apply wp_elim in Hframe. fold w4 in Hframe.
    split; [|exact Hframe]. unfold w4, exec, result in *.
    destruct (cleanupOldData host bytesNeeded w3) as [r wa]. simpl in *. now subst. }
  destruct Hclean as (Hclean&Ht4&Hd4).
  wp_step. eapply wp_run; [exact Hclean|].
  wp_step. wp_step. cbv beta iota.
  wp_step. apply wp_getStorageSize. intros size w5 (Hl5&_&Hd5).
  wp_step. apply wp_getStorageUsagePercentage. intros pct w6 (Hl6&_&Hd6).
  wp_step. unfold dispatchQuotaError. wp_step. wp_step.
  eexists. split; [reflexivity|]. simpl. split.
  - congruence.
  - intros k Hk. simpl. rewrite Hl6, Hl5, (Ht4 k Hk). now rewrite Hl3.
Qed.

Lemma quota_error_is_not_recovered_while_size_is_cached_witness :
  window_defined QuotaExample.host = true
  /\ host_setItem QuotaExample.host (localStorage QuotaExample.world) DB_KEYS.SERVICES
       (Json (toJSON QuotaExample.services)) = Some quotaExceeded
  /\ isQuotaError (HostError quotaExceeded) = true
  /\ cache_warm QuotaExample.host
       (exec (isStorageNearCapacity QuotaExample.host)
          (with_reads 1 QuotaExample.world))
  /\ exists info,
       result (setItem QuotaExample.host DB_KEYS.SERVICES QuotaExample.services)
         QuotaExample.world = Throw (StorageQuotaError quota_message info).
Proof.
  assert (Hw : window_defined QuotaExample.host = true) by reflexivity.
  assert (Hrej : host_setItem QuotaExample.host (localStorage QuotaExample.world)
                   DB_KEYS.SERVICES (Json (toJSON QuotaExample.services))
                 = Some quotaExceeded) by (vm_compute; reflexivity).
  assert (Hq : isQuotaError (HostError quotaExceeded) = true) by reflexivity.
  assert (Hwarm : cache_warm QuotaExample.host
                    (exec (isStorageNearCapacity QuotaExample.host)
                       (with_reads 1 QuotaExample.world))).
  { split; [vm_compute; reflexivity|]. intros i. vm_compute. reflexivity. }
  split; [exact Hw|]. split; [exact Hrej|]. split; [exact Hq|]. split; [exact Hwarm|].
  destruct (quota_error_is_not_recovered_while_size_is_cached QuotaExample.host
              DB_KEYS.SERVICES QuotaExample.services QuotaExample.world quotaExceeded
              Hw Hrej Hq Hwarm) as (info&Hthrow&_).
  exists info. exact Hthrow.
Defined.
